(** * Workday Excel to iCal converter: the schedule engine of [src/App.jsx]

    A shallow embedding of the engine functions of [src/App.jsx]
    ([parseDate], [parseTime], [parseDays], [expandOccurrences],
    [combineDateTime], [icsEscape], [foldLines], [buildICS] and the
    conversion pass of [handleGenerate]) together with the properties the
    specification states about them.

    Modelling conventions.
    - A JavaScript string is a Rocq [string]; its characters stand for
      ASCII code units.  Case mapping and white space are the ASCII
      parts of [toUpperCase], [trim] and the regular-expression class
      [\s].
    - A regular expression of the source is a term of [regex], run by a
      backtracking matcher with the priorities of the ECMAScript
      matcher (greedy quantifiers, left alternative first).
    - A [Date] holds its time value, the seconds since
      1970-01-01T00:00:00Z.  Local time is the host's: a [Zone] gives the
      offset of local time as ECMAScript's [LocalTZA] does, so that the
      local fields of a [Date], and the [Date] built from local fields,
      depend on the zone; the constructor's rule for the years 0 to 99
      is part of [newDate].
    - A JavaScript object used as a dictionary (a row, the field
      mapping) is a [gmap string string]; the [Set] of weekdays is a
      [gset Z], the [Set] of tokens a list without duplicates in
      insertion order.
    - A [while] loop is a function with fuel that returns [None] when
      the fuel runs out; each comes with a lemma that the fuel it is
      given is enough. *)

From Stdlib Require Import ZArith Ascii String List Bool Lia DecimalString.
From stdpp Require Import base option gmap strings list sorting.

Open Scope string_scope.
Open Scope list_scope.
Open Scope Z_scope.

(** ** JavaScript string primitives *)

Module Js.

Definition code (c : ascii) : N := N_of_ascii c.

Definition inRange (lo hi : N) (c : ascii) : bool :=
  ((lo <=? code c) && (code c <=? hi))%N.

(** White space and line terminators below code 128: TAB, LF, VT, FF,
    CR and SPACE. *)
Definition isWhiteSpace (c : ascii) : bool :=
  inRange 9 13 c || (code c =? 32)%N.

Definition isDigit (c : ascii) : bool := inRange 48 57 c.
Definition isUpper (c : ascii) : bool := inRange 65 90 c.
Definition isLower (c : ascii) : bool := inRange 97 122 c.

(** The class [\w], which decides [\b]. *)
Definition isWordChar (c : ascii) : bool :=
  isDigit c || isUpper c || isLower c || (code c =? 95)%N.

Definition upperChar (c : ascii) : ascii :=
  if isLower c then ascii_of_N (code c - 32) else c.

Definition lowerChar (c : ascii) : ascii :=
  if isUpper c then ascii_of_N (code c + 32) else c.

Fixpoint toUpperCase (s : string) : string :=
  match s with
  | "" => ""
  | String c s' => String (upperChar c) (toUpperCase s')
  end.

Fixpoint toLowerCase (s : string) : string :=
  match s with
  | "" => ""
  | String c s' => String (lowerChar c) (toLowerCase s')
  end.

Fixpoint trimStart (s : string) : string :=
  match s with
  | "" => ""
  | String c s' => if isWhiteSpace c then trimStart s' else s
  end.

Fixpoint trimEnd (s : string) : string :=
  match s with
  | "" => ""
  | String c s' =>
      match trimEnd s' with
      | "" => if isWhiteSpace c then "" else String c ""
      | r => String c r
      end
  end.

Definition trim (s : string) : string := trimEnd (trimStart s).

Fixpoint take (n : nat) (s : string) : string :=
  match n, s with
  | S n', String c s' => String c (take n' s')
  | _, _ => ""
  end.

Fixpoint drop (n : nat) (s : string) : string :=
  match n, s with
  | S n', String _ s' => drop n' s'
  | _, _ => s
  end.

(** [s.slice(i, j)] for [0 <= i <= j]. *)
Definition slice (i j : nat) (s : string) : string :=
  take (j - i) (drop i s).

Fixpoint startsWith (p s : string) : bool :=
  match p, s with
  | "", _ => true
  | String a p', String b s' => if Ascii.eqb a b then startsWith p' s' else false
  | _, _ => false
  end.

(** [s.includes(c)] for a one-character needle. *)
Fixpoint includesChar (c : ascii) (s : string) : bool :=
  match s with
  | "" => false
  | String a s' => Ascii.eqb a c || includesChar c s'
  end.

(** [s.split(sep)] for a one-character separator: the pieces between
    the separators, empty pieces included. *)
Fixpoint split (sep : ascii) (s : string) : list string :=
  match s with
  | "" => [""]
  | String c s' =>
      if Ascii.eqb c sep then "" :: split sep s'
      else match split sep s' with
           | p :: ps => String c p :: ps
           | [] => [String c ""]
           end
  end.

(** [parts.join(sep)]. *)
Fixpoint join (sep : string) (parts : list string) : string :=
  match parts with
  | [] => ""
  | [p] => p
  | p :: ps => p +:+ sep +:+ join sep ps
  end.

(** Truthiness of a string: the empty string is falsy. *)
Definition truthy (s : string) : bool :=
  match s with "" => false | _ => true end.

Definition digitValue (c : ascii) : Z := Z.of_N (code c - 48).

(** [Number(s)] for a string of decimal digits, which is what the
    capture groups of the source's patterns hold. *)
Definition Number (s : string) : Z :=
  (fix go (acc : Z) (s : string) : Z :=
     match s with
     | "" => acc
     | String c s' => go (10 * acc + digitValue c) s'
     end) 0 s.

End Js.

(** ** Regular expressions *)

Module Re.

Inductive regex : Type :=
| Empty
| Class (p : ascii -> bool)
| Cat (r1 r2 : regex)
| Or (r1 r2 : regex)
| Opt (r : regex)
| Star (r : regex)
| Group (n : nat) (r : regex)
| WordB
| Bol
| Eol.

(** A literal is the concatenation of its characters. *)
Fixpoint Lit (s : string) : regex :=
  match s with
  | "" => Empty
  | String c s' => Cat (Class (Ascii.eqb c)) (Lit s')
  end.

Definition Plus (r : regex) : regex := Cat r (Star r).

(** The matcher state: the character before the current position
    (for [\b] and [^]), the input still to read, and the captures. *)
Record mstate : Type := MState {
  prev : option ascii;
  rest : string;
  caps : gmap nat string
}.

Definition remaining (st : mstate) : nat := String.length (rest st).

Definition isWordOpt (o : option ascii) : bool :=
  match o with Some c => Js.isWordChar c | None => false end.

Definition next (st : mstate) : option ascii :=
  match rest st with "" => None | String c _ => Some c end.

Definition consumed (st st' : mstate) : string :=
  Js.take (remaining st - remaining st') (rest st).

Definition setCap (n : nat) (v : string) (st : mstate) : mstate :=
  MState (prev st) (rest st) (<[n := v]> (caps st)).

(** A repetition step that matched the empty string is refused, as in
    the ECMAScript RepeatMatcher. *)
Definition progress (st st' : mstate) : bool :=
  (remaining st' <? remaining st)%nat.

(** Backtracking matcher in continuation-passing style: [run r st k]
    is the first way, in priority order, of matching [r] at [st] for
    which the continuation [k] succeeds. *)
Fixpoint run (r : regex) (st : mstate) (k : mstate -> option mstate)
  : option mstate :=
  match r with
  | Empty => k st
  | Class p =>
      match rest st with
      | String c s' => if p c then k (MState (Some c) s' (caps st)) else None
      | "" => None
      end
  | Cat r1 r2 => run r1 st (fun st1 => run r2 st1 k)
  | Or r1 r2 =>
      match run r1 st k with
      | Some res => Some res
      | None => run r2 st k
      end
  | Opt r1 =>
      match run r1 st (fun st1 => if progress st st1 then k st1 else None) with
      | Some res => Some res
      | None => k st
      end
  | Star r1 =>
      (fix loop (n : nat) (st : mstate) : option mstate :=
         match n with
         | O => k st
         | S n' =>
             match run r1 st (fun st1 => if progress st st1 then loop n' st1 else None) with
             | Some res => Some res
             | None => k st
             end
         end) (remaining st) st
  | Group n r1 => run r1 st (fun st1 => k (setCap n (consumed st st1) st1))
  | WordB => if xorb (isWordOpt (prev st)) (isWordOpt (next st)) then k st else None
  | Bol => match prev st with None => k st | Some _ => None end
  | Eol => match rest st with "" => k st | _ => None end
  end.

(** One attempt at a fixed start position. *)
Definition matchAt (r : regex) (p : option ascii) (s : string) : option mstate :=
  run r (MState p s ∅) Some.

(** Leftmost match: the text before it, the matched text, the final
    state (whose [rest] is the text after the match). *)
Fixpoint searchFrom (r : regex) (p : option ascii) (before s : string)
  : option (string * string * mstate) :=
  match matchAt r p s with
  | Some st => Some (before, Js.take (String.length s - remaining st) s, st)
  | None =>
      match s with
      | "" => None
      | String c s' => searchFrom r (Some c) (before +:+ String c "") s'
      end
  end.

(** [s.match(r)] for a pattern without the global flag: the captures
    of the leftmost match. *)
Definition exec (r : regex) (s : string) : option (gmap nat string) :=
  match searchFrom r None "" s with
  | Some (_, _, st) => Some (caps st)
  | None => None
  end.

(** [s.replace(r, t)] for a pattern without the global flag and a
    replacement text [t] free of [$]: only the leftmost match is
    replaced. *)
Definition replaceFirst (r : regex) (t : string) (s : string) : string :=
  match searchFrom r None "" s with
  | Some (before, _, st) => before +:+ t +:+ rest st
  | None => s
  end.

(** [s.replace(r, f)] for a pattern with the global flag whose matches
    are never empty: every match, left to right, is replaced by [f]
    of the matched text. *)
Fixpoint replaceGlobalFrom (fuel : nat) (r : regex) (f : string -> string)
    (p : option ascii) (s : string) : string :=
  match fuel with
  | O => s
  | S fuel' =>
      match matchAt r p s with
      | Some st =>
          let n := (String.length s - remaining st)%nat in
          match n with
          | O => match s with
                 | "" => ""
                 | String c s' => String c (replaceGlobalFrom fuel' r f (Some c) s')
                 end
          | S _ => f (Js.take n s) +:+ replaceGlobalFrom fuel' r f (prev st) (rest st)
          end
      | None =>
          match s with
          | "" => ""
          | String c s' => String c (replaceGlobalFrom fuel' r f (Some c) s')
          end
      end
  end.

Definition replaceGlobal (r : regex) (f : string -> string) (s : string) : string :=
  replaceGlobalFrom (S (String.length s)) r f None s.

(** Relational reading of the patterns: [Matches r st st'] holds when
    [r] can take the matcher from [st] to [st']. *)
Inductive Matches : regex -> mstate -> mstate -> Prop :=
| M_Empty st : Matches Empty st st
| M_Class p c s' pr cs :
    p c = true ->
    Matches (Class p) (MState pr (String c s') cs) (MState (Some c) s' cs)
| M_Cat r1 r2 st st1 st2 :
    Matches r1 st st1 -> Matches r2 st1 st2 -> Matches (Cat r1 r2) st st2
| M_OrL r1 r2 st st1 : Matches r1 st st1 -> Matches (Or r1 r2) st st1
| M_OrR r1 r2 st st1 : Matches r2 st st1 -> Matches (Or r1 r2) st st1
| M_OptSome r st st1 :
    Matches r st st1 -> progress st st1 = true -> Matches (Opt r) st st1
| M_OptNone r st : Matches (Opt r) st st
| M_StarNil r st : Matches (Star r) st st
| M_StarCons r st st1 st2 :
    Matches r st st1 -> progress st st1 = true ->
    Matches (Star r) st1 st2 -> Matches (Star r) st st2
| M_Group n r st st1 :
    Matches r st st1 -> Matches (Group n r) st (setCap n (consumed st st1) st1)
| M_WordB st :
    xorb (isWordOpt (prev st)) (isWordOpt (next st)) = true -> Matches WordB st st
| M_Bol st : prev st = None -> Matches Bol st st
| M_Eol st : rest st = "" -> Matches Eol st st.

Create HintDb re.
#[export] Hint Constructors Matches : re.

End Re.

Import Re.

(** ** Field parsers *)

Record TimeOfDay : Type := mkTime { h : Z; min : Z; sec : Z }.

Definition digit : regex := Class Js.isDigit.
Definition space : regex := Class Js.isWhiteSpace.

(** [/^(\d{1,2})(?::(\d{2}))?(?::(\d{2}))?\s*(AM|PM)?$/] *)
Definition timePatternA : regex :=
  Cat Bol
    (Cat (Group 1 (Cat digit (Opt digit)))
      (Cat (Opt (Cat (Lit ":") (Group 2 (Cat digit digit))))
        (Cat (Opt (Cat (Lit ":") (Group 3 (Cat digit digit))))
          (Cat (Star space)
            (Cat (Opt (Group 4 (Or (Lit "AM") (Lit "PM")))) Eol))))).

(** [/^(\d{1,2}):(\d{2})(?::(\d{2}))?$/] *)
Definition timePatternB : regex :=
  Cat Bol
    (Cat (Group 1 (Cat digit (Opt digit)))
      (Cat (Lit ":")
        (Cat (Group 2 (Cat digit digit))
          (Cat (Opt (Cat (Lit ":") (Group 3 (Cat digit digit)))) Eol)))).

(** [Number(m[i] || 0)]: an absent or empty capture counts as 0. *)
Definition numberOr0 (c : option string) : Z :=
  match c with
  | Some s => if Js.truthy s then Js.Number s else 0
  | None => 0
  end.

(** [parseTime(val)]; [None] as argument is [undefined], [None] as
    result is [null]. *)
Definition parseTime (val : option string) : option TimeOfDay :=
  match val with
  | None => None
  | Some v =>
      if negb (Js.truthy v) then None else
      let s := Js.trim v in
      if negb (Js.truthy s) then None else
      let s := Js.toUpperCase s in
      match exec timePatternA s with
      | Some m =>
          let h := Js.Number (default "" (m !! 1%nat)) in
          let min := numberOr0 (m !! 2%nat) in
          let sec := numberOr0 (m !! 3%nat) in
          let ampm := m !! 4%nat in
          let h :=
            if decide (ampm = Some "AM") then (if h =? 12 then 0 else h)
            else if decide (ampm = Some "PM") then (if h <? 12 then h + 12 else h)
            else h in
          Some (mkTime h min sec)
      | None =>
          match exec timePatternB s with
          | Some m =>
              Some (mkTime (Js.Number (default "" (m !! 1%nat)))
                           (Js.Number (default "" (m !! 2%nat)))
                           (numberOr0 (m !! 3%nat)))
          | None => None
          end
      end
  end.

(** ** Dates

    A [Date] holds its time value: the seconds since
    1970-01-01T00:00:00Z (the code neither reads nor sets milliseconds).
    Local time is the host's.  A [Zone] gives, as [LocalTZA(t, isUTC)]
    of ECMAScript does, the offset in seconds of local time at the UTC
    time value [t] (with [true]) or at the local time value [t] (with
    [false]). *)

Record Date : Type := mkDate { timeValue : Z }.

Record Zone : Type := mkZone { LocalTZA : Z -> bool -> Z }.

(** [LocalTime(t)] and [UTC(t)] of ECMAScript. *)
Definition LocalTime (tz : Zone) (t : Z) : Z := t + LocalTZA tz t true.
Definition UTC (tz : Zone) (t : Z) : Z := t - LocalTZA tz t false.

Module Cal.

(** Day number of the civil date [y]-[m]-[d], [m] in 1..12. *)
Definition daysFromCivil (y m d : Z) : Z :=
  let y' := if m <=? 2 then y - 1 else y in
  let era := y' / 400 in
  let yoe := y' - era * 400 in
  let doy := (153 * (if 2 <? m then m - 3 else m + 9) + 2) / 5 + d - 1 in
  let doe := yoe * 365 + yoe / 4 - yoe / 100 + doy in
  era * 146097 + doe - 719468.

(** Civil date (year, month 1..12, day) of a day number. *)
Definition civilFromDays (z : Z) : Z * Z * Z :=
  let z := z + 719468 in
  let era := z / 146097 in
  let doe := z - era * 146097 in
  let yoe := (doe - doe / 1460 + doe / 36524 - doe / 146096) / 365 in
  let doy := doe - (365 * yoe + yoe / 4 - yoe / 100) in
  let mp := (5 * doy + 2) / 153 in
  let d := doy - (153 * mp + 2) / 5 + 1 in
  let m := if mp <? 10 then mp + 3 else mp - 9 in
  ((if m <=? 2 then yoe + era * 400 + 1 else yoe + era * 400), m, d).

(** [MakeDay(year, month, date)] of ECMAScript: the month is 0-based and
    may overflow into the years, the date into the months. *)
Definition MakeDay (year month date : Z) : Z :=
  daysFromCivil (year + month / 12) (month mod 12 + 1) 1 + date - 1.

End Cal.

(** The fields of a time value, as ECMAScript names them. *)
Definition Day (t : Z) : Z := t / 86400.
Definition TimeWithinDay (t : Z) : Z := t mod 86400.
Definition YearFromTime (t : Z) : Z := fst (fst (Cal.civilFromDays (Day t))).
Definition MonthFromTime (t : Z) : Z := snd (fst (Cal.civilFromDays (Day t))) - 1.
Definition DateFromTime (t : Z) : Z := snd (Cal.civilFromDays (Day t)).
Definition HourFromTime (t : Z) : Z := TimeWithinDay t / 3600.
Definition MinFromTime (t : Z) : Z := (TimeWithinDay t / 60) mod 60.
Definition SecFromTime (t : Z) : Z := TimeWithinDay t mod 60.

(** 0 is Sunday; day 0 (1970-01-01) is a Thursday. *)
Definition WeekDay (t : Z) : Z := (Day t + 4) mod 7.

(** The local time value of a [Date], which its local fields read. *)
Definition localValue (tz : Zone) (d : Date) : Z := LocalTime tz (timeValue d).

Definition getFullYear (tz : Zone) (d : Date) : Z := YearFromTime (localValue tz d).
Definition getMonth (tz : Zone) (d : Date) : Z := MonthFromTime (localValue tz d).
Definition getDate (tz : Zone) (d : Date) : Z := DateFromTime (localValue tz d).
Definition getHours (tz : Zone) (d : Date) : Z := HourFromTime (localValue tz d).
Definition getMinutes (tz : Zone) (d : Date) : Z := MinFromTime (localValue tz d).
Definition getSeconds (tz : Zone) (d : Date) : Z := SecFromTime (localValue tz d).
Definition getDay (tz : Zone) (d : Date) : Z := WeekDay (localValue tz d).

Definition getUTCFullYear (d : Date) : Z := YearFromTime (timeValue d).
Definition getUTCMonth (d : Date) : Z := MonthFromTime (timeValue d).
Definition getUTCDate (d : Date) : Z := DateFromTime (timeValue d).
Definition getUTCHours (d : Date) : Z := HourFromTime (timeValue d).
Definition getUTCMinutes (d : Date) : Z := MinFromTime (timeValue d).
Definition getUTCSeconds (d : Date) : Z := SecFromTime (timeValue d).

(** [new Date(y, m, d, h, min, s)] from numbers: a year 0..99 means
    1900 + year, each field overflows into the next larger one, and the
    local time value so made is turned into a time value by [UTC]. *)
Definition newDate (tz : Zone) (y m d hh mm ss : Z) : Date :=
  let y := if (0 <=? y) && (y <=? 99) then 1900 + y else y in
  mkDate (UTC tz (Cal.MakeDay y m d * 86400 + (hh * 3600 + mm * 60 + ss))).

(** [new Date(d.getFullYear(), d.getMonth(), d.getDate())] *)
Definition dateOnly (tz : Zone) (d : Date) : Date :=
  newDate tz (getFullYear tz d) (getMonth tz d) (getDate tz d) 0 0 0.

(** [d.setDate(d.getDate() + 1)]: the day of the month is set in local
    time, the time within the day is kept, and no year rule applies. *)
Definition nextDay (tz : Zone) (d : Date) : Date :=
  let t := localValue tz d in
  mkDate (UTC tz (Cal.MakeDay (YearFromTime t) (MonthFromTime t) (DateFromTime t + 1)
                    * 86400 + TimeWithinDay t)).

(** [/^(\d{4})[-\/]?(\d{2})[-\/]?(\d{2})$/] *)
Definition isDateSep (c : ascii) : bool := Ascii.eqb c "-" || Ascii.eqb c "/".

Definition datePattern : regex :=
  Cat Bol
    (Cat (Group 1 (Cat digit (Cat digit (Cat digit digit))))
      (Cat (Opt (Class isDateSep))
        (Cat (Group 2 (Cat digit digit))
          (Cat (Opt (Class isDateSep))
            (Cat (Group 3 (Cat digit digit)) Eol))))).

(** [parseDate(val)] for a text cell.  [hostParse s] stands for the
    host's [new Date(s)], [None] being an invalid date: what it accepts
    is left to the JavaScript engine.  Cells are text here, as the CSV
    reader and [sheet_to_json] with [raw: false] produce them, so the
    [instanceof Date] branch is not taken. *)
Definition parseDate (tz : Zone) (hostParse : string -> option Date)
    (val : option string) : option Date :=
  match val with
  | None => None
  | Some v =>
      if negb (Js.truthy v) then None else
      let s := Js.trim v in
      if negb (Js.truthy s) then None else
      match hostParse s with
      | Some try1 => Some (dateOnly tz try1)
      | None =>
          match exec datePattern s with
          | Some m =>
              let y := Js.Number (default "" (m !! 1%nat)) in
              let mo := Js.Number (default "" (m !! 2%nat)) in
              let d := Js.Number (default "" (m !! 3%nat)) in
              Some (newDate tz y (mo - 1) d 0 0 0)
          | None => None
          end
      end
  end.

(** ** Weekday patterns *)

(** [/\b/] around a literal, and an optional trailing [S]. *)
Definition optS : regex := Opt (Lit "S").

(** The table [rep] of [parseDays], in its order. *)
Definition rep : list (regex * string) :=
  [ (Cat (Lit "THURSDAY") optS, "R");
    (Cat (Lit "THUR") (Cat optS WordB), "R");
    (Cat (Lit "THU") WordB, "R");
    (Cat WordB (Cat (Lit "TH") WordB), "R");
    (Cat (Lit "TUESDAY") optS, "TU");
    (Cat (Lit "TUE") (Cat optS WordB), "TU");
    (Cat WordB (Cat (Lit "TUE") WordB), "TU");
    (Cat WordB (Cat (Lit "TU") WordB), "TU");
    (Cat (Lit "MONDAY") optS, "MO");
    (Cat WordB (Cat (Lit "MON") WordB), "MO");
    (Cat WordB (Cat (Lit "MO") WordB), "MO");
    (Cat (Lit "WEDNESDAY") optS, "WE");
    (Cat WordB (Cat (Lit "WED") WordB), "WE");
    (Cat WordB (Cat (Lit "WE") WordB), "WE");
    (Cat (Lit "FRIDAY") optS, "FR");
    (Cat WordB (Cat (Lit "FRI") WordB), "FR");
    (Cat WordB (Cat (Lit "FR") WordB), "FR");
    (Cat (Lit "SATURDAY") optS, "SA");
    (Cat WordB (Cat (Lit "SAT") WordB), "SA");
    (Cat WordB (Cat (Lit "SA") WordB), "SA");
    (Cat (Lit "SUNDAY") optS, "SU");
    (Cat WordB (Cat (Lit "SUN") WordB), "SU");
    (Cat WordB (Cat (Lit "SU") WordB), "SU") ].

(** [/[,&/\\|]+/g] *)
Definition isDaySep (c : ascii) : bool :=
  Ascii.eqb c "," || Ascii.eqb c "&" || Ascii.eqb c "/" || Ascii.eqb c "\"
  || Ascii.eqb c "|".

(** [s.replace(/\s+/g, " ")] *)
Definition collapseSpaces (s : string) : string :=
  replaceGlobal (Plus space) (fun _ => " ") s.

(** A [Set] of strings in insertion order. *)
Definition setAdd (x : string) (l : list string) : list string :=
  if decide (x ∈ l) then l else l ++ [x].

(** The scan of a pattern without spaces.  [skip] is the pending [i++]
    after a two-letter token: the next character is passed over. *)
Fixpoint scanCompact (skip : bool) (s : string) (tokens : list string)
  : list string :=
  match s with
  | "" => tokens
  | String c s' =>
      if skip then scanCompact false s' tokens else
      if Ascii.eqb c "T" && String.eqb (Js.slice 0 2 s) "TU"
      then scanCompact true s' (setAdd "TU" tokens)
      else if Ascii.eqb c "R" then scanCompact false s' (setAdd "R" tokens)
      else if Ascii.eqb c "M" then scanCompact false s' (setAdd "MO" tokens)
      else if Ascii.eqb c "W" then scanCompact false s' (setAdd "WE" tokens)
      else if Ascii.eqb c "F" then scanCompact false s' (setAdd "FR" tokens)
      else if Ascii.eqb c "S" && String.eqb (Js.slice 0 2 s) "SA"
      then scanCompact true s' (setAdd "SA" tokens)
      else if Ascii.eqb c "S" && String.eqb (Js.slice 0 2 s) "SU"
      then scanCompact true s' (setAdd "SU" tokens)
      else scanCompact false s' tokens
  end.

(** The body of [s.split(" ").forEach(...)]. *)
Definition addSplitToken (tokens : list string) (tok : string) : list string :=
  let tok := Js.trim tok in
  if negb (Js.truthy tok) then tokens else
  let tok := if String.eqb tok "M" then "MO" else tok in
  let tok := if String.eqb tok "T" then "TU" else tok in
  let tok := if String.eqb tok "W" then "WE" else tok in
  let tok := if String.eqb tok "TH" then "R" else tok in
  let tok := if String.eqb tok "F" then "FR" else tok in
  let tok := if String.eqb tok "R" then "R" else tok in
  setAdd tok tokens.

(** The [switch] over a token. *)
Definition addWeekday (set : gset Z) (t : string) : gset Z :=
  if String.eqb t "MO" then {[1]} ∪ set
  else if String.eqb t "TU" then {[2]} ∪ set
  else if String.eqb t "WE" then {[3]} ∪ set
  else if String.eqb t "R" then {[4]} ∪ set
  else if String.eqb t "FR" then {[5]} ∪ set
  else if String.eqb t "SA" then {[6]} ∪ set
  else if String.eqb t "SU" then {[0]} ∪ set
  else set.

Definition parseDays (val : option string) : gset Z :=
  match val with
  | None => ∅
  | Some v =>
      if negb (Js.truthy v) then ∅ else
      let s := Js.trim v in
      if negb (Js.truthy s) then ∅ else
      let s := Js.toUpperCase s in
      let s := foldl (fun s pt => replaceFirst (fst pt) (snd pt) s) s rep in
      let s := Js.trim (collapseSpaces
                 (replaceGlobal (Plus (Class isDaySep)) (fun _ => " ") s)) in
      let tokens :=
        if negb (Js.includesChar " " s) then scanCompact false s []
        else foldl addSplitToken [] (Js.split " " s) in
      foldl addWeekday ∅ tokens
  end.

(** ** Recurrence expansion *)

(** The [while (d <= end)] loop.  [None] means the fuel ran out before
    the loop condition became false. *)
Fixpoint expandLoop (tz : Zone) (fuel : nat) (d end_ : Date) (daySet : gset Z)
    (out : list Date) : option (list Date) :=
  if timeValue d <=? timeValue end_ then
    match fuel with
    | O => None
    | S fuel' =>
        expandLoop tz fuel' (nextDay tz d) end_ daySet
          (if decide (getDay tz d ∈ daySet) then out ++ [d] else out)
    end
  else Some out.

(** Loop turns that [expandOccurrences] can need: the local days from
    the one of [d] through the one of [end_]. *)
Definition expandFuel (tz : Zone) (d end_ : Date) : nat :=
  Z.to_nat (Day (localValue tz end_) - Day (localValue tz d) + 1).

Definition expandOccurrences (tz : Zone) (startDate endDate : option Date)
    (daySet : gset Z) : list Date :=
  match startDate, endDate with
  | Some sd, Some ed =>
      let d := dateOnly tz sd in
      let end_ := dateOnly tz ed in
      default [] (expandLoop tz (expandFuel tz d end_) d end_ daySet [])
  | _, _ => []
  end.

(** [combineDateTime(date, t)]; [t.sec || 0] is [t.sec]. *)
Definition combineDateTime (tz : Zone) (date : Date) (t : TimeOfDay) : Date :=
  newDate tz (getFullYear tz date) (getMonth tz date) (getDate tz date)
    (h t) (min t) (sec t).

(** ** Serialization *)

Definition LF : ascii := "010"%char.
Definition NL : string := String LF "".

(** [String(n)] for an integer. *)
Definition showZ (n : Z) : string := NilZero.string_of_int (Z.to_int n).

(** [String(n).padStart(2, "0")] *)
Definition pad (n : Z) : string :=
  let s := showZ n in
  if (String.length s <? 2)%nat then "0" +:+ s else s.

Definition icsDateTimeLocal (tz : Zone) (dt : Date) : string :=
  showZ (getFullYear tz dt) +:+ pad (getMonth tz dt + 1) +:+ pad (getDate tz dt)
  +:+ "T" +:+ pad (getHours tz dt) +:+ pad (getMinutes tz dt)
  +:+ pad (getSeconds tz dt).

Definition icsDateTimeUTC (dt : Date) : string :=
  showZ (getUTCFullYear dt) +:+ pad (getUTCMonth dt + 1) +:+ pad (getUTCDate dt)
  +:+ "T" +:+ pad (getUTCHours dt) +:+ pad (getUTCMinutes dt)
  +:+ pad (getUTCSeconds dt) +:+ "Z".

(** A global replacement of single characters: each character is
    replaced on its own, left to right. *)
Fixpoint replaceChars (f : ascii -> string) (s : string) : string :=
  match s with
  | "" => ""
  | String c s' => f c +:+ replaceChars f s'
  end.

(** [.replace(/\\/g, "\\\\")] *)
Definition escBackslash (c : ascii) : string :=
  if Ascii.eqb c "\" then "\\" else String c "".

(** [.replace(/\n/g, "\\n")] *)
Definition escNewline (c : ascii) : string :=
  if Ascii.eqb c LF then "\n" else String c "".

(** [.replace(/[,;]/g, (m) => `\\${m}`)] *)
Definition escSeparator (c : ascii) : string :=
  if Ascii.eqb c "," || Ascii.eqb c ";" then String "\" (String c "")
  else String c "".

Definition icsEscape (s : string) : string :=
  replaceChars escSeparator (replaceChars escNewline (replaceChars escBackslash s)).

(** The [while (i < L)] loop of [foldLines] on one over-long line. *)
Fixpoint foldChunks (fuel : nat) (i : nat) (ln : string) : option (list string) :=
  if (i <? String.length ln)%nat then
    match fuel with
    | O => None
    | S fuel' =>
        let chunk := Js.slice i (i + 75) ln in
        match foldChunks fuel' (i + 75) ln with
        | Some out => Some ((if (i =? 0)%nat then chunk else " " +:+ chunk) :: out)
        | None => None
        end
    end
  else Some [].

(** What [foldLines] pushes for one line of its input. *)
Definition foldLine (ln : string) : list string :=
  if (String.length ln <=? 75)%nat then [ln]
  else default [] (foldChunks (String.length ln) 0 ln).

Definition foldLines (text : string) : string :=
  Js.join NL (flat_map foldLine (Js.split LF text)).

Record Event : Type := mkEvent {
  summary : string;
  location : string;
  description : string;
  dtStart : Date;
  dtEnd : Date
}.

(** What the run takes from its host: the time zone, the engine's date
    parser, the current instant, and the successive values of
    [Math.random().toString(36).slice(2)]. *)
Record Host : Type := mkHost {
  zone : Zone;
  hostParse : string -> option Date;
  now : Date;
  random : nat -> string
}.

Definition eventBlock (host : Host) (i : nat) (ev : Event) : string :=
  let uid := random host i +:+ "@gisttools.local" in
  foldLines
    ("BEGIN:VEVENT" +:+ NL +:+
     "UID:" +:+ uid +:+ NL +:+
     "DTSTAMP:" +:+ icsDateTimeUTC (now host) +:+ NL +:+
     "DTSTART:" +:+ icsDateTimeLocal (zone host) (dtStart ev) +:+ NL +:+
     "DTEND:" +:+ icsDateTimeLocal (zone host) (dtEnd ev) +:+ NL +:+
     (if Js.truthy (summary ev)
      then "SUMMARY:" +:+ icsEscape (summary ev) +:+ NL else "") +:+
     (if Js.truthy (location ev)
      then "LOCATION:" +:+ icsEscape (location ev) +:+ NL else "") +:+
     (if Js.truthy (description ev)
      then "DESCRIPTION:" +:+ icsEscape (description ev) +:+ NL else "") +:+
     "END:VEVENT") +:+ NL.

Fixpoint eventBlocks (host : Host) (i : nat) (events : list Event) : string :=
  match events with
  | [] => ""
  | ev :: evs => eventBlock host i ev +:+ eventBlocks host (S i) evs
  end.

Definition icsHeader (calName tzHint : string) : string :=
  "BEGIN:VCALENDAR" +:+ NL +:+
  "VERSION:2.0" +:+ NL +:+
  "CALSCALE:GREGORIAN" +:+ NL +:+
  "PRODID:-//GistTools//Workday Excel to iCal//EN" +:+ NL +:+
  (if Js.truthy calName then "X-WR-CALNAME:" +:+ icsEscape calName +:+ NL else "") +:+
  (if Js.truthy tzHint then "X-WR-TIMEZONE:" +:+ icsEscape tzHint +:+ NL else "").

Definition buildICS (host : Host) (events : list Event) (calName tzHint : string)
  : string :=
  icsHeader calName tzHint +:+ eventBlocks host 0 events
  +:+ "END:VCALENDAR" +:+ NL.

(** [/[^a-z0-9-_]+/gi], [/-+/g] and [/^-|-$/g] *)
Definition isFileNameChar (c : ascii) : bool :=
  Js.isLower c || Js.isUpper c || Js.isDigit c || Ascii.eqb c "-" || Ascii.eqb c "_".

Definition sanitizeFileName (s : string) : string :=
  Js.toLowerCase
    (replaceGlobal (Or (Cat Bol (Lit "-")) (Cat (Lit "-") Eol)) (fun _ => "")
      (replaceGlobal (Plus (Lit "-")) (fun _ => "-")
        (replaceGlobal (Plus (Class (fun c => negb (isFileNameChar c))))
           (fun _ => "-") s))).

(** ** The conversion pass *)

Definition labelForKey (k : string) : string :=
  let map : gmap string string :=
    list_to_map
      [ ("titleField", "Title field"); ("courseField", "Course");
        ("componentField", "Component"); ("sectionField", "Section");
        ("startDateField", "Start date"); ("endDateField", "End date");
        ("startTimeField", "Start time"); ("endTimeField", "End time");
        ("daysField", "Days pattern"); ("locationField", "Location");
        ("descField", "Description") ] in
  match map !! k with
  | Some l => if Js.truthy l then l else k
  | None => k
  end.

(** [GetSubstitution] for a string pattern, which has no captures:
    [$$], [$&], [$`] and [$'] are expanded, any other [$] is literal. *)
Fixpoint GetSubstitution (matched before after template : string) : string :=
  match template with
  | "" => ""
  | String c t =>
      if Ascii.eqb c "$" then
        match t with
        | String c2 t2 =>
            if Ascii.eqb c2 "$" then String "$" (GetSubstitution matched before after t2)
            else if Ascii.eqb c2 "&" then matched +:+ GetSubstitution matched before after t2
            else if Ascii.eqb c2 "`" then before +:+ GetSubstitution matched before after t2
            else if Ascii.eqb c2 "'" then after +:+ GetSubstitution matched before after t2
            else String c (GetSubstitution matched before after t)
        | "" => String c ""
        end
      else String c (GetSubstitution matched before after t)
  end.

(** [whole.replaceAll(pat, repl)] for a non-empty string [pat]: the
    scan is at position [pos] of [whole], with [s] still to read and
    [skip] characters of the last match still to pass over. *)
Fixpoint replaceAllFrom (pat repl whole : string) (skip pos : nat) (s : string)
  : string :=
  match s with
  | "" => ""
  | String c s' =>
      match skip with
      | S k => replaceAllFrom pat repl whole k (S pos) s'
      | O =>
          if Js.startsWith pat s
          then GetSubstitution pat (Js.take pos whole)
                 (Js.drop (pos + String.length pat) whole) repl
               +:+ replaceAllFrom pat repl whole (String.length pat - 1) (S pos) s'
          else String c (replaceAllFrom pat repl whole 0 (S pos) s')
      end
  end.

Definition replaceAll (pat repl s : string) : string :=
  replaceAllFrom pat repl s 0 0 s.

(** [row[mapped.k]]: an unset mapping is the property name
    ["undefined"]. *)
Definition cell (row : gmap string string) (col : option string) : option string :=
  row !! default "undefined" col.

(** [String(v ?? "").trim()] *)
Definition cellText (v : option string) : string := Js.trim (default "" v).

(** Truthiness of [mapped[k]]. *)
Definition isMapped (col : option string) : bool :=
  match col with Some c => Js.truthy c | None => false end.

Definition buildSummary (mapped row : gmap string string) (titleTemplate : string)
  : string :=
  let summary :=
    if isMapped (mapped !! "titleField")
    then cellText (cell row (mapped !! "titleField"))
    else
      Js.trim (collapseSpaces
        (replaceAll "{Section}" (cellText (cell row (mapped !! "sectionField")))
          (replaceAll "{Component}" (cellText (cell row (mapped !! "componentField")))
            (replaceAll "{Course}" (cellText (cell row (mapped !! "courseField")))
               titleTemplate)))) in
  if Js.truthy summary then summary else "Class".

Definition parseFailure : string := "Could not parse one of date, time, or days".

(** The body of the per-row [try]: the thrown message or the events
    the row pushes. *)
Definition processRow (host : Host) (mapped : gmap string string)
    (titleTemplate : string) (row : gmap string string) : string + list Event :=
  let startDate := parseDate (zone host) (hostParse host) (cell row (mapped !! "startDateField")) in
  let endDate := parseDate (zone host) (hostParse host) (cell row (mapped !! "endDateField")) in
  let startTime := parseTime (cell row (mapped !! "startTimeField")) in
  let endTime := parseTime (cell row (mapped !! "endTimeField")) in
  let days := parseDays (cell row (mapped !! "daysField")) in
  match startDate, endDate, startTime, endTime with
  | Some sd, Some ed, Some st, Some et =>
      if decide (size days = 0%nat) then inl parseFailure else
      let summary := buildSummary mapped row titleTemplate in
      let location :=
        if isMapped (mapped !! "locationField")
        then cellText (cell row (mapped !! "locationField")) else "" in
      let description :=
        if isMapped (mapped !! "descField")
        then cellText (cell row (mapped !! "descField")) else "" in
      let occurrences := expandOccurrences (zone host) (Some sd) (Some ed) days in
      inr (map (fun d => mkEvent summary location description
                           (combineDateTime (zone host) d st)
                           (combineDateTime (zone host) d et))
               occurrences)
  | _, _, _, _ => inl parseFailure
  end.

Record RowError : Type := mkRowError { idx : Z; error : string }.

(** One turn of [rows.forEach((row, idx) => ...)] on the two
    accumulators [events] and [errors]. *)
Definition rowStep (host : Host) (mapped : gmap string string)
    (titleTemplate : string) (acc : list Event * list RowError)
    (ir : nat * gmap string string) : list Event * list RowError :=
  match processRow host mapped titleTemplate (snd ir) with
  | inr evs => (fst acc ++ evs, snd acc)
  | inl msg => (fst acc, snd acc ++ [mkRowError (Z.of_nat (fst ir) + 1) msg])
  end.

Definition processRows (host : Host) (mapped : gmap string string)
    (titleTemplate : string) (rows : list (gmap string string))
  : list Event * list RowError :=
  foldl (rowStep host mapped titleTemplate) ([], [])
        (zip (seq 0 (length rows)) rows).

Definition req : list string :=
  ["startDateField"; "endDateField"; "startTimeField"; "endTimeField"; "daysField"].

(** The first required key without a mapping, if any. *)
Fixpoint firstMissing (mapped : gmap string string) (keys : list string)
  : option string :=
  match keys with
  | [] => None
  | k :: ks => if isMapped (mapped !! k) then firstMissing mapped ks else Some k
  end.

(** What a run leaves behind: the message given to [setError], or the
    downloaded document with its file name, the message given to
    [setInfo] and the row errors. *)
Inductive Outcome : Type :=
| Failed (message : string)
| Generated (ics fileName info : string) (rowErrors : list RowError).

Definition handleGenerate (host : Host) (mapped : gmap string string)
    (rows : list (gmap string string))
    (titleTemplate calendarName timezone : string) : Outcome :=
  match firstMissing mapped req with
  | Some k => Failed ("Missing required mapping: " +:+ labelForKey k)
  | None =>
      let '(events, errors) := processRows host mapped titleTemplate rows in
      match events with
      | [] => Failed "No events generated. Check mappings and data."
      | _ =>
          let ics := buildICS host events calendarName timezone in
          Generated ics
            (sanitizeFileName (if Js.truthy calendarName then calendarName else "schedule")
             +:+ ".ics")
            ("Generated " +:+ showZ (Z.of_nat (length events)) +:+ " events. " +:+
             (match errors with
              | [] => "All rows parsed."
              | _ => "Rows with issues: " +:+ showZ (Z.of_nat (length errors))
              end))
            errors
      end
  end.

(** ** Definitions that follow the specification's words

    These are not taken from the source: they are what the
    specification compares the code with. *)

(** The TimeOfDay ranges of the data model. *)
Definition inTimeOfDayRange (t : TimeOfDay) : Prop :=
  0 <= h t <= 23 /\ 0 <= min t <= 59 /\ 0 <= sec t <= 59.

Inductive Meridiem : Type := AM | PM.

(** The 12-hour correction: AM maps hour 12 to 0, PM adds 12 to an
    hour below 12, no meridiem leaves the hour as written. *)
Definition applyMeridiem (mer : option Meridiem) (hour : Z) : Z :=
  match mer with
  | Some AM => if hour =? 12 then 0 else hour
  | Some PM => if hour <? 12 then hour + 12 else hour
  | None => hour
  end.

(** The inverse of the escaping rule: a backslash and the character
    after it stand for that character, or for a newline when it is
    [n]. *)
Fixpoint icsUnescape (s : string) : string :=
  match s with
  | "" => ""
  | String c s' =>
      if Ascii.eqb c "\" then
        match s' with
        | String c2 s2 =>
            String (if Ascii.eqb c2 "n" then LF else c2) (icsUnescape s2)
        | "" => String c ""
        end
      else String c (icsUnescape s')
  end.

(** Stripping exactly one leading space from a continuation line. *)
Definition stripOneSpace (l : string) : string :=
  match l with
  | String c l' => if Ascii.eqb c " " then l' else l
  | "" => ""
  end.

Fixpoint concatStrings (ls : list string) : string :=
  match ls with
  | [] => ""
  | l :: ls' => l +:+ concatStrings ls'
  end.

(** Re-joining physical lines: the first as it is, every continuation
    line without its leading space. *)
Definition rejoin (physical : list string) : string :=
  match physical with
  | [] => ""
  | first :: continuation => first +:+ concatStrings (map stripOneSpace continuation)
  end.

(** The line-length limit of the wire format. *)
Definition lineLimit : nat := 75.

(** The three title tokens substituted independently, in one pass over
    the template: text put in for a token is not looked at again. *)
Fixpoint substituteIndependently (course component section : string)
    (skip : nat) (t : string) : string :=
  match t with
  | "" => ""
  | String c t' =>
      match skip with
      | S k => substituteIndependently course component section k t'
      | O =>
          if Js.startsWith "{Course}" t
          then course +:+ substituteIndependently course component section 7 t'
          else if Js.startsWith "{Component}" t
          then component +:+ substituteIndependently course component section 10 t'
          else if Js.startsWith "{Section}" t
          then section +:+ substituteIndependently course component section 8 t'
          else String c (substituteIndependently course component section 0 t')
      end
  end.

(** Title resolution as the specification words it. *)
Definition titleAsSpecified (mapped row : gmap string string) (titleTemplate : string)
  : string :=
  let title :=
    if isMapped (mapped !! "titleField")
    then cellText (cell row (mapped !! "titleField"))
    else Js.trim (collapseSpaces
           (substituteIndependently
              (cellText (cell row (mapped !! "courseField")))
              (cellText (cell row (mapped !! "componentField")))
              (cellText (cell row (mapped !! "sectionField")))
              0 titleTemplate)) in
  if Js.truthy title then title else "Class".

(** Every occurrence of [tok] replaced by the text [v] as it is, left
    to right, over the whole of [s]. *)
Fixpoint substituteToken (tok v : string) (skip : nat) (s : string) : string :=
  match s with
  | "" => ""
  | String c s' =>
      match skip with
      | S k => substituteToken tok v k s'
      | O =>
          if Js.startsWith tok s
          then v +:+ substituteToken tok v (String.length tok - 1) s'
          else String c (substituteToken tok v 0 s')
      end
  end.

(** Title resolution with the tokens substituted one after the other. *)
Definition titleInSequence (mapped row : gmap string string) (titleTemplate : string)
  : string :=
  let title :=
    if isMapped (mapped !! "titleField")
    then cellText (cell row (mapped !! "titleField"))
    else
      let t1 := substituteToken "{Course}"
                  (cellText (cell row (mapped !! "courseField"))) 0 titleTemplate in
      let t2 := substituteToken "{Component}"
                  (cellText (cell row (mapped !! "componentField"))) 0 t1 in
      let t3 := substituteToken "{Section}"
                  (cellText (cell row (mapped !! "sectionField"))) 0 t2 in
      Js.trim (collapseSpaces t3) in
  if Js.truthy title then title else "Class".

(** A row fails when a date, a time or the days pattern does not
    parse, or when its weekday set is empty. *)
Definition rowFails (host : Host) (mapped row : gmap string string) : Prop :=
  parseDate (zone host) (hostParse host) (cell row (mapped !! "startDateField")) = None
  \/ parseDate (zone host) (hostParse host) (cell row (mapped !! "endDateField")) = None
  \/ parseTime (cell row (mapped !! "startTimeField")) = None
  \/ parseTime (cell row (mapped !! "endTimeField")) = None
  \/ parseDays (cell row (mapped !! "daysField")) = ∅.

(** The occurrences a row contributes: none when its [try] throws. *)
Definition rowEvents (host : Host) (mapped : gmap string string)
    (titleTemplate : string) (row : gmap string string) : list Event :=
  match processRow host mapped titleTemplate row with
  | inr evs => evs
  | inl _ => []
  end.

(** The side list: one entry, with the 1-based position, per row whose
    [try] throws; [i] is the 0-based position of the first row. *)
Fixpoint rowFailures (host : Host) (mapped : gmap string string)
    (titleTemplate : string) (i : nat) (rows : list (gmap string string))
  : list RowError :=
  match rows with
  | [] => []
  | row :: rows' =>
      match processRow host mapped titleTemplate row with
      | inl msg => mkRowError (Z.of_nat i + 1) msg
                   :: rowFailures host mapped titleTemplate (S i) rows'
      | inr _ => rowFailures host mapped titleTemplate (S i) rows'
      end
  end.

(** The [Date] that the host builds for the local time value [L]. *)
Definition atLocal (tz : Zone) (L : Z) : Date := mkDate (UTC tz L).

(** The number of the local calendar day of a [Date]. *)
Definition localDay (tz : Zone) (d : Date) : Z := Day (localValue tz d).

(** The local calendar days from number [a] through number [b], each
    at the local time 00:00:00. *)
Definition daysBetween (tz : Zone) (a b : Z) : list Date :=
  (fun k => atLocal tz (k * 86400)) <$> seqZ a (b - a + 1).

(** The local time value [L] exists in the zone: the [Date] built for
    it reads [L] again.  It fails for the local times that a forward
    change of the offset skips. *)
Definition keepsLocal (tz : Zone) (L : Z) : Prop := LocalTime tz (UTC tz L) = L.

(** No local midnight is skipped, and a later midnight is a later
    instant. *)
Definition regularMidnights (tz : Zone) : Prop :=
  (forall n, keepsLocal tz (n * 86400))
  /\ (forall n m, n < m -> UTC tz (n * 86400) < UTC tz (m * 86400)).

(** A zone whose offset never changes. *)
Definition fixedOffset (tz : Zone) (c : Z) : Prop :=
  forall t b, LocalTZA tz t b = c.


(** What the groups of a time pattern can hold. *)
Definition timeCapsOk (m : gmap nat string) : Prop :=
  0 <= Js.Number (default "" (m !! 1%nat)) <= 99
  /\ 0 <= numberOr0 (m !! 2%nat) <= 99
  /\ 0 <= numberOr0 (m !! 3%nat) <= 99.

(** The physical lines of a document. *)
Definition physicalLines (doc : string) : list string := Js.split LF doc.

(** The text made of [n] copies of [c]. *)
Fixpoint repeatChar (n : nat) (c : ascii) : string :=
  match n with
  | O => ""
  | S n' => String c (repeatChar n' c)
  end.

(** What the three passes of [icsEscape] make of one character. *)
Definition escChar (c : ascii) : string :=
  replaceChars escSeparator (replaceChars escNewline (escBackslash c)).

(** No [$] in a replacement text. *)
Definition dollarFree (v : string) : Prop := Js.includesChar "$" v = false.

(** ** Sample data of the scenarios *)

(** A host whose date parser accepts nothing, so that dates go through
    the 8-digit pattern. *)
Definition utc : Zone := mkZone (fun _ _ => 0).

(** Pacific time in 2025: eight hours behind UTC, seven from
    2025-03-09 02:00 to 2025-11-02 02:00 local time.  A local time that
    is skipped or repeated is read with the offset before the change. *)
Definition pacific2025 : Zone :=
  mkZone (fun t isUTC =>
    if isUTC
    then if (1741514400 <=? t) && (t <? 1762074000) then -25200 else -28800
    else if (1741489200 <=? t) && (t <? 1762048800) then -25200 else -28800).

Definition sampleHost : Host :=
  mkHost utc (fun _ => None) (mkDate 1735732800)
    (fun i => "uid" +:+ showZ (Z.of_nat i)).

Definition sampleMapping : gmap string string :=
  list_to_map
    [ ("startDateField", "Start Date"); ("endDateField", "End Date");
      ("startTimeField", "Start Time"); ("endTimeField", "End Time");
      ("daysField", "Days"); ("courseField", "Course");
      ("componentField", "Component"); ("sectionField", "Section") ].

(** The mapping of the fatal scenario: no end-time column. *)
Definition mappingWithoutEndTime : gmap string string :=
  delete "endTimeField" sampleMapping.

Definition sampleRow (days : string) : gmap string string :=
  list_to_map
    [ ("Start Date", "2025-01-06"); ("End Date", "2025-01-17");
      ("Start Time", "10:00 AM"); ("End Time", "10:50 AM");
      ("Days", days); ("Course", "CS 101"); ("Component", "LEC");
      ("Section", "001") ].

Definition defaultTemplate : string := "{Course} {Component} {Section}".

(** A row whose course column holds the text of another token. *)
Definition tokenInValueMapping : gmap string string :=
  list_to_map [ ("courseField", "Course"); ("sectionField", "Section") ].

Definition tokenInValueRow : gmap string string :=
  list_to_map [ ("Course", "{Section}"); ("Section", "001") ].

Definition sampleEvent (text : string) : Event :=
  mkEvent text "" "" (mkDate 1736157600) (mkDate 1736160600).

(** * Further functions of [src/App.jsx] *)

(** ** The matcher, continued *)

Module ReMore.

(** The loop that [run] makes for [Star r], with the matcher of [r] as
    [runr]: [run (Star r) st k] is [starLoop (run r) k (remaining st) st]. *)
Fixpoint starLoop (runr : mstate -> (mstate -> option mstate) -> option mstate)
    (k : mstate -> option mstate) (n : nat) (st : mstate) : option mstate :=
  match n with
  | O => k st
  | S n' =>
      match runr st (fun st1 => if progress st st1 then starLoop runr k n' st1 else None) with
      | Some res => Some res
      | None => k st
      end
  end.

(** [AtOrAfter p s p' s']: the position with [p'] before it and [s']
    after it is the position ([p], [s]) or a later one of the same
    text. *)
Inductive AtOrAfter : option ascii -> string -> option ascii -> string -> Prop :=
| Here p s : AtOrAfter p s p s
| Later p c s p' s' : AtOrAfter (Some c) s p' s' -> AtOrAfter p (String c s) p' s'.

(** [everyChar p s]: all characters of [s] are in the class [p]. *)
Fixpoint everyChar (p : ascii -> bool) (s : string) : bool :=
  match s with
  | "" => true
  | String c s' => p c && everyChar p s'
  end.

(** The character before the position reached after reading [s]. *)
Fixpoint lastOf (pr : option ascii) (s : string) : option ascii :=
  match s with
  | "" => pr
  | String c s' => lastOf (Some c) s'
  end.

(** The next character of [s] is in the class [q]. *)
Definition nextIs (q : ascii -> bool) (s : string) : bool :=
  match s with
  | "" => false
  | String c _ => q c
  end.

(** [First r st st']: the way of matching [r] at [st] that the matcher
    tries first ends in [st'], so that the matcher takes it whenever
    the continuation accepts [st']. *)
Definition First (r : regex) (st st' : mstate) : Prop :=
  forall k res, k st' = Some res -> run r st k = Some res.

(** [r] matches in no way at [st]. *)
Definition Fails (r : regex) (st : mstate) : Prop :=
  forall k, run r st k = None.

End ReMore.

Import ReMore.

(** ** Reading delimited text: [parseCSV] *)

Module Csv.

Definition DQ : ascii := "034"%char.
Definition CR : ascii := "013"%char.

(** The variables of [parseCSV]. *)
Record state : Type := mkState {
  rows : list (list string);
  cur : list string;
  field : string;
  inQuotes : bool
}.

Definition init : state := mkState [] [] "" false.

Definition pushField (st : state) : state :=
  mkState (rows st) (cur st ++ [field st]) "" (inQuotes st).

Definition pushRow (st : state) : state :=
  mkState (rows st ++ [cur st]) [] (field st) (inQuotes st).

(** [field += ch] *)
Definition addChar (ch : ascii) (st : state) : state :=
  mkState (rows st) (cur st) (field st +:+ String ch "") (inQuotes st).

Definition setQuotes (b : bool) (st : state) : state :=
  mkState (rows st) (cur st) (field st) b.

(** The [while (i < text.length)] loop, on the text from position [i]
    on.  [skip] is the pending [i++] after a doubled quote: the next
    character is passed over. *)
Fixpoint scan (skip : bool) (text : string) (st : state) : state :=
  match text with
  | "" => st
  | String ch text' =>
      if skip then scan false text' st else
      if inQuotes st then
        if Ascii.eqb ch DQ then
          match text' with
          | String ch2 _ =>
              if Ascii.eqb ch2 DQ then scan true text' (addChar DQ st)
              else scan false text' (setQuotes false st)
          | "" => scan false text' (setQuotes false st)
          end
        else scan false text' (addChar ch st)
      else
        if Ascii.eqb ch DQ then scan false text' (setQuotes true st)
        else if Ascii.eqb ch "," then scan false text' (pushField st)
        else if Ascii.eqb ch LF then scan false text' (pushRow (pushField st))
        else if Ascii.eqb ch CR then scan false text' st
        else scan false text' (addChar ch st)
  end.

(** The two statements after the loop: the last field is pushed, and
    the last row if it holds a field. *)
Definition finish (st : state) : list (list string) :=
  let st := pushField st in
  let st := match cur st with [] => st | _ => pushRow st end in
  rows st.

(** The rows when the loop and the two closing statements are done. *)
Definition parseRows (text : string) : list (list string) :=
  finish (scan false text init).

(** [r.length && r.some(x => String(x).trim() !== "")] *)
Definition isDataRow (r : list string) : bool :=
  negb (Nat.eqb (length r) 0)
  && existsb (fun x => negb (String.eqb (Js.trim x) "")) r.

(** [Object.fromEntries(entries)]: a later entry replaces an earlier
    one with the same key. *)
Definition fromEntries (entries : list (string * string)) : gmap string string :=
  foldl (fun m e => <[fst e := snd e]> m) ∅ entries.

(** [Object.fromEntries(hdrs.map((h, idx) => [h, r[idx] ?? ""]))] *)
Definition toRecord (hdrs r : list string) : gmap string string :=
  fromEntries (imap (fun idx h => (h, default "" (r !! idx))) hdrs).

Record result : Type := mkResult {
  data : list (gmap string string);
  hdrs : list string
}.

Definition parseCSV (text : string) : result :=
  let rows := parseRows text in
  let hdrs := match rows with [] => [] | r :: _ => r end in
  let rest := match rows with [] => [] | _ :: rs => rs end in
  mkResult (map (toRecord hdrs) (filter (fun r => isDataRow r = true) rest)) hdrs.

(** A table written out with every field in quotes, the quotes inside a
    field doubled, fields joined by commas and rows by newlines. *)
Definition doubleQuotes (f : string) : string :=
  replaceChars (fun c => if Ascii.eqb c DQ then String DQ (String DQ "") else String c "") f.

Definition encodeField (f : string) : string :=
  String DQ (doubleQuotes f +:+ String DQ "").

Definition encodeRow (r : list string) : string :=
  Js.join "," (map encodeField r).

Definition encodeTable (t : list (list string)) : string :=
  Js.join NL (map encodeRow t).

End Csv.

(** ** Guessing the field mapping: [guessInitialMapping] *)

Module Guess.

(** [x.includes(c)] *)
Fixpoint includes (needle s : string) : bool :=
  Js.startsWith needle s
  || match s with
     | "" => false
     | String _ s' => includes needle s'
     end.

(** [h.findIndex(p)], [None] for -1. *)
Fixpoint findIndex (p : string -> bool) (l : list string) : option nat :=
  match l with
  | [] => None
  | x :: l' => if p x then Some 0%nat else S <$> findIndex p l'
  end.

(** [pick(...candidates)], with [lowered] the lower-cased headers.  The
    index found is one of [headers], which is as long as [lowered]. *)
Fixpoint pick (headers lowered candidates : list string) : string :=
  match candidates with
  | [] => ""
  | c :: cs =>
      match findIndex (includes c) lowered with
      | Some i => default "" (headers !! i)
      | None => pick headers lowered cs
      end
  end.

(** The candidates of each role, in the order of the source. *)
Definition candidates : list (string * list string) :=
  [ ("daysField", ["days"; "meeting pattern"; "meets"; "days of week"]);
    ("startDateField", ["start date"; "from date"; "first day"]);
    ("endDateField", ["end date"; "to date"; "last day"]);
    ("startTimeField", ["start time"; "time start"; "from time"; "begin time"]);
    ("endTimeField", ["end time"; "time end"; "to time"; "finish time"]);
    ("locationField", ["location"; "room"; "building"]);
    ("titleField", ["title"]);
    ("courseField", ["course"; "subject"]);
    ("sectionField", ["section"]);
    ("componentField", ["component"; "type"]) ].

Definition guessInitialMapping (headers : list string) : gmap string string :=
  let lowered := map Js.toLowerCase headers in
  list_to_map (map (fun kc => (fst kc, pick headers lowered (snd kc))) candidates).

(** [setMapped((m) => ({ ...m, ...guessMap }))]: the guesses replace
    what was mapped. *)
Definition applyGuess (m guessMap : gmap string string) : gmap string string :=
  guessMap ∪ m.

(** Some header contains one of the candidates, case ignored. *)
Definition someHeaderHas (headers cands : list string) : Prop :=
  exists c x, In c cands /\ In x headers /\ includes c (Js.toLowerCase x) = true.

End Guess.

(** ** Definitions for the properties of these functions *)

(** The characters that [sanitizeFileName] lets through. *)
Definition isSafeFileChar (c : ascii) : bool :=
  Js.isLower c || Js.isDigit c || Ascii.eqb c "-" || Ascii.eqb c "_".

(** A text of white space only. *)
Definition isBlank (s : string) : bool := everyChar Js.isWhiteSpace s.

(** A cell that is absent, empty or white space only. *)
Definition blankCell (val : option string) : Prop :=
  match val with
  | None => True
  | Some v => isBlank v = true
  end.

(** The check of one day, [doe], of a 400-year era: the year of the
    era, the day of the year, the shifted month and the day of the month
    that [Cal.civilFromDays] computes are in their ranges. *)
Definition eraDayOk (doe : Z) : bool :=
  let yoe := (doe - doe / 1460 + doe / 36524 - doe / 146096) / 365 in
  let doy := doe - (365 * yoe + yoe / 4 - yoe / 100) in
  let mp := (5 * doy + 2) / 153 in
  let d := doy - (153 * mp + 2) / 5 + 1 in
  (0 <=? yoe) && (yoe <=? 399) && (0 <=? doy) && (doy <=? 365)
  && (0 <=? mp) && (mp <=? 11) && (1 <=? d) && (d <=? 31).

(** The text that the parsers of times and weekday patterns work on:
    the cell trimmed and in upper case. *)
Definition normalized (v : string) : string := Js.toUpperCase (Js.trim v).

(** Seconds from midnight of a time of day. *)
Definition secondsOf (t : TimeOfDay) : Z := h t * 3600 + min t * 60 + sec t.

(** A test run over the integers from 0 up to, not including, [n]. *)
Definition checkStep (f : Z -> bool) (acc : Z * bool) : Z * bool :=
  (fst acc + 1, snd acc && f (fst acc)).

Definition checkRange (f : Z -> bool) (n : positive) : bool :=
  snd (Pos.iter (checkStep f) (0, true) n).

(** A date text: four digits of year, two of month, two of day, with
    the separators [s1] and [s2]. *)
Definition dateText (y1 y2 y3 y4 m1 m2 d1 d2 : ascii) (s1 s2 : string) : string :=
  String y1 (String y2 (String y3 (String y4
    (s1 +:+ String m1 (String m2 (s2 +:+ String d1 (String d2 ""))))))).

(** A text of exactly [n] decimal digits. *)
Definition isDigits (n : nat) (s : string) : bool :=
  Nat.eqb (String.length s) n && everyChar Js.isDigit s.

(** A written time, as the time parser sees it after trimming and
    upper-casing: the hour digits [H], the minute digits and the second
    digits if they are written, each after a colon, the white space [sp],
    and the meridiem if there is one. *)
Definition fieldText (f : option string) : string :=
  match f with Some d => ":" +:+ d | None => "" end.

Definition meridiemText (mer : option Meridiem) : string :=
  match mer with Some AM => "AM" | Some PM => "PM" | None => "" end.

Definition writtenTime (H : string) (M S : option string) (sp : string)
    (mer : option Meridiem) : string :=
  H +:+ (fieldText M +:+ (fieldText S +:+ (sp +:+ meridiemText mer))).

(** The number that a written field stands for: 0 when it is not
    written. *)
Definition fieldNumber (f : option string) : Z :=
  match f with Some d => Js.Number d | None => 0 end.

(** The fields of a written time are well formed: one or two hour
    digits, two digits for the minute and for the second, seconds only
    after minutes, and white space before the meridiem. *)
Definition wellWritten (H : string) (M S : option string) (sp : string) : Prop :=
  (isDigits 1 H = true \/ isDigits 2 H = true)
  /\ (forall m, M = Some m -> isDigits 2 m = true)
  /\ (forall s, S = Some s -> isDigits 2 s = true /\ M <> None)
  /\ isBlank sp = true.

(** The shape of a date-time text: fifteen characters, eight
    digits, the letter T, six digits. *)
Definition dateTimeShape (s : string) : Prop :=
  String.length s = 15%nat
  /\ isDigits 8 (Js.slice 0 8 s) = true
  /\ Js.slice 8 9 s = "T"
  /\ isDigits 6 (Js.slice 9 15 s) = true.

(** A text without a newline. *)
Definition noNewline (s : string) : bool := negb (Js.includesChar LF s).

(** The characters that the escaping rewrites. *)
Definition isEscaped (c : ascii) : bool :=
  Ascii.eqb c "\" || Ascii.eqb c LF || Ascii.eqb c "," || Ascii.eqb c ";".

(** A row whose end date is before its start date. *)
Definition backwardsRow : gmap string string :=
  <["Start Date" := "2025-01-17"]> (<["End Date" := "2025-01-06"]> (sampleRow "MWF")).

(** The text does not go on with a quote. *)
Definition notQuoteStart (s : string) : bool :=
  match s with
  | "" => true
  | String c _ => negb (Ascii.eqb c Csv.DQ)
  end.

(** A text without carriage returns: each one taken out. *)
Definition removeCR (s : string) : string :=
  replaceChars (fun c => if Ascii.eqb c Csv.CR then "" else String c "") s.

(** ** The lines of the calendar document *)

(** The header lines: the four fixed ones, then the calendar name and
    the time zone hint when they are given. *)
Definition headerLines (calName tzHint : string) : list string :=
  [ "BEGIN:VCALENDAR"; "VERSION:2.0"; "CALSCALE:GREGORIAN";
    "PRODID:-//GistTools//Workday Excel to iCal//EN" ]
  ++ (if Js.truthy calName then ["X-WR-CALNAME:" +:+ icsEscape calName] else [])
  ++ (if Js.truthy tzHint then ["X-WR-TIMEZONE:" +:+ icsEscape tzHint] else []).

(** The lines of one event before folding: the text fields only when
    they are not empty. *)
Definition eventLogicalLines (host : Host) (i : nat) (ev : Event) : list string :=
  [ "BEGIN:VEVENT";
    "UID:" +:+ random host i +:+ "@gisttools.local";
    "DTSTAMP:" +:+ icsDateTimeUTC (now host);
    "DTSTART:" +:+ icsDateTimeLocal (zone host) (dtStart ev);
    "DTEND:" +:+ icsDateTimeLocal (zone host) (dtEnd ev) ]
  ++ (if Js.truthy (summary ev) then ["SUMMARY:" +:+ icsEscape (summary ev)] else [])
  ++ (if Js.truthy (location ev) then ["LOCATION:" +:+ icsEscape (location ev)] else [])
  ++ (if Js.truthy (description ev)
      then ["DESCRIPTION:" +:+ icsEscape (description ev)] else [])
  ++ ["END:VEVENT"].

(** The folded lines of the events, the [i]-th random value going to
    the first of them. *)
Fixpoint eventsLines (host : Host) (i : nat) (events : list Event) : list string :=
  match events with
  | [] => []
  | ev :: evs =>
      flat_map foldLine (eventLogicalLines host i ev) ++ eventsLines host (S i) evs
  end.

(** Case analysis on the eight bits of a character. *)
Ltac ascii_cases c :=
  destruct c as [[ | ] [ | ] [ | ] [ | ] [ | ] [ | ] [ | ] [ | ]]; reflexivity.

(** * Properties *)

(** ** The matcher is sound for the relational reading *)

Module ReSem.

(** Whatever the matcher returns went through a state that the
    pattern derives from the start state. *)
Lemma run_sound (r : regex) :
  forall st k res,
    run r st k = Some res ->
    exists st', Matches r st st' /\ k st' = Some res.
Proof.
  induction r as [ | p | r1 IH1 r2 IH2 | r1 IH1 r2 IH2 | r1 IH1 | r1 IH1
                 | n r1 IH1 | | | ]; intros st k res Hrun; simpl in Hrun.
  - eauto with re.
  - destruct st as [pr s cs]; simpl in Hrun.
    destruct s as [ | c s']; [discriminate | ].
    destruct (p c) eqn:Hp; [ | discriminate].
    eauto with re.
  - apply IH1 in Hrun as (st1 & H1 & Hrun).
    apply IH2 in Hrun as (st2 & H2 & Hk).
    eauto with re.
  - destruct (run r1 st k) as [res1 | ] eqn:E1.
    + inversion Hrun; subst.
      apply IH1 in E1 as (st1 & H1 & Hk). eauto with re.
    + apply IH2 in Hrun as (st1 & H1 & Hk). eauto with re.
  - destruct (run r1 st _) as [res1 | ] eqn:E1.
    + inversion Hrun; subst.
      apply IH1 in E1 as (st1 & H1 & Hk).
      destruct (progress st st1) eqn:Hp; [ | discriminate].
      eauto with re.
    + eauto with re.
  - revert Hrun. generalize (remaining st) as n. revert st.
    intros st n; revert st.
    induction n as [ | n IHn]; intros st Hrun.
    + eauto with re.
    + destruct (run r1 st _) as [res1 | ] eqn:E1.
      * inversion Hrun; subst.
        apply IH1 in E1 as (st1 & H1 & Hk).
        destruct (progress st st1) eqn:Hp; [ | discriminate].
        apply IHn in Hk as (st2 & H2 & Hk).
        eauto with re.
      * eauto with re.
  - apply IH1 in Hrun as (st1 & H1 & Hk). eauto with re.
  - destruct (xorb _ _) eqn:Hx; [ | discriminate]. eauto with re.
  - destruct (prev st) eqn:Hp; [discriminate | ]. eauto with re.
  - destruct (rest st) eqn:Hr; [ | discriminate]. eauto with re.
Qed.

Lemma matchAt_sound r p s st :
  matchAt r p s = Some st -> Matches r (MState p s ∅) st.
Proof.
  intros H. apply run_sound in H as (st' & HM & Hk).
  inversion Hk; subst. exact HM.
Qed.

Lemma searchFrom_sound r :
  forall s p before b m st,
    searchFrom r p before s = Some (b, m, st) ->
    exists p' s', Matches r (MState p' s' ∅) st.
Proof.
  induction s as [ | c s IH]; intros p before b m st H; simpl in H.
  - destruct (matchAt r p "") as [st0 | ] eqn:E; [ | discriminate].
    inversion H; subst. eauto using matchAt_sound.
  - destruct (matchAt r p (String c s)) as [st0 | ] eqn:E.
    + inversion H; subst. eauto using matchAt_sound.
    + eauto.
Qed.

Lemma exec_sound r s m :
  exec r s = Some m ->
  exists p' s' st, Matches r (MState p' s' ∅) st /\ caps st = m.
Proof.
  unfold exec. intros H.
  destruct (searchFrom r None "" s) as [[[b mt] st] | ] eqn:E; [ | discriminate].
  inversion H; subst.
  apply searchFrom_sound in E as (p' & s' & HM). eauto.
Qed.

(** Inversion principles, one per constructor of [regex]. *)
Lemma inv_Empty st st' : Matches Empty st st' -> st' = st.
Proof. inversion 1; reflexivity. Qed.

Lemma inv_Class p st st' :
  Matches (Class p) st st' ->
  exists c, p c = true /\ rest st = String c (rest st')
            /\ prev st' = Some c /\ caps st' = caps st.
Proof. inversion 1; subst; simpl; eauto. Qed.

Lemma inv_Cat r1 r2 st st2 :
  Matches (Cat r1 r2) st st2 ->
  exists st1, Matches r1 st st1 /\ Matches r2 st1 st2.
Proof. inversion 1; subst; eauto. Qed.

Lemma inv_Or r1 r2 st st' :
  Matches (Or r1 r2) st st' -> Matches r1 st st' \/ Matches r2 st st'.
Proof. inversion 1; subst; eauto. Qed.

Lemma inv_Opt r st st' :
  Matches (Opt r) st st' -> st' = st \/ Matches r st st'.
Proof. inversion 1; subst; eauto. Qed.

Lemma inv_Group n r st st' :
  Matches (Group n r) st st' ->
  exists st1, Matches r st st1 /\ st' = setCap n (consumed st st1) st1.
Proof. inversion 1; subst; eauto. Qed.

Lemma inv_Bol st st' : Matches Bol st st' -> st' = st /\ prev st = None.
Proof. inversion 1; subst; eauto. Qed.

Lemma inv_Eol st st' : Matches Eol st st' -> st' = st /\ rest st = "".
Proof. inversion 1; subst; eauto. Qed.

(** A class, a literal and a starred class set no capture. *)
Lemma star_class_caps p st st' :
  Matches (Star (Class p)) st st' -> caps st' = caps st.
Proof.
  intros H. remember (Star (Class p)) as r eqn:Hr.
  induction H; try discriminate; [reflexivity | ].
  inversion Hr; subst. rewrite IHMatches2 by reflexivity.
  apply inv_Class in H as (c & _ & _ & _ & Hc). exact Hc.
Qed.

Lemma lit_caps s : forall st st', Matches (Lit s) st st' -> caps st' = caps st.
Proof.
  induction s as [ | c s IH]; intros st st' H; simpl in H.
  - apply inv_Empty in H. subst. reflexivity.
  - apply inv_Cat in H as (st1 & H1 & H2).
    apply IH in H2. apply inv_Class in H1 as (c' & _ & _ & _ & Hc).
    congruence.
Qed.

(** A match never gives input back. *)
Lemma Matches_remaining r st st' :
  Matches r st st' -> (remaining st' <= remaining st)%nat.
Proof.
  induction 1; unfold remaining in *; simpl in *; lia.
Qed.

Lemma matchAt_remaining r p s st :
  matchAt r p s = Some st -> (remaining st <= String.length s)%nat.
Proof. intros H. apply matchAt_sound, Matches_remaining in H. exact H. Qed.

(** The global replacement stops because the text is used up, not
    because the fuel is: more fuel than characters changes nothing. *)
Lemma replaceGlobalFrom_fuel r f :
  forall (fuel fuel' : nat) (p : option ascii) (s : string),
    (String.length s < fuel)%nat -> (String.length s < fuel')%nat ->
    replaceGlobalFrom fuel r f p s = replaceGlobalFrom fuel' r f p s.
Proof.
  induction fuel as [ | fuel IH]; intros fuel' p s Hf Hf'; [lia | ].
  destruct fuel' as [ | fuel']; [lia | ].
  cbn [replaceGlobalFrom].
  destruct (matchAt r p s) as [st | ] eqn:EM.
  - pose proof (matchAt_remaining _ _ _ _ EM) as Hrem.
    destruct (String.length s - remaining st)%nat as [ | n] eqn:En.
    + destruct s as [ | c s]; [reflexivity | ].
      simpl in Hf, Hf'. f_equal. apply IH; lia.
    + f_equal. unfold remaining in *. apply IH; lia.
  - destruct s as [ | c s]; [reflexivity | ].
    simpl in Hf, Hf'. f_equal. apply IH; lia.
Qed.

End ReSem.

Import ReSem.

(** ** What the time patterns capture *)

Section TimeCaptures.

Lemma take_one c s :
  Js.take (S (String.length s) - String.length s) (String c s) = String c "".
Proof.
  replace (S (String.length s) - String.length s)%nat with 1%nat by lia.
  reflexivity.
Qed.

Lemma take_two c1 c2 s :
  Js.take (S (S (String.length s)) - String.length s)
          (String c1 (String c2 s)) = String c1 (String c2 "").
Proof.
  replace (S (S (String.length s)) - String.length s)%nat with 2%nat by lia.
  reflexivity.
Qed.

Lemma digitValue_bounds c : Js.isDigit c = true -> 0 <= Js.digitValue c <= 9.
Proof.
  unfold Js.isDigit, Js.inRange, Js.digitValue.
  rewrite andb_true_iff, !N.leb_le. lia.
Qed.

Lemma Number_one c : Js.isDigit c = true -> 0 <= Js.Number (String c "") <= 9.
Proof. intros H. apply digitValue_bounds in H. unfold Js.Number. lia. Qed.

Lemma Number_two c1 c2 :
  Js.isDigit c1 = true -> Js.isDigit c2 = true ->
  0 <= Js.Number (String c1 (String c2 "")) <= 99.
Proof.
  intros H1 H2. apply digitValue_bounds in H1, H2. unfold Js.Number. lia.
Qed.

(** [\d{2}] consumes exactly two digits. *)
Lemma digits2_consumed st st' :
  Matches (Cat digit digit) st st' ->
  caps st' = caps st /\ Js.truthy (consumed st st') = true
  /\ 0 <= Js.Number (consumed st st') <= 99.
Proof.
  intros H. apply inv_Cat in H as (st1 & H1 & H2).
  apply inv_Class in H1 as (c1 & Hd1 & Hr1 & _ & Hc1).
  apply inv_Class in H2 as (c2 & Hd2 & Hr2 & _ & Hc2).
  unfold consumed, remaining. rewrite Hr1, Hr2. simpl String.length.
  rewrite take_two. simpl. split; [congruence | ].
  split; [reflexivity | ]. apply Number_two; assumption.
Qed.

(** [\d{1,2}] consumes one or two digits. *)
Lemma digits12_consumed st st' :
  Matches (Cat digit (Opt digit)) st st' ->
  caps st' = caps st /\ 0 <= Js.Number (consumed st st') <= 99.
Proof.
  intros H. apply inv_Cat in H as (st1 & H1 & H2).
  apply inv_Opt in H2 as [-> | H2].
  - apply inv_Class in H1 as (c1 & Hd1 & Hr1 & _ & Hc1).
    unfold consumed, remaining. rewrite Hr1. simpl String.length.
    rewrite take_one. split; [assumption | ].
    pose proof (Number_one c1 Hd1). lia.
  - assert (H : Matches (Cat digit digit) st st') by eauto with re.
    apply digits2_consumed in H as (Hc & _ & Hn). auto.
Qed.

(** [(?::(\d{2}))?] with capture group [n]: the captures are left as
    they were, or group [n] is set to two digits. *)
Lemma colon_group_caps n st st' :
  Matches (Opt (Cat (Lit ":") (Group n (Cat digit digit)))) st st' ->
  caps st' = caps st \/
  exists v, caps st' = <[n := v]> (caps st) /\ Js.truthy v = true
            /\ 0 <= Js.Number v <= 99.
Proof.
  intros H. apply inv_Opt in H as [-> | H]; [left; reflexivity | ].
  apply inv_Cat in H as (st1 & H1 & H2). apply lit_caps in H1.
  apply inv_Group in H2 as (st2 & H2 & ->).
  apply digits2_consumed in H2 as (Hc & Ht & Hn).
  right. eexists. simpl caps. rewrite Hc, H1. eauto.
Qed.

Lemma timeCapsOk_base (c1 c2 c3 : gmap nat string) v1 :
  c1 = <[1%nat := v1]> ∅ ->
  0 <= Js.Number v1 <= 99 ->
  (c2 = c1 \/ exists v, c2 = <[2%nat := v]> c1 /\ Js.truthy v = true
                        /\ 0 <= Js.Number v <= 99) ->
  (c3 = c2 \/ exists v, c3 = <[3%nat := v]> c2 /\ Js.truthy v = true
                        /\ 0 <= Js.Number v <= 99) ->
  timeCapsOk c3.
Proof.
  intros -> Hn1 [-> | (v2 & -> & Ht2 & Hn2)] [-> | (v3 & -> & Ht3 & Hn3)];
    unfold timeCapsOk; simplify_map_eq; unfold numberOr0;
    rewrite ?Ht2, ?Ht3; simpl; lia.
Qed.

Lemma timePatternA_caps p s st :
  Matches timePatternA (MState p s ∅) st -> timeCapsOk (caps st).
Proof.
  unfold timePatternA. intros H.
  apply inv_Cat in H as (s0 & H0 & H). apply inv_Bol in H0 as [-> _].
  apply inv_Cat in H as (s1 & H1 & H).
  apply inv_Group in H1 as (s1' & H1 & ->).
  apply digits12_consumed in H1 as (Hc1 & Hn1). simpl in Hc1.
  apply inv_Cat in H as (s2 & H2 & H). apply colon_group_caps in H2.
  apply inv_Cat in H as (s3 & H3 & H). apply colon_group_caps in H3.
  apply inv_Cat in H as (s4 & H4 & H). apply star_class_caps in H4.
  apply inv_Cat in H as (s5 & H5 & H). apply inv_Eol in H as [-> _].
  assert (Hbase : timeCapsOk (caps s4)).
  { rewrite H4. simpl caps in H2. rewrite Hc1 in H2.
    exact (timeCapsOk_base _ _ _ _ eq_refl Hn1 H2 H3). }
  apply inv_Opt in H5 as [-> | H5]; [exact Hbase | ].
  apply inv_Group in H5 as (s6 & H5 & ->).
  assert (Hc4 : caps s6 = caps s4).
  { apply inv_Or in H5 as [H5 | H5]; exact (lit_caps _ _ _ H5). }
  unfold timeCapsOk in *. simpl caps. rewrite Hc4.
  rewrite !lookup_insert_ne by lia. exact Hbase.
Qed.

Lemma timePatternB_caps p s st :
  Matches timePatternB (MState p s ∅) st ->
  0 <= Js.Number (default "" (caps st !! 1%nat)) <= 99
  /\ 0 <= Js.Number (default "" (caps st !! 2%nat)) <= 99
  /\ 0 <= numberOr0 (caps st !! 3%nat) <= 99.
Proof.
  unfold timePatternB. intros H.
  apply inv_Cat in H as (s0 & H0 & H). apply inv_Bol in H0 as [-> _].
  apply inv_Cat in H as (s1 & H1 & H).
  apply inv_Group in H1 as (s1' & H1 & ->).
  apply digits12_consumed in H1 as (Hc1 & Hn1). simpl in Hc1.
  apply inv_Cat in H as (s2 & H2 & H). apply lit_caps in H2. simpl in H2.
  apply inv_Cat in H as (s3 & H3 & H).
  apply inv_Group in H3 as (s3' & H3 & ->).
  apply digits2_consumed in H3 as (Hc3 & Ht3 & Hn3).
  apply inv_Cat in H as (s4 & H4 & H). apply inv_Eol in H as [-> _].
  apply colon_group_caps in H4. simpl in H4.
  rewrite Hc3, H2, Hc1 in H4.
  destruct H4 as [-> | (v & -> & Ht & Hn)];
    simplify_map_eq; unfold numberOr0; rewrite ?Ht; simpl; lia.
Qed.

End TimeCaptures.
(** ** The matcher's loop and its first choice *)

(** The matcher looks at its continuation only through its values. *)
Lemma run_ext r :
  forall st k1 k2, (forall st', k1 st' = k2 st') -> run r st k1 = run r st k2.
Proof.
  induction r as [ | p | r1 IH1 r2 IH2 | r1 IH1 r2 IH2 | r1 IH1 | r1 IH1
                 | n r1 IH1 | | | ]; intros st k1 k2 Hk; simpl.
  - apply Hk.
  - destruct (rest st) as [ | c s']; [reflexivity | ].
    destruct (p c); [apply Hk | reflexivity].
  - apply IH1. intros st1. apply IH2, Hk.
  - rewrite (IH1 st k1 k2 Hk), (IH2 st k1 k2 Hk). reflexivity.
  - rewrite (IH1 st _ (fun st1 => if progress st st1 then k2 st1 else None)).
    + rewrite Hk. reflexivity.
    + intros st1. rewrite Hk. reflexivity.
  - generalize (remaining st) as n. intros n. revert st.
    induction n as [ | n IHn]; intros st; [apply Hk | ].
    rewrite (IH1 st _
      (fun st1 => if progress st st1
                  then (fix loop (n : nat) (st : mstate) {struct n} : option mstate :=
                          match n with
                          | O => k2 st
                          | S n' =>
                              match run r1 st (fun st1 => if progress st st1
                                                          then loop n' st1 else None) with
                              | Some res => Some res
                              | None => k2 st
                              end
                          end) n st1
                  else None)).
    + rewrite Hk. reflexivity.
    + intros st1. destruct (progress st st1); [apply IHn | reflexivity].
  - apply IH1. intros st1. apply Hk.
  - destruct (xorb _ _); [apply Hk | reflexivity].
  - destruct (prev st); [reflexivity | apply Hk].
  - destruct (rest st); [apply Hk | reflexivity].
Qed.

Lemma run_Star r st k :
  run (Star r) st k = starLoop (run r) k (remaining st) st.
Proof.
  simpl. generalize (remaining st) as n. intros n. revert st.
  induction n as [ | n IHn]; intros st; [reflexivity | ].
  simpl. erewrite run_ext; [reflexivity | ].
  intros st1. simpl. destruct (progress st st1); [apply IHn | reflexivity].
Qed.

Lemma progress_lt st st' :
  (remaining st' < remaining st)%nat -> progress st st' = true.
Proof. intros H. unfold progress. apply Nat.ltb_lt. exact H. Qed.

(** *** First-choice matching *)

Section FirstChoice.

#[local] Arguments append !s1 s2 : simpl nomatch.

Lemma length_append (a b : string) :
  String.length (a +:+ b) = (String.length a + String.length b)%nat.
Proof. induction a as [ | c a IH]; simpl; [reflexivity | rewrite IH; reflexivity]. Qed.

Lemma take_append (a b : string) : Js.take (String.length a) (a +:+ b) = a.
Proof. induction a as [ | c a IH]; simpl; [destruct b | rewrite IH]; reflexivity. Qed.

(** What a match has consumed when the input left is a suffix. *)
Lemma consumed_append pr pr' cs cs' (a b : string) :
  consumed (MState pr (a +:+ b) cs) (MState pr' b cs') = a.
Proof.
  unfold consumed, remaining. cbn [rest]. rewrite length_append.
  replace (String.length a + String.length b - String.length b)%nat
    with (String.length a) by lia.
  apply take_append.
Qed.

Lemma progress_append pr pr' cs cs' (c : ascii) (a b : string) :
  progress (MState pr (String c a +:+ b) cs) (MState pr' b cs') = true.
Proof.
  apply progress_lt. unfold remaining. cbn [rest].
  rewrite length_append. simpl. lia.
Qed.

Lemma First_Empty st : First Empty st st.
Proof. intros k res Hk. exact Hk. Qed.

Lemma First_Class (p : ascii -> bool) pr c s cs :
  p c = true -> First (Class p) (MState pr (String c s) cs) (MState (Some c) s cs).
Proof. intros Hp k res Hk. simpl. rewrite Hp. exact Hk. Qed.

Lemma Fails_Class (p : ascii -> bool) st : nextIs p (rest st) = false -> Fails (Class p) st.
Proof.
  intros Hn k. simpl. destruct (rest st) as [ | c s]; [reflexivity | ].
  simpl in Hn. rewrite Hn. reflexivity.
Qed.

Lemma First_Cat r1 r2 st st1 st2 :
  First r1 st st1 -> First r2 st1 st2 -> First (Cat r1 r2) st st2.
Proof. intros H1 H2 k res Hk. simpl. apply H1, H2, Hk. Qed.

Lemma Fails_Cat r1 r2 st : Fails r1 st -> Fails (Cat r1 r2) st.
Proof. intros H k. simpl. apply H. Qed.

Lemma First_Opt_take r st st1 :
  First r st st1 -> progress st st1 = true -> First (Opt r) st st1.
Proof.
  intros H Hp k res Hk. simpl.
  rewrite (H _ res); [reflexivity | ]. rewrite Hp. exact Hk.
Qed.

Lemma First_Opt_skip r st : Fails r st -> First (Opt r) st st.
Proof. intros H k res Hk. simpl. rewrite H. exact Hk. Qed.

Lemma First_Or_l r1 r2 st st' : First r1 st st' -> First (Or r1 r2) st st'.
Proof. intros H k res Hk. simpl. rewrite (H k res Hk). reflexivity. Qed.

Lemma First_Or_r r1 r2 st st' :
  Fails r1 st -> First r2 st st' -> First (Or r1 r2) st st'.
Proof. intros H1 H2 k res Hk. simpl. rewrite H1. apply H2, Hk. Qed.

Lemma Fails_Or r1 r2 st : Fails r1 st -> Fails r2 st -> Fails (Or r1 r2) st.
Proof. intros H1 H2 k. simpl. rewrite H1. apply H2. Qed.

Lemma First_Group n r st st1 :
  First r st st1 -> First (Group n r) st (setCap n (consumed st st1) st1).
Proof. intros H k res Hk. simpl. apply H, Hk. Qed.

Lemma Fails_Group n r st : Fails r st -> Fails (Group n r) st.
Proof. intros H k. simpl. apply H. Qed.

Lemma First_Bol st : prev st = None -> First Bol st st.
Proof. intros Hp k res Hk. simpl. rewrite Hp. exact Hk. Qed.

Lemma First_Eol st : rest st = "" -> First Eol st st.
Proof. intros Hr k res Hk. simpl. rewrite Hr. exact Hk. Qed.

(** A literal reads itself. *)
Lemma First_Lit (s : string) :
  forall pr x cs, First (Lit s) (MState pr (s +:+ x) cs) (MState (lastOf pr s) x cs).
Proof.
  induction s as [ | c s IH]; intros pr x cs.
  - destruct x; apply First_Empty.
  - simpl. eapply First_Cat; [ | apply IH].
    apply First_Class. apply Ascii.eqb_refl.
Qed.

Lemma Fails_Lit c s st :
  nextIs (Ascii.eqb c) (rest st) = false -> Fails (Lit (String c s)) st.
Proof. intros H. simpl. apply Fails_Cat, Fails_Class, H. Qed.

(** A starred class reads the whole run of characters of the class. *)
Lemma starLoop_class (p : ascii -> bool) (k : mstate -> option mstate)
    (res : mstate) (tail : string) cs :
  nextIs p tail = false ->
  forall (sp : string) (n : nat) pr,
    everyChar p sp = true -> (String.length sp <= n)%nat ->
    k (MState (lastOf pr sp) tail cs) = Some res ->
    starLoop (run (Class p)) k n (MState pr (sp +:+ tail) cs) = Some res.
Proof.
  intros Htail. induction sp as [ | c sp IH]; intros n pr Hsp Hn Hk.
  - assert (E : "" +:+ tail = tail) by (destruct tail; reflexivity).
    rewrite E. simpl in Hk. destruct n as [ | n]; [exact Hk | ].
    cbn [starLoop]. rewrite (Fails_Class p); [exact Hk | exact Htail].
  - simpl in Hsp. apply andb_true_iff in Hsp as [Hc Hsp].
    destruct n as [ | n]; [simpl in Hn; lia | ].
    cbn [starLoop]. simpl in Hk.
    rewrite (First_Class p pr c (sp +:+ tail) cs Hc _ res); [reflexivity | ].
    cbv beta. change (String c sp +:+ tail) with (String c "" +:+ (sp +:+ tail)).
    rewrite progress_append. apply IH; [exact Hsp | simpl in Hn; lia | exact Hk].
Qed.

Lemma First_Star_class (p : ascii -> bool) pr (sp tail : string) cs :
  everyChar p sp = true -> nextIs p tail = false ->
  First (Star (Class p)) (MState pr (sp +:+ tail) cs) (MState (lastOf pr sp) tail cs).
Proof.
  intros Hsp Htail k res Hk. rewrite run_Star.
  apply starLoop_class; [exact Htail | exact Hsp | | exact Hk].
  unfold remaining. cbn [rest]. rewrite length_append. lia.
Qed.

(** The first choice at the start of the text is what [exec] returns. *)
Lemma First_exec r (s : string) st :
  First r (MState None s ∅) st -> exec r s = Some (caps st).
Proof.
  intros H. unfold exec.
  assert (E : matchAt r None s = Some st) by (apply H; reflexivity).
  destruct s; simpl; rewrite E; reflexivity.
Qed.

End FirstChoice.

(** ** Calendar arithmetic *)

Lemma checkStep_iter (f : Z -> bool) :
  forall (n : nat) (z0 : Z) (b : bool),
    snd (Nat.iter n (checkStep f) (z0, b)) = true ->
    fst (Nat.iter n (checkStep f) (z0, b)) = z0 + Z.of_nat n
    /\ b = true
    /\ forall z, z0 <= z < z0 + Z.of_nat n -> f z = true.
Proof.
  induction n as [ | n IH]; intros z0 b H.
  - simpl in *. repeat split; [lia | exact H | intros; lia].
  - rewrite Nat.iter_succ in *. unfold checkStep at 1 in H. cbn [snd] in H.
    apply andb_true_iff in H as [H Hf].
    destruct (IH z0 b H) as (Hfst & Hb & Hall).
    unfold checkStep at 1. cbn [fst]. rewrite Hfst in Hf. rewrite Hfst.
    repeat split; [lia | exact Hb | ].
    intros z Hz. destruct (Z.eq_dec z (z0 + Z.of_nat n)) as [-> | Hne];
      [exact Hf | apply Hall; lia].
Qed.

Lemma checkRange_spec (f : Z -> bool) (n : positive) :
  checkRange f n = true -> forall z, 0 <= z < Z.pos n -> f z = true.
Proof.
  unfold checkRange. rewrite Pos2Nat.inj_iter. intros H z Hz.
  apply (checkStep_iter f _ 0 true H). rewrite positive_nat_Z. lia.
Qed.

(** Every day of a 400-year era, checked by evaluation. *)
Lemma eraDays_ok : checkRange eraDayOk 146097 = true.
Proof. vm_compute. reflexivity. Qed.

Lemma eraDayOk_spec (doe : Z) : 0 <= doe < 146097 -> eraDayOk doe = true.
Proof. apply (checkRange_spec eraDayOk 146097 eraDays_ok). Qed.

(** The civil date of a day number has a month from 1 to 12 and a day
    from 1 to 31, and its day number is the one it came from. *)
Lemma civilFromDays_spec (z : Z) :
  let '(y, m, d) := Cal.civilFromDays z in
  1 <= m <= 12 /\ 1 <= d <= 31 /\ Cal.daysFromCivil y m d = z.
Proof.
  unfold Cal.civilFromDays. cbv zeta.
  set (z0 := z + 719468).
  set (era := z0 / 146097).
  set (doe := z0 - era * 146097).
  assert (Hdoe : 0 <= doe < 146097).
  { subst doe era. pose proof (Z.mod_pos_bound z0 146097 ltac:(lia)) as Hm.
    rewrite Z.mod_eq in Hm by lia. lia. }
  pose proof (eraDayOk_spec doe Hdoe) as Hok. unfold eraDayOk in Hok. cbv zeta in Hok.
  set (yoe := (doe - doe / 1460 + doe / 36524 - doe / 146096) / 365) in *.
  set (doy := doe - (365 * yoe + yoe / 4 - yoe / 100)) in *.
  set (mp := (5 * doy + 2) / 153) in *.
  set (q := (153 * mp + 2) / 5) in *.
  rewrite !andb_true_iff, !Z.leb_le in Hok.
  destruct Hok as [[[[[[[Hy0 Hy1] Hd0] Hd1] Hm0] Hm1] Hdd0] Hdd1].
  assert (Hera : (yoe + era * 400) / 400 = era).
  { rewrite Z.div_add by lia. rewrite Z.div_small by lia. lia. }
  assert (Edoy : doy = doe - (365 * yoe + yoe / 4 - yoe / 100)) by reflexivity.
  assert (Edoe : doe = z0 - era * 146097) by reflexivity.
  assert (Ez0 : z0 = z + 719468) by reflexivity.
  assert (Eq : q = (153 * mp + 2) / 5) by reflexivity.
  clearbody q mp doy yoe doe era z0.
  unfold Cal.daysFromCivil.
  destruct (Z.ltb_spec mp 10) as [Hlt | Hge].
  - destruct (Z.leb_spec (mp + 3) 2) as [? | _]; [lia | ].
    destruct (Z.ltb_spec 2 (mp + 3)) as [_ | ?]; [ | lia].
    cbv zeta. replace (mp + 3 - 3) with mp by lia.
    rewrite Hera. replace (yoe + era * 400 - era * 400) with yoe by lia. lia.
  - destruct (Z.leb_spec (mp - 9) 2) as [_ | ?]; [ | lia].
    destruct (Z.ltb_spec 2 (mp - 9)) as [? | _]; [lia | ].
    cbv zeta. replace (mp - 9 + 9) with mp by lia.
    replace (yoe + era * 400 + 1 - 1) with (yoe + era * 400) by lia.
    rewrite Hera. replace (yoe + era * 400 - era * 400) with yoe by lia. lia.
Qed.

Lemma fields_range (t : Z) :
  0 <= MonthFromTime t <= 11 /\ 1 <= DateFromTime t <= 31.
Proof.
  unfold MonthFromTime, DateFromTime. pose proof (civilFromDays_spec (Day t)) as H.
  destruct (Cal.civilFromDays (Day t)) as [[y m] dd]. simpl. lia.
Qed.

(** The day number of the civil date of a time value, [k] days on. *)
Lemma MakeDay_of_time (t k : Z) :
  Cal.MakeDay (YearFromTime t) (MonthFromTime t) (DateFromTime t + k) = Day t + k.
Proof.
  unfold YearFromTime, MonthFromTime, DateFromTime, Cal.MakeDay.
  pose proof (civilFromDays_spec (Day t)) as H.
  destruct (Cal.civilFromDays (Day t)) as [[y m] dd]. simpl.
  destruct H as (Hm & Hd & Hz).
  rewrite Z.div_small by lia. rewrite Z.mod_small by lia.
  replace (y + 0) with y by lia. replace (m - 1 + 1) with m by lia.
  rewrite <- Hz. unfold Cal.daysFromCivil. cbv zeta. lia.
Qed.

(** The years from 100 on are the days from 0100-01-01 on. *)
Lemma year_from_100 (t : Z) : 100 <= YearFromTime t <-> -683003 <= Day t.
Proof.
  unfold YearFromTime. pose proof (civilFromDays_spec (Day t)) as H.
  destruct (Cal.civilFromDays (Day t)) as [[y m] dd]. simpl.
  destruct H as (Hm & Hd & Hz). rewrite <- Hz. clear Hz.
  unfold Cal.daysFromCivil. cbv zeta.
  destruct (Z.leb_spec m 2) as [Hm2 | Hm2];
    destruct (Z.ltb_spec 2 m) as [Hm3 | Hm3]; try lia;
    Z.to_euclidean_division_equations; lia.
Qed.

Lemma Day_midnight (n s : Z) : 0 <= s < 86400 -> Day (n * 86400 + s) = n.
Proof.
  intros Hs. unfold Day. rewrite Z.add_comm, Z.div_add by lia.
  rewrite Z.div_small by lia. lia.
Qed.

Lemma TimeWithinDay_midnight (n s : Z) :
  0 <= s < 86400 -> TimeWithinDay (n * 86400 + s) = s.
Proof.
  intros Hs. unfold TimeWithinDay. rewrite Z.add_comm, Z.mod_add by lia.
  apply Z.mod_small, Hs.
Qed.

(** ** Time zones *)

Lemma fixedOffset_LocalTime tz c t : fixedOffset tz c -> LocalTime tz t = t + c.
Proof. intros H. unfold LocalTime. rewrite H. reflexivity. Qed.

Lemma fixedOffset_UTC tz c t : fixedOffset tz c -> UTC tz t = t - c.
Proof. intros H. unfold UTC. rewrite H. reflexivity. Qed.

Lemma fixedOffset_keepsLocal tz c L : fixedOffset tz c -> keepsLocal tz L.
Proof.
  intros H. unfold keepsLocal.
  rewrite (fixedOffset_UTC tz c), (fixedOffset_LocalTime tz c) by exact H. lia.
Qed.

Lemma fixedOffset_regular tz c : fixedOffset tz c -> regularMidnights tz.
Proof.
  intros H. split.
  - intros n. apply (fixedOffset_keepsLocal tz c), H.
  - intros n m Hnm. rewrite !(fixedOffset_UTC tz c) by exact H. lia.
Qed.

Lemma utc_fixed : fixedOffset utc 0.
Proof. intros t b. reflexivity. Qed.

(** Pacific time keeps every midnight: its changes are at 02:00. *)
Lemma pacific2025_regular : regularMidnights pacific2025.
Proof.
  split.
  - intros n. unfold keepsLocal, LocalTime, UTC, pacific2025. cbn [LocalTZA].
    destruct (Z.leb_spec 1741489200 (n * 86400));
      destruct (Z.ltb_spec (n * 86400) 1762048800); cbn [andb];
      repeat match goal with
        | |- context [?a <=? ?b] => destruct (Z.leb_spec a b)
        | |- context [?a <? ?b] => destruct (Z.ltb_spec a b)
        end; cbn [andb]; lia.
  - intros n m Hnm. unfold UTC, pacific2025. cbn [LocalTZA].
    repeat match goal with
      | |- context [?a <=? ?b] => destruct (Z.leb_spec a b)
      | |- context [?a <? ?b] => destruct (Z.ltb_spec a b)
      end; cbn [andb]; lia.
Qed.

Lemma localValue_atLocal tz L : keepsLocal tz L -> localValue tz (atLocal tz L) = L.
Proof. intros H. exact H. Qed.

Lemma localDay_midnight tz n :
  keepsLocal tz (n * 86400) -> localDay tz (atLocal tz (n * 86400)) = n.
Proof.
  intros H. unfold localDay. rewrite localValue_atLocal by exact H.
  replace (n * 86400) with (n * 86400 + 0) by lia. apply Day_midnight. lia.
Qed.

(** ** Building a date from the fields of a date *)

(** [new Date] on the fields of a date: the local day that the year
    rule, if it applies, leads to. *)
Lemma newDate_fields tz (d : Date) (hh mm ss : Z) :
  ~ 0 <= getFullYear tz d <= 99 ->
  newDate tz (getFullYear tz d) (getMonth tz d) (getDate tz d) hh mm ss
  = atLocal tz (localDay tz d * 86400 + (hh * 3600 + mm * 60 + ss)).
Proof.
  intros Hy. unfold newDate.
  destruct ((0 <=? getFullYear tz d) && (getFullYear tz d <=? 99)) eqn:E.
  { apply andb_true_iff in E as [E1 E2]. apply Z.leb_le in E1, E2. lia. }
  cbv zeta. unfold getFullYear, getMonth, getDate.
  pose proof (MakeDay_of_time (localValue tz d) 0) as HM.
  rewrite Z.add_0_r in HM. rewrite Z.add_0_r in HM. rewrite HM. reflexivity.
Qed.

Lemma dateOnly_midnight tz (d : Date) :
  ~ 0 <= getFullYear tz d <= 99 ->
  dateOnly tz d = atLocal tz (localDay tz d * 86400).
Proof.
  intros Hy. unfold dateOnly. rewrite newDate_fields by exact Hy.
  f_equal. lia.
Qed.

Lemma combineDateTime_atLocal tz (date : Date) (t : TimeOfDay) :
  ~ 0 <= getFullYear tz date <= 99 ->
  combineDateTime tz date t = atLocal tz (localDay tz date * 86400 + secondsOf t).
Proof. intros Hy. unfold combineDateTime. apply newDate_fields, Hy. Qed.

(** Whatever the year, [dateOnly] gives the midnight of some local day. *)
Lemma dateOnly_some_midnight tz (d : Date) :
  exists n, dateOnly tz d = atLocal tz (n * 86400).
Proof.
  unfold dateOnly, newDate. cbv zeta.
  eexists. unfold atLocal. do 2 f_equal.
  change (0 * 3600 + 0 * 60 + 0) with 0. rewrite Z.add_0_r. reflexivity.
Qed.

(** The day after a local midnight is the next local midnight. *)
Lemma nextDay_midnight tz n :
  keepsLocal tz (n * 86400) ->
  nextDay tz (atLocal tz (n * 86400)) = atLocal tz ((n + 1) * 86400).
Proof.
  intros H. unfold nextDay. cbv zeta. rewrite localValue_atLocal by exact H.
  rewrite MakeDay_of_time.
  replace (n * 86400) with (n * 86400 + 0) by lia.
  rewrite Day_midnight, TimeWithinDay_midnight by lia.
  unfold atLocal. do 2 f_equal. lia.
Qed.

Lemma getDay_midnight tz n :
  keepsLocal tz (n * 86400) -> getDay tz (atLocal tz (n * 86400)) = (n + 4) mod 7.
Proof.
  intros H. unfold getDay, WeekDay. rewrite localValue_atLocal by exact H.
  replace (n * 86400) with (n * 86400 + 0) by lia.
  rewrite Day_midnight by lia. reflexivity.
Qed.

(** ** The recurrence expander *)

Section Expander.

Variable tz : Zone.
Variable W : gset Z.
Hypothesis regular : regularMidnights tz.

Lemma midnight_leb (a b : Z) :
  (timeValue (atLocal tz (a * 86400)) <=? timeValue (atLocal tz (b * 86400)))
  = (a <=? b).
Proof.
  destruct regular as [_ Hasc]. unfold atLocal. cbn [timeValue].
  destruct (Z.leb_spec a b) as [Hle | Hgt].
  - apply Z.leb_le. destruct (Z.eq_dec a b) as [-> | Hne]; [lia | ].
    specialize (Hasc a b ltac:(lia)). lia.
  - apply Z.leb_gt. apply Hasc, Hgt.
Qed.

Lemma daysBetween_empty (a b : Z) : b < a -> daysBetween tz a b = [].
Proof. intros H. unfold daysBetween. rewrite seqZ_nil by lia. reflexivity. Qed.

Lemma daysBetween_first (a b : Z) :
  a <= b -> daysBetween tz a b = atLocal tz (a * 86400) :: daysBetween tz (a + 1) b.
Proof.
  intros H. unfold daysBetween. rewrite seqZ_cons by lia.
  rewrite fmap_cons. do 3 f_equal; lia.
Qed.

(** The loop, started at a local midnight and given a turn per
    remaining day, ends because its condition fails, and has added the
    matching days in order. *)
Lemma expandLoop_days (b : Z) :
  forall (fuel : nat) (a : Z) (out : list Date),
    (Z.to_nat (b - a + 1) <= fuel)%nat ->
    expandLoop tz fuel (atLocal tz (a * 86400)) (atLocal tz (b * 86400)) W out
    = Some (out ++ filter (fun d => getDay tz d ∈ W) (daysBetween tz a b)).
Proof.
  induction fuel as [ | fuel IH]; intros a out Hfuel.
  - cbn [expandLoop]. rewrite midnight_leb.
    destruct (Z.leb_spec a b) as [Hle | Hgt]; [lia | ].
    rewrite daysBetween_empty by lia. rewrite filter_nil, app_nil_r. reflexivity.
  - cbn [expandLoop]. rewrite midnight_leb.
    destruct (Z.leb_spec a b) as [Hle | Hgt].
    + rewrite nextDay_midnight by apply regular. rewrite IH by lia.
      rewrite (daysBetween_first a b) by lia. rewrite filter_cons.
      destruct (decide (getDay tz (atLocal tz (a * 86400)) ∈ W)) as [Hin | Hout].
      * rewrite <- app_assoc. reflexivity.
      * reflexivity.
    + rewrite daysBetween_empty by lia. rewrite filter_nil, app_nil_r. reflexivity.
Qed.

(** The expander between the local days that rebuilding the two dates
    leads to. *)
Lemma expandOccurrences_between (sd ed : Date) (a b : Z) :
  dateOnly tz sd = atLocal tz (a * 86400) ->
  dateOnly tz ed = atLocal tz (b * 86400) ->
  expandLoop tz (expandFuel tz (dateOnly tz sd) (dateOnly tz ed))
    (dateOnly tz sd) (dateOnly tz ed) W []
  = Some (expandOccurrences tz (Some sd) (Some ed) W)
  /\ expandOccurrences tz (Some sd) (Some ed) W
     = filter (fun d => getDay tz d ∈ W) (daysBetween tz a b).
Proof.
  intros Hs He. unfold expandOccurrences. cbv zeta. rewrite Hs, He.
  assert (Hfuel : expandFuel tz (atLocal tz (a * 86400)) (atLocal tz (b * 86400))
                  = Z.to_nat (b - a + 1)).
  { unfold expandFuel. fold (localDay tz (atLocal tz (b * 86400))).
    fold (localDay tz (atLocal tz (a * 86400))).
    rewrite !localDay_midnight by apply regular. reflexivity. }
  rewrite Hfuel, expandLoop_days by lia. cbn [default app]. auto.
Qed.

Lemma expandOccurrences_days (sd ed : Date) :
  ~ 0 <= getFullYear tz sd <= 99 -> ~ 0 <= getFullYear tz ed <= 99 ->
  expandLoop tz (expandFuel tz (dateOnly tz sd) (dateOnly tz ed))
    (dateOnly tz sd) (dateOnly tz ed) W []
  = Some (expandOccurrences tz (Some sd) (Some ed) W)
  /\ expandOccurrences tz (Some sd) (Some ed) W
     = filter (fun d => getDay tz d ∈ W)
         (daysBetween tz (localDay tz sd) (localDay tz ed)).
Proof.
  intros Hs He. apply expandOccurrences_between; apply dateOnly_midnight; assumption.
Qed.


Lemma elem_of_daysBetween (a b : Z) (d : Date) :
  d ∈ daysBetween tz a b
  <-> d = atLocal tz (localDay tz d * 86400) /\ a <= localDay tz d <= b.
Proof.
  unfold daysBetween. rewrite list_elem_of_fmap. split.
  - intros (k & -> & Hk). apply elem_of_seqZ in Hk.
    rewrite localDay_midnight by apply regular. split; [reflexivity | lia].
  - intros [Hd Hr]. exists (localDay tz d). split; [exact Hd | ].
    apply elem_of_seqZ. lia.
Qed.

End Expander.




(** The dates of the end-to-end scenario: Monday, Wednesday and Friday
    from 2025-01-06 through 2025-01-17. *)
Example expandOccurrences_scenario :
  map (icsDateTimeLocal utc)
    (expandOccurrences utc (Some (newDate utc 2025 0 6 0 0 0))
       (Some (newDate utc 2025 0 17 0 0 0)) {[1; 3; 5]})
  = ["20250106T000000"; "20250108T000000"; "20250110T000000";
     "20250113T000000"; "20250115T000000"; "20250117T000000"].
Proof. vm_compute. reflexivity. Qed.

(** Across the change of offset of 2025-03-09 in Pacific time the
    expander still gives the local midnights of the days asked for. *)
Example expandOccurrences_across_offset_change :
  map (icsDateTimeLocal pacific2025)
    (expandOccurrences pacific2025 (Some (newDate pacific2025 2025 2 7 0 0 0))
       (Some (newDate pacific2025 2025 2 12 0 0 0)) {[1; 3; 5]})
  = ["20250307T000000"; "20250310T000000"; "20250312T000000"].
Proof. vm_compute. reflexivity. Qed.

(** Other dates of the years 0 to 99: the Monday, Wednesday and Friday
    returned for 0050-01-03 through 0050-01-09 are those of 1950-01-03
    through 1950-01-09; and the week from 0099-12-29 through 0100-01-04
    gives nothing, its start being rebuilt in 1999 and its end not. *)
Example expandOccurrences_year_50 :
  map (icsDateTimeLocal utc) [mkDate (-60589123200); mkDate (-60588604800)]
  = ["500103T000000"; "500109T000000"]
  /\ map (icsDateTimeLocal utc)
       (expandOccurrences utc (Some (mkDate (-60589123200)))
          (Some (mkDate (-60588604800))) {[1; 3; 5]})
     = ["19500104T000000"; "19500106T000000"; "19500109T000000"]
  /\ expandOccurrences utc (Some (newDate utc 100 (-1) 29 0 0 0))
       (Some (newDate utc 100 0 4 0 0 0)) {[0; 1; 2; 3; 4; 5; 6]}
     = [].
Proof. repeat split; vm_compute; reflexivity. Qed.

(** ** Text escaping *)

#[local] Arguments append !s1 s2 : simpl nomatch.

Lemma append_assoc (a b c : string) : (a +:+ b) +:+ c = a +:+ (b +:+ c).
Proof.
  induction a as [ | x a IH]; simpl; [reflexivity | rewrite IH; reflexivity].
Qed.

Lemma append_empty_r (a : string) : a +:+ "" = a.
Proof.
  induction a as [ | x a IH]; simpl; [reflexivity | rewrite IH; reflexivity].
Qed.

Lemma replaceChars_app f (a b : string) :
  replaceChars f (a +:+ b) = replaceChars f a +:+ replaceChars f b.
Proof.
  induction a as [ | x a IH]; [reflexivity | ].
  cbn [replaceChars append]. rewrite IH, append_assoc. reflexivity.
Qed.

Lemma icsEscape_cons (c : ascii) (s : string) :
  icsEscape (String c s) = escChar c +:+ icsEscape s.
Proof.
  unfold icsEscape, escChar. simpl replaceChars at 3.
  rewrite !replaceChars_app. reflexivity.
Qed.

(** One escaped character is read back as that character. *)
Lemma icsUnescape_escChar (c : ascii) (r : string) :
  icsUnescape (escChar c +:+ r) = String c (icsUnescape r).
Proof.
  unfold escChar, escBackslash.
  destruct (Ascii.eqb_spec c "\") as [-> | Hb]; [reflexivity | ].
  simpl. unfold escNewline.
  destruct (Ascii.eqb_spec c LF) as [-> | Hn]; [reflexivity | ].
  simpl. unfold escSeparator.
  destruct (Ascii.eqb_spec c ",") as [-> | Hc]; [reflexivity | ].
  destruct (Ascii.eqb_spec c ";") as [-> | Hs]; [reflexivity | ].
  simpl. apply Ascii.eqb_neq in Hb. rewrite Hb. reflexivity.
Qed.

Lemma icsUnescape_icsEscape (s : string) : icsUnescape (icsEscape s) = s.
Proof.
  induction s as [ | c s IH]; [reflexivity | ].
  rewrite icsEscape_cons, icsUnescape_escChar, IH. reflexivity.
Qed.

(** C4: un-escaping what the serializer's text escaping produced gives
    back the original text, for every text; hence the escaping
    (backslash doubled first, then newline to backslash-n, then comma and
    semicolon each prefixed by a backslash) is injective, with
    [icsUnescape] as a left inverse. *)
Theorem icsEscape_roundtrip :
  (forall s, icsUnescape (icsEscape s) = s)
  /\ (forall s1 s2, icsEscape s1 = icsEscape s2 -> s1 = s2).
Proof.
  split; [exact icsUnescape_icsEscape | ].
  intros s1 s2 H.
  rewrite <- (icsUnescape_icsEscape s1), <- (icsUnescape_icsEscape s2), H.
  reflexivity.
Qed.

Lemma icsEscape_roundtrip_witness : "a\b,c;d" = "a\b,c;d".
Proof.
  apply (proj2 icsEscape_roundtrip "a\b,c;d" "a\b,c;d"). vm_compute. reflexivity.
Defined.

Example icsEscape_example :
  icsEscape ("a\b,c;d" +:+ NL +:+ "e") = "a\\b\,c\;d\ne".
Proof. vm_compute. reflexivity. Qed.

(** ** Line folding *)

Lemma take_drop (n : nat) (s : string) : Js.take n s +:+ Js.drop n s = s.
Proof.
  revert s. induction n as [ | n IH]; intros [ | c s]; simpl; try reflexivity.
  rewrite IH. reflexivity.
Qed.

Lemma drop_drop (n m : nat) (s : string) :
  Js.drop n (Js.drop m s) = Js.drop (m + n) s.
Proof.
  revert s. induction m as [ | m IH]; intros s; simpl; [reflexivity | ].
  destruct s as [ | c s]; [destruct n; reflexivity | apply IH].
Qed.

Lemma drop_all (n : nat) (s : string) :
  (String.length s <= n)%nat -> Js.drop n s = "".
Proof.
  revert s. induction n as [ | n IH]; intros [ | c s] H; simpl in *;
    try reflexivity; try lia.
  apply IH. lia.
Qed.

Lemma length_take (n : nat) (s : string) :
  String.length (Js.take n s) = Nat.min n (String.length s).
Proof.
  revert s. induction n as [ | n IH]; intros [ | c s]; simpl; try reflexivity.
  rewrite IH. reflexivity.
Qed.

#[local] Arguments Js.take : simpl never.
#[local] Arguments Js.drop : simpl never.

(** The chunk loop from a position past the start: enough fuel makes it
    end by its condition; its lines, each less one leading space, are the
    rest of the line; none is longer than 76. *)
Lemma foldChunks_continuation (ln : string) :
  forall (fuel i : nat),
    (0 < i)%nat -> (String.length ln <= i + 75 * fuel)%nat ->
    exists out,
      foldChunks fuel i ln = Some out
      /\ concatStrings (map stripOneSpace out) = Js.drop i ln
      /\ Forall (fun l => (String.length l <= 76)%nat) out.
Proof.
  induction fuel as [ | fuel IH]; intros i Hi Hfuel.
  - exists []. simpl.
    destruct (Nat.ltb_spec i (String.length ln)); [lia | ].
    rewrite drop_all by lia. auto.
  - simpl. destruct (Nat.ltb_spec i (String.length ln)) as [Hlt | Hge].
    + destruct (IH (i + 75)%nat) as (out & -> & Hcat & Hlen); [lia | lia | ].
      destruct (Nat.eqb_spec i 0) as [-> | _]; [lia | ].
      eexists. split; [reflexivity | ]. split.
      * simpl. rewrite Hcat. unfold Js.slice.
        replace (i + 75 - i)%nat with 75%nat by lia.
        rewrite <- drop_drop. apply take_drop.
      * constructor; [ | exact Hlen].
        unfold Js.slice. cbn [append String.length].
        rewrite length_take. lia.
    + exists []. rewrite drop_all by lia. auto.
Qed.

(** The shape of what is pushed for an over-long line. *)
Lemma foldLine_long (ln : string) :
  (75 < String.length ln)%nat ->
  exists out,
    foldLine ln = Js.take 75 ln :: out
    /\ concatStrings (map stripOneSpace out) = Js.drop 75 ln
    /\ Forall (fun l => (String.length l <= 76)%nat) out.
Proof.
  intros Hlong. unfold foldLine.
  destruct (Nat.leb_spec (String.length ln) 75) as [Hle | _]; [lia | ].
  destruct (String.length ln) as [ | fuel] eqn:EL; [lia | ].
  cbn [foldChunks]. rewrite EL.
  destruct (Nat.ltb_spec 0 (S fuel)) as [_ | ?]; [ | lia].
  destruct (foldChunks_continuation ln fuel 75) as (out & Hout & Hcat & Hlen);
    [lia | lia | ].
  change (0 + 75)%nat with 75%nat. rewrite Hout. simpl.
  exists out. unfold Js.slice. change (Js.drop 0 ln) with ln. auto.
Qed.

(** Re-joining the physical lines of a folded line gives the line
    back. *)
Lemma foldLine_rejoin (ln : string) : rejoin (foldLine ln) = ln.
Proof.
  destruct (Nat.leb_spec (String.length ln) 75) as [Hle | Hgt].
  - unfold foldLine. apply Nat.leb_le in Hle. rewrite Hle. simpl.
    apply append_empty_r.
  - destruct (foldLine_long ln Hgt) as (out & -> & Hcat & _).
    simpl. rewrite Hcat. apply take_drop.
Qed.

(** The first physical line is at most 75 long, a continuation line at
    most 76. *)
Lemma foldLine_lengths (ln : string) :
  Forall (fun l => (String.length l <= 76)%nat) (foldLine ln).
Proof.
  destruct (Nat.leb_spec (String.length ln) 75) as [Hle | Hgt].
  - unfold foldLine. pose proof Hle as Hb. apply Nat.leb_le in Hb. rewrite Hb.
    constructor; [lia | constructor].
  - destruct (foldLine_long ln Hgt) as (out & -> & _ & Hlen).
    constructor; [rewrite length_take; lia | exact Hlen].
Qed.

(** C3: at a logical line of 150 characters the line-folding function
    pushes a first line of 75 and a continuation line of 76, one more than
    the limit of 75; re-joining still gives the line back. *)
Theorem foldLine_continuation_overlong :
  map String.length (foldLine (repeatChar 150 "a")) = [75; 76]%nat
  /\ ~ Forall (fun l => (String.length l <= lineLimit)%nat)
         (foldLine (repeatChar 150 "a"))
  /\ physicalLines (foldLines (repeatChar 150 "a")) = foldLine (repeatChar 150 "a")
  /\ rejoin (foldLine (repeatChar 150 "a")) = repeatChar 150 "a".
Proof.
  assert (E : map String.length (foldLine (repeatChar 150 "a")) = [75; 76]%nat)
    by (vm_compute; reflexivity).
  split; [exact E | ]. split; [ | split].
  - intros HF.
    assert (HF' : Forall (fun n => (n <= lineLimit)%nat)
                    (map String.length (foldLine (repeatChar 150 "a")))).
    { rewrite Forall_map. exact HF. }
    rewrite E in HF'. inversion HF' as [ | ? ? _ HF'']; subst.
    inversion HF'' as [ | ? ? Hbad _]; subst.
    unfold lineLimit in Hbad. lia.
  - vm_compute. reflexivity.
  - apply foldLine_rejoin.
Qed.

(** ** The time parser *)

Lemma parseTime_caps_bound (val : option string) (t : TimeOfDay) :
  parseTime val = Some t ->
  0 <= h t <= 99 /\ 0 <= min t <= 99 /\ 0 <= sec t <= 99.
Proof.
  unfold parseTime. destruct val as [v | ]; [ | discriminate].
  destruct (negb (Js.truthy v)); [discriminate | ].
  destruct (negb (Js.truthy (Js.trim v))); [discriminate | ].
  destruct (exec timePatternA _) as [m | ] eqn:EA.
  - apply exec_sound in EA as (p' & s' & st & HM & <-).
    apply timePatternA_caps in HM as (H1 & H2 & H3).
    intros [= <-]. simpl.
    repeat split; try lia;
      repeat case_decide; repeat case_match; lia.
  - destruct (exec timePatternB _) as [m | ] eqn:EB; [ | discriminate].
    apply exec_sound in EB as (p' & s' & st & HM & <-).
    apply timePatternB_caps in HM as (H1 & H2 & H3).
    intros [= <-]. simpl. lia.
Qed.

(** C10, as stated, fails: "99:99:99" is accepted and its fields are
    outside the TimeOfDay ranges. *)
Lemma parseTime_out_of_range :
  exists t, parseTime (Some "99:99:99") = Some t /\ ~ inTimeOfDayRange t.
Proof.
  exists (mkTime 99 99 99). split; [vm_compute; reflexivity | ].
  unfold inTimeOfDayRange. simpl. lia.
Qed.

(** C10, amended: every time value the time parser returns has hour,
    minute and second each between 0 and 99; the fields are one or two
    digits long and no range is checked. *)
Theorem parseTime_fields_bounded (val : option string) (t : TimeOfDay) :
  parseTime val = Some t ->
  0 <= h t <= 99 /\ 0 <= min t <= 99 /\ 0 <= sec t <= 99.
Proof. apply parseTime_caps_bound. Qed.

Lemma parseTime_fields_bounded_witness :
  0 <= h (mkTime 20 0 0) <= 99 /\ 0 <= min (mkTime 20 0 0) <= 99
  /\ 0 <= sec (mkTime 20 0 0) <= 99.
Proof.
  apply (parseTime_fields_bounded (Some "8 PM")). vm_compute. reflexivity.
Defined.

(** ** The weekday-pattern parser *)

Lemma parseDays_examples :
  parseDays (Some "MWF") = {[1; 3; 5]}
  /\ parseDays (Some "mwf") = {[1; 3; 5]}
  /\ parseDays (Some "M W F") = {[1; 3; 5]}
  /\ parseDays (Some "Mon Wed Fri") = {[1; 3; 5]}
  /\ parseDays (Some "Monday, Wednesday, Friday") = {[1; 3; 5]}
  /\ parseDays (Some "T R") = {[2; 4]}.
Proof. repeat split; vm_compute; reflexivity. Qed.

(** C2: at the input "TuTh" the weekday-pattern parser returns Tuesday
    alone, not {Tuesday, Thursday}: the scan of a pattern without spaces
    takes "TU" and then passes over "T" and "H". *)
Theorem parseDays_TuTh :
  parseDays (Some "TuTh") = {[2]} /\ parseDays (Some "TuTh") <> {[2; 4]}.
Proof.
  assert (E : parseDays (Some "TuTh") = {[2]}) by (vm_compute; reflexivity).
  split; [exact E | ]. rewrite E. intros H.
  assert (H4 : (4 : Z) ∈ ({[2; 4]} : gset Z)) by set_solver.
  rewrite <- H in H4. apply elem_of_singleton in H4. discriminate H4.
Qed.

(** ** The calendar document *)

Lemma split_line (a rest : string) :
  Js.includesChar LF a = false ->
  Js.split LF (a +:+ NL +:+ rest) = a :: Js.split LF rest.
Proof.
  induction a as [ | c a IH]; intros Hfree.
  - reflexivity.
  - simpl in Hfree. apply orb_false_iff in Hfree as [Hc Hfree].
    cbn [append Js.split]. rewrite Hc. rewrite (IH Hfree). reflexivity.
Qed.

(** The header lines when both the calendar name and the time zone hint
    are given. *)
Lemma buildICS_header_lines host events (calName tzHint : string) :
  Js.truthy calName = true -> Js.truthy tzHint = true ->
  Js.includesChar LF (icsEscape calName) = false ->
  exists rest,
    physicalLines (buildICS host events calName tzHint)
    = "BEGIN:VCALENDAR" :: "VERSION:2.0" :: "CALSCALE:GREGORIAN"
      :: "PRODID:-//GistTools//Workday Excel to iCal//EN"
      :: ("X-WR-CALNAME:" +:+ icsEscape calName) :: rest.
Proof.
  intros Hc Ht Hfree. unfold physicalLines, buildICS, icsHeader.
  rewrite Hc, Ht. rewrite !append_assoc.
  rewrite (split_line "BEGIN:VCALENDAR") by reflexivity.
  rewrite (split_line "VERSION:2.0") by reflexivity.
  rewrite (split_line "CALSCALE:GREGORIAN") by reflexivity.
  rewrite (split_line "PRODID:-//GistTools//Workday Excel to iCal//EN") by reflexivity.
  rewrite <- (append_assoc "X-WR-CALNAME:").
  rewrite (split_line ("X-WR-CALNAME:" +:+ icsEscape calName)) by exact Hfree.
  eauto.
Qed.

(** C6: with a calendar name of 80 characters, whatever the host and the
    events, the fifth line of the document is the calendar-name line, 93
    characters long and not folded: the header is not passed through
    [foldLines]. *)
Theorem buildICS_header_not_folded (host : Host) (events : list Event) :
  exists rest,
    physicalLines (buildICS host events (repeatChar 80 "a") "America/Vancouver")
    = "BEGIN:VCALENDAR" :: "VERSION:2.0" :: "CALSCALE:GREGORIAN"
      :: "PRODID:-//GistTools//Workday Excel to iCal//EN"
      :: ("X-WR-CALNAME:" +:+ repeatChar 80 "a") :: rest
    /\ String.length ("X-WR-CALNAME:" +:+ repeatChar 80 "a") = 93%nat
    /\ (lineLimit < String.length ("X-WR-CALNAME:" +:+ repeatChar 80 "a"))%nat.
Proof.
  destruct (buildICS_header_lines host events (repeatChar 80 "a") "America/Vancouver")
    as (rest & Hlines); [reflexivity | reflexivity | vm_compute; reflexivity | ].
  exists rest. split; [ | split; vm_compute; [reflexivity | lia]].
  rewrite Hlines. reflexivity.
Qed.

(** A summary of 150 characters in an event block: the continuation
    line of the folded SUMMARY line is 76 long. *)
Example buildICS_event_line_lengths :
  map String.length
    (physicalLines (buildICS sampleHost [sampleEvent (repeatChar 150 "a")] "" ""))
  = [15; 11; 18; 46; 12; 24; 24; 23; 21; 75; 76; 9; 10; 13; 0]%nat.
Proof. vm_compute. reflexivity. Qed.

(** Free text reaches the document escaped. *)
Example buildICS_escapes :
  physicalLines (buildICS sampleHost [sampleEvent "a,b;c\d"] "x;y" "") !! 10%nat
  = Some "SUMMARY:a\,b\;c\\d"
  /\ physicalLines (buildICS sampleHost [sampleEvent "a,b;c\d"] "x;y" "") !! 4%nat
     = Some "X-WR-CALNAME:x\;y".
Proof. split; vm_compute; reflexivity. Qed.

(** ** The conversion pass *)

Lemma firstMissing_found (mapped : gmap string string) (k : string) :
  forall keys,
    In k keys -> isMapped (mapped !! k) = false ->
    exists k', In k' keys /\ isMapped (mapped !! k') = false
               /\ firstMissing mapped keys = Some k'.
Proof.
  induction keys as [ | k0 keys IH]; intros Hin Hk; [destruct Hin | ].
  simpl. destruct (isMapped (mapped !! k0)) eqn:E0.
  - destruct Hin as [-> | Hin]; [congruence | ].
    destruct (IH Hin Hk) as (k' & Hin' & Hk' & Hf). eauto.
  - exists k0. auto.
Qed.

(** C7: when the field mapping lacks a required key (start date, end
    date, start time, end time or days pattern), the conversion ends with
    the configuration error of the first such key, whatever the rows are:
    no row is looked at and no document is produced. *)
Theorem handleGenerate_missing_mapping (host : Host)
    (mapped : gmap string string) (k : string) :
  In k req -> isMapped (mapped !! k) = false ->
  exists k',
    In k' req /\ isMapped (mapped !! k') = false
    /\ forall rows titleTemplate calendarName timezone,
         handleGenerate host mapped rows titleTemplate calendarName timezone
         = Failed ("Missing required mapping: " +:+ labelForKey k').
Proof.
  intros Hin Hk.
  destruct (firstMissing_found mapped k req Hin Hk) as (k' & Hin' & Hk' & Hf).
  exists k'. split; [exact Hin' | ]. split; [exact Hk' | ].
  intros rows titleTemplate calendarName timezone.
  unfold handleGenerate. rewrite Hf. reflexivity.
Qed.

Lemma handleGenerate_missing_mapping_witness :
  exists k',
    In k' req /\ isMapped (mappingWithoutEndTime !! k') = false
    /\ forall rows titleTemplate calendarName timezone,
         handleGenerate sampleHost mappingWithoutEndTime rows titleTemplate
           calendarName timezone
         = Failed ("Missing required mapping: " +:+ labelForKey k').
Proof.
  apply (handleGenerate_missing_mapping sampleHost mappingWithoutEndTime "endTimeField").
  - simpl. tauto.
  - vm_compute. reflexivity.
Defined.

Example handleGenerate_without_end_time (rows : list (gmap string string)) :
  handleGenerate sampleHost mappingWithoutEndTime rows defaultTemplate
    "Workday Schedule" "America/Vancouver"
  = Failed "Missing required mapping: End time".
Proof. reflexivity. Qed.

Section Rows.

Variable host : Host.
Variable mapped : gmap string string.
Variable titleTemplate : string.

(** The row loop, from any state of the two accumulators. *)
Lemma foldl_rowStep (rows : list (gmap string string)) :
  forall (i : nat) (events : list Event) (errors : list RowError),
    foldl (rowStep host mapped titleTemplate) (events, errors)
          (zip (seq i (length rows)) rows)
    = (events ++ flat_map (rowEvents host mapped titleTemplate) rows,
       errors ++ rowFailures host mapped titleTemplate i rows).
Proof.
  induction rows as [ | row rows IH]; intros i events errors.
  - simpl. rewrite !app_nil_r. reflexivity.
  - cbn [length seq zip zip_with foldl flat_map rowFailures].
    unfold rowStep at 2, rowEvents at 1. cbn [fst snd].
    destruct (processRow host mapped titleTemplate row) as [msg | evs].
    + rewrite IH. rewrite <- app_assoc. reflexivity.
    + rewrite IH. rewrite <- app_assoc. reflexivity.
Qed.

Lemma processRows_eq (rows : list (gmap string string)) :
  processRows host mapped titleTemplate rows
  = (flat_map (rowEvents host mapped titleTemplate) rows,
     rowFailures host mapped titleTemplate 0 rows).
Proof. unfold processRows. rewrite foldl_rowStep. reflexivity. Qed.

(** A row's [try] throws exactly when the row fails, and then with the
    one message. *)
Lemma processRow_fails (row : gmap string string) :
  (rowFails host mapped row ->
     processRow host mapped titleTemplate row = inl parseFailure)
  /\ (~ rowFails host mapped row ->
        exists evs, processRow host mapped titleTemplate row = inr evs).
Proof.
  unfold rowFails, processRow.
  destruct (parseDate _ _ (cell row (mapped !! "startDateField"))) as [sd | ];
    [ | split; [reflexivity | intros H; exfalso; apply H; auto]].
  destruct (parseDate _ _ (cell row (mapped !! "endDateField"))) as [ed | ];
    [ | split; [reflexivity | intros H; exfalso; apply H; auto]].
  destruct (parseTime (cell row (mapped !! "startTimeField"))) as [st | ];
    [ | split; [reflexivity | intros H; exfalso; apply H; auto]].
  destruct (parseTime (cell row (mapped !! "endTimeField"))) as [et | ];
    [ | split; [reflexivity | intros H; exfalso; apply H; auto 6]].
  destruct (decide (size (parseDays (cell row (mapped !! "daysField"))) = 0%nat))
    as [Hz | Hnz].
  - split; [reflexivity | ]. intros H. exfalso. apply H.
    apply size_empty_iff in Hz. apply leibniz_equiv in Hz. auto 6.
  - split; [ | eauto].
    intros [H | [H | [H | [H | H]]]]; try discriminate.
    rewrite H in Hnz. rewrite size_empty in Hnz. congruence.
Qed.

Lemma rowFailures_lookup (rows : list (gmap string string)) :
  forall (i j : nat) (row : gmap string string) (msg : string),
    rows !! i = Some row ->
    processRow host mapped titleTemplate row = inl msg ->
    mkRowError (Z.of_nat (j + i) + 1) msg
    ∈ rowFailures host mapped titleTemplate j rows.
Proof.
  induction rows as [ | r rows IH]; intros i j row msg Hi Hrow; [discriminate | ].
  destruct i as [ | i]; simpl in Hi.
  - injection Hi as ->. simpl. rewrite Hrow.
    replace (j + 0)%nat with j by lia. left.
  - simpl. replace (j + S i)%nat with (S j + i)%nat by lia.
    destruct (processRow host mapped titleTemplate r);
      [right | ]; eapply IH; eauto.
Qed.

End Rows.

(** C8: in any list of rows, a row whose date, time or days pattern does
    not parse, or whose weekday set is empty, gives no occurrence and is
    recorded in the side list with its 1-based position and the reason,
    and the run goes on: the events are those of all the rows in order, so
    a valid row of the same run gives its occurrences, and when there is
    at least one event and the required mappings are set the run
    succeeds. *)
Theorem handleGenerate_row_failures (host : Host) (mapped : gmap string string)
    (titleTemplate : string) (rows : list (gmap string string)) :
  processRows host mapped titleTemplate rows
  = (flat_map (rowEvents host mapped titleTemplate) rows,
     rowFailures host mapped titleTemplate 0 rows)
  /\ (forall i row,
        rows !! i = Some row -> rowFails host mapped row ->
        rowEvents host mapped titleTemplate row = []
        /\ mkRowError (Z.of_nat i + 1) parseFailure
           ∈ snd (processRows host mapped titleTemplate rows))
  /\ (forall row ev,
        row ∈ rows -> ev ∈ rowEvents host mapped titleTemplate row ->
        ev ∈ fst (processRows host mapped titleTemplate rows))
  /\ (forall calendarName timezone,
        firstMissing mapped req = None ->
        fst (processRows host mapped titleTemplate rows) <> [] ->
        exists ics fileName info,
          handleGenerate host mapped rows titleTemplate calendarName timezone
          = Generated ics fileName info
              (snd (processRows host mapped titleTemplate rows))).
Proof.
  split; [apply processRows_eq | ]. rewrite processRows_eq. cbn [fst snd].
  split; [ | split].
  - intros i row Hi Hfail.
    apply (proj1 (processRow_fails host mapped titleTemplate row)) in Hfail.
    split.
    + unfold rowEvents. rewrite Hfail. reflexivity.
    + apply (rowFailures_lookup host mapped titleTemplate rows i 0 row); assumption.
  - intros row ev Hrow Hev.
    apply list_elem_of_In, in_flat_map. exists row.
    split; apply list_elem_of_In; assumption.
  - intros calendarName timezone Hreq Hevents.
    unfold handleGenerate. rewrite Hreq, processRows_eq.
    destruct (flat_map _ rows) as [ | ev evs]; [congruence | ].
    eauto.
Qed.

Lemma handleGenerate_row_failures_witness :
  exists ics fileName info,
    handleGenerate sampleHost sampleMapping [sampleRow "Xyz"; sampleRow "MWF"]
      defaultTemplate "Workday Schedule" "America/Vancouver"
    = Generated ics fileName info
        (snd (processRows sampleHost sampleMapping defaultTemplate
                [sampleRow "Xyz"; sampleRow "MWF"])).
Proof.
  destruct (handleGenerate_row_failures sampleHost sampleMapping defaultTemplate
              [sampleRow "Xyz"; sampleRow "MWF"]) as (_ & _ & _ & Hrun).
  apply Hrun.
  - vm_compute. reflexivity.
  - vm_compute. discriminate.
Defined.

(** The unparseable-row scenario: the row with days pattern "Xyz" is
    recorded as row 1, the valid row gives its six events. *)
Example handleGenerate_scenario :
  snd (processRows sampleHost sampleMapping defaultTemplate
         [sampleRow "Xyz"; sampleRow "MWF"])
  = [mkRowError 1 parseFailure]
  /\ map (fun ev => (summary ev, icsDateTimeLocal utc (dtStart ev),
                      icsDateTimeLocal utc (dtEnd ev)))
       (fst (processRows sampleHost sampleMapping defaultTemplate
               [sampleRow "Xyz"; sampleRow "MWF"]))
     = [ ("CS 101 LEC 001", "20250106T100000", "20250106T105000");
         ("CS 101 LEC 001", "20250108T100000", "20250108T105000");
         ("CS 101 LEC 001", "20250110T100000", "20250110T105000");
         ("CS 101 LEC 001", "20250113T100000", "20250113T105000");
         ("CS 101 LEC 001", "20250115T100000", "20250115T105000");
         ("CS 101 LEC 001", "20250117T100000", "20250117T105000") ].
Proof. split; vm_compute; reflexivity. Qed.

(** ** Title resolution *)

Lemma GetSubstitution_dollarFree (matched before after v : string) :
  dollarFree v -> GetSubstitution matched before after v = v.
Proof.
  unfold dollarFree. induction v as [ | c v IH]; intros Hfree; [reflexivity | ].
  simpl in Hfree. apply orb_false_iff in Hfree as [Hc Hfree].
  cbn [GetSubstitution]. rewrite Hc. rewrite (IH Hfree). reflexivity.
Qed.

(** With no [$] in the replacement, [replaceAll] puts the replacement
    in as it is. *)
Lemma replaceAllFrom_literal (pat v whole : string) :
  dollarFree v ->
  forall (s : string) (skip pos : nat),
    replaceAllFrom pat v whole skip pos s = substituteToken pat v skip s.
Proof.
  intros Hfree. induction s as [ | c s IH]; intros skip pos; [reflexivity | ].
  cbn [replaceAllFrom substituteToken].
  destruct skip as [ | k]; [ | apply IH].
  destruct (Js.startsWith pat (String c s)).
  - rewrite GetSubstitution_dollarFree by exact Hfree. rewrite IH. reflexivity.
  - rewrite IH. reflexivity.
Qed.

Lemma replaceAll_literal (pat v s : string) :
  dollarFree v -> replaceAll pat v s = substituteToken pat v 0 s.
Proof. intros Hfree. unfold replaceAll. apply replaceAllFrom_literal, Hfree. Qed.

Lemma buildSummary_nonempty (mapped row : gmap string string) (titleTemplate : string) :
  Js.truthy (buildSummary mapped row titleTemplate) = true.
Proof.
  unfold buildSummary.
  match goal with |- context [if Js.truthy ?t then _ else _] =>
    destruct (Js.truthy t) eqn:E end; [exact E | reflexivity].
Qed.

(** C9, as stated, fails: with the template "{Course}" and a course
    column that holds the text "{Section}", the code goes on to
    substitute the section into the text the course brought in, where
    independent substitution leaves it. *)
Lemma buildSummary_not_independent :
  buildSummary tokenInValueMapping tokenInValueRow "{Course}" = "001"
  /\ titleAsSpecified tokenInValueMapping tokenInValueRow "{Course}" = "{Section}"
  /\ buildSummary tokenInValueMapping tokenInValueRow "{Course}"
     <> titleAsSpecified tokenInValueMapping tokenInValueRow "{Course}".
Proof.
  assert (E1 : buildSummary tokenInValueMapping tokenInValueRow "{Course}" = "001")
    by (vm_compute; reflexivity).
  assert (E2 : titleAsSpecified tokenInValueMapping tokenInValueRow "{Course}"
               = "{Section}") by (vm_compute; reflexivity).
  rewrite E1, E2. repeat split. discriminate.
Qed.

(** C9, amended: if a title column is mapped, the summary is that
    column's trimmed text and the template is ignored; otherwise the tokens
    {Course}, {Component} and {Section} are substituted one after the
    other, in this order, each over the whole text the step before left,
    with the trimmed text of the mapped column (taken as it is when it
    holds no dollar sign), runs of white space are collapsed to one space
    and the result is trimmed; an empty title gives "Class", so the
    summary is never empty. *)
Theorem buildSummary_in_sequence (mapped row : gmap string string)
    (titleTemplate : string) :
  (isMapped (mapped !! "titleField") = true ->
     buildSummary mapped row titleTemplate
     = if Js.truthy (cellText (cell row (mapped !! "titleField")))
       then cellText (cell row (mapped !! "titleField")) else "Class")
  /\ (isMapped (mapped !! "titleField") = false ->
      dollarFree (cellText (cell row (mapped !! "courseField"))) ->
      dollarFree (cellText (cell row (mapped !! "componentField"))) ->
      dollarFree (cellText (cell row (mapped !! "sectionField"))) ->
      buildSummary mapped row titleTemplate
      = titleInSequence mapped row titleTemplate)
  /\ Js.truthy (buildSummary mapped row titleTemplate) = true.
Proof.
  split; [ | split; [ | apply buildSummary_nonempty]].
  - intros Htitle. unfold buildSummary. rewrite Htitle. reflexivity.
  - intros Htitle Hc Hk Hs. unfold buildSummary, titleInSequence.
    rewrite Htitle. rewrite !replaceAll_literal by assumption. reflexivity.
Qed.

Lemma buildSummary_in_sequence_witness :
  buildSummary sampleMapping (sampleRow "MWF") defaultTemplate
  = titleInSequence sampleMapping (sampleRow "MWF") defaultTemplate.
Proof.
  apply (buildSummary_in_sequence sampleMapping (sampleRow "MWF") defaultTemplate);
    vm_compute; reflexivity.
Defined.

Example buildSummary_scenario :
  buildSummary sampleMapping (sampleRow "MWF") defaultTemplate = "CS 101 LEC 001".
Proof. vm_compute. reflexivity. Qed.

Example buildSummary_empty_title :
  buildSummary sampleMapping ∅ defaultTemplate = "Class".
Proof. vm_compute. reflexivity. Qed.

(** * Properties of the further functions *)

(** ** The matcher finds every match *)

(** Whenever the pattern derives a state on which the continuation
    succeeds, the matcher succeeds; for a star, with any fuel that covers
    the input left. *)
Lemma Matches_run r st st' :
  Matches r st st' ->
  (forall k, k st' <> None -> run r st k <> None)
  /\ (forall r1 k n,
        r = Star r1 -> (remaining st <= n)%nat -> k st' <> None ->
        starLoop (run r1) k n st <> None).
Proof.
  induction 1 as
    [ st | p c s' pr cs Hp | r1 r2 st st1 st2 H1 IH1 H2 IH2
    | r1 r2 st st1 H1 IH1 | r1 r2 st st1 H1 IH1
    | r st st1 H1 IH1 Hprog | r st | r st
    | r st st1 st2 H1 IH1 Hprog H2 IH2
    | n r st st1 H1 IH1 | st Hx | st Hp | st Hr ].
  - split; [intros k Hk; exact Hk | discriminate].
  - split; [ | discriminate]. intros k Hk. simpl. rewrite Hp. exact Hk.
  - split; [ | discriminate]. intros k Hk. simpl.
    apply (proj1 IH1). apply (proj1 IH2). exact Hk.
  - split; [ | discriminate]. intros k Hk. simpl.
    destruct (run r1 st k) eqn:E; [discriminate | ].
    exfalso. exact (proj1 IH1 k Hk E).
  - split; [ | discriminate]. intros k Hk. simpl.
    destruct (run r1 st k) eqn:E; [discriminate | ].
    apply (proj1 IH1). exact Hk.
  - split; [ | discriminate]. intros k Hk. simpl.
    destruct (run r st _) eqn:E; [discriminate | ].
    exfalso. revert E. apply (proj1 IH1). rewrite Hprog. exact Hk.
  - split; [ | discriminate]. intros k Hk. simpl.
    destruct (run r st _); [discriminate | exact Hk].
  - assert (Hloop : forall k n, k st <> None -> starLoop (run r) k n st <> None).
    { intros k n Hk. destruct n as [ | n]; simpl; [exact Hk | ].
      destruct (run r st _); [discriminate | exact Hk]. }
    split.
    + intros k Hk. rewrite run_Star. apply Hloop, Hk.
    + intros r1 k n [= <-] _ Hk. apply Hloop, Hk.
  - assert (Hloop : forall k n, (remaining st <= n)%nat -> k st2 <> None ->
                                starLoop (run r) k n st <> None).
    { intros k n Hn Hk.
      assert (Hlt : (remaining st1 < remaining st)%nat).
      { unfold progress in Hprog. apply Nat.ltb_lt in Hprog. exact Hprog. }
      destruct n as [ | n]; [lia | ]. simpl.
      destruct (run r st _) eqn:E; [discriminate | ].
      exfalso. revert E. apply (proj1 IH1). rewrite Hprog.
      apply (proj2 IH2 r k n eq_refl); [lia | exact Hk]. }
    split.
    + intros k Hk. rewrite run_Star. apply Hloop; [lia | exact Hk].
    + intros r1 k n [= <-] Hn Hk. apply Hloop; assumption.
  - split; [ | discriminate]. intros k Hk. simpl.
    apply (proj1 IH1). exact Hk.
  - split; [ | discriminate]. intros k Hk. simpl. rewrite Hx. exact Hk.
  - split; [ | discriminate]. intros k Hk. simpl. rewrite Hp. exact Hk.
  - split; [ | discriminate]. intros k Hk. simpl. rewrite Hr. exact Hk.
Qed.

Lemma matchAt_complete r p s st :
  Matches r (MState p s ∅) st -> matchAt r p s <> None.
Proof.
  intros HM. unfold matchAt. apply (proj1 (Matches_run _ _ _ HM)). discriminate.
Qed.

(** The matcher succeeds at a position exactly when the pattern derives
    some state from it. *)
Lemma matchAt_iff r p s :
  matchAt r p s <> None <-> exists st, Matches r (MState p s ∅) st.
Proof.
  split.
  - destruct (matchAt r p s) as [st | ] eqn:E; [ | congruence].
    intros _. exists st. apply matchAt_sound, E.
  - intros [st HM]. eapply matchAt_complete, HM.
Qed.

Lemma searchFrom_position r :
  forall s p before b m st,
    searchFrom r p before s = Some (b, m, st) ->
    exists p' s', AtOrAfter p s p' s' /\ matchAt r p' s' = Some st.
Proof.
  induction s as [ | c s IH]; intros p before b m st H; simpl in H.
  - destruct (matchAt r p "") as [st0 | ] eqn:E; [ | discriminate].
    inversion H; subst. exists p, "". split; [constructor | exact E].
  - destruct (matchAt r p (String c s)) as [st0 | ] eqn:E.
    + inversion H; subst. exists p, (String c s). split; [constructor | exact E].
    + apply IH in H as (p' & s' & Hpos & HM).
      exists p', s'. split; [constructor; exact Hpos | exact HM].
Qed.

Lemma searchFrom_hit r p s p' s' :
  AtOrAfter p s p' s' -> matchAt r p' s' <> None ->
  forall before, searchFrom r p before s <> None.
Proof.
  induction 1 as [p s | p c s p' s' Hpos IH]; intros HM before.
  - destruct s as [ | c s]; simpl;
      destruct (matchAt r p _); try discriminate; congruence.
  - simpl. destruct (matchAt r p (String c s)); [discriminate | ].
    apply IH, HM.
Qed.

(** A pattern matches somewhere in a text exactly when it derives a
    state from one of the text's positions. *)
Lemma exec_iff r s :
  exec r s <> None <->
  exists p' s' st, AtOrAfter None s p' s' /\ Matches r (MState p' s' ∅) st.
Proof.
  unfold exec. split.
  - destruct (searchFrom r None "" s) as [[[b m] st] | ] eqn:E; [ | congruence].
    intros _. apply searchFrom_position in E as (p' & s' & Hpos & HM).
    exists p', s', st. split; [exact Hpos | apply matchAt_sound, HM].
  - intros (p' & s' & st & Hpos & HM).
    pose proof (searchFrom_hit r None s p' s' Hpos (matchAt_complete _ _ _ _ HM) "") as H.
    destruct (searchFrom r None "" s) as [[[b m] st0] | ]; congruence.
Qed.

Lemma inv_Opt_progress r st st' :
  Matches (Opt r) st st' -> st' = st \/ (Matches r st st' /\ progress st st' = true).
Proof. inversion 1; subst; eauto. Qed.

Lemma class_remaining p st st' :
  Matches (Class p) st st' -> remaining st = S (remaining st').
Proof.
  intros H. apply inv_Class in H as (c & _ & Hr & _).
  unfold remaining. rewrite Hr. reflexivity.
Qed.

(** A literal that is not empty uses up input. *)
Lemma lit_progress c s st st' :
  Matches (Lit (String c s)) st st' -> (remaining st' < remaining st)%nat.
Proof.
  simpl. intros H. apply inv_Cat in H as (st1 & H1 & H2).
  apply class_remaining in H1. apply Matches_remaining in H2. lia.
Qed.

(** ** The second pattern of [parseTime] *)

(** What the second time pattern matches, the first matches too. *)
Lemma timePatternB_A st0 st :
  Matches timePatternB st0 st -> exists st', Matches timePatternA st0 st'.
Proof.
  unfold timePatternB, timePatternA. intros H.
  apply inv_Cat in H as (s0 & H0 & H).
  apply inv_Cat in H as (s1 & H1 & H).
  apply inv_Cat in H as (s2 & H2 & H).
  apply inv_Cat in H as (s3 & H3 & H).
  apply inv_Cat in H as (s4 & H4 & H5).
  exists st.
  apply M_Cat with s0; [exact H0 | ].
  apply M_Cat with s1; [exact H1 | ].
  apply M_Cat with s3.
  { apply M_OptSome; [eapply M_Cat; eassumption | ].
    apply progress_lt. apply lit_progress in H2.
    apply Matches_remaining in H3. lia. }
  apply M_Cat with s4; [exact H4 | ].
  apply M_Cat with s4; [apply M_StarNil | ].
  apply M_Cat with s4; [apply M_OptNone | exact H5].
Qed.

Lemma timePatternB_none (s : string) :
  exec timePatternA s = None -> exec timePatternB s = None.
Proof.
  intros HA. destruct (exec timePatternB s) as [m | ] eqn:HB; [ | reflexivity].
  exfalso. apply (proj2 (exec_iff timePatternA s)); [ | exact HA].
  assert (HB' : exec timePatternB s <> None) by congruence.
  apply exec_iff in HB' as (p' & s' & st & Hpos & HM).
  apply timePatternB_A in HM as (st' & HM'). eauto.
Qed.

(** X1: the second pattern of the time parser never decides: a text the
    first pattern does not match is not matched by the second either, so
    every value [parseTime] returns comes from its first branch. *)
Theorem parseTime_second_pattern_unreachable :
  (forall s, exec timePatternA s = None -> exec timePatternB s = None)
  /\ (forall v t,
        parseTime (Some v) = Some t ->
        exec timePatternA (Js.toUpperCase (Js.trim v)) <> None).
Proof.
  split; [exact timePatternB_none | ].
  intros v t H HA. unfold parseTime in H.
  destruct (negb (Js.truthy v)); [discriminate | ].
  destruct (negb (Js.truthy (Js.trim v))); [discriminate | ].
  rewrite HA, (timePatternB_none _ HA) in H. discriminate.
Qed.

Lemma parseTime_second_pattern_unreachable_witness :
  exec timePatternB "7:5" = None.
Proof.
  apply (proj1 parseTime_second_pattern_unreachable). vm_compute. reflexivity.
Defined.

(** ** Blank cells, case and surrounding white space *)

Lemma isWhiteSpace_upperChar c : Js.isWhiteSpace (Js.upperChar c) = Js.isWhiteSpace c.
Proof. ascii_cases c. Qed.

Lemma upperChar_idem c : Js.upperChar (Js.upperChar c) = Js.upperChar c.
Proof. ascii_cases c. Qed.

Lemma upperChar_lowerChar c : Js.upperChar (Js.lowerChar c) = Js.upperChar c.
Proof. ascii_cases c. Qed.

Lemma toUpperCase_idem s : Js.toUpperCase (Js.toUpperCase s) = Js.toUpperCase s.
Proof.
  induction s as [ | c s IH]; simpl; [reflexivity | ].
  rewrite upperChar_idem, IH. reflexivity.
Qed.

Lemma toUpperCase_toLowerCase s : Js.toUpperCase (Js.toLowerCase s) = Js.toUpperCase s.
Proof.
  induction s as [ | c s IH]; simpl; [reflexivity | ].
  rewrite upperChar_lowerChar, IH. reflexivity.
Qed.

Lemma trimStart_toUpperCase s :
  Js.trimStart (Js.toUpperCase s) = Js.toUpperCase (Js.trimStart s).
Proof.
  induction s as [ | c s IH]; simpl; [reflexivity | ].
  rewrite isWhiteSpace_upperChar. destruct (Js.isWhiteSpace c); [exact IH | reflexivity].
Qed.

Lemma trimEnd_toUpperCase s :
  Js.trimEnd (Js.toUpperCase s) = Js.toUpperCase (Js.trimEnd s).
Proof.
  induction s as [ | c s IH]; simpl; [reflexivity | ].
  rewrite IH, isWhiteSpace_upperChar.
  destruct (Js.trimEnd s) as [ | c' r]; simpl; [ | reflexivity].
  destruct (Js.isWhiteSpace c); reflexivity.
Qed.

Lemma trim_toUpperCase s : Js.trim (Js.toUpperCase s) = Js.toUpperCase (Js.trim s).
Proof. unfold Js.trim. rewrite trimStart_toUpperCase, trimEnd_toUpperCase. reflexivity. Qed.

Lemma trimStart_blank s : isBlank s = true -> Js.trimStart s = "".
Proof.
  unfold isBlank. induction s as [ | c s IH]; simpl; [reflexivity | ].
  intros H. apply andb_true_iff in H as [Hc Hs]. rewrite Hc. apply IH, Hs.
Qed.

Lemma trim_blank s : isBlank s = true -> Js.trim s = "".
Proof. intros H. unfold Js.trim. rewrite trimStart_blank by exact H. reflexivity. Qed.

(** X2: a cell that is absent, empty or made of white space only is
    unparseable for each of the three field parsers: no date, no time,
    and the empty weekday set. *)
Theorem blank_cell_unparseable (tz : Zone) (hostParse : string -> option Date)
    (val : option string) :
  blankCell val ->
  parseDate tz hostParse val = None /\ parseTime val = None /\ parseDays val = ∅.
Proof.
  destruct val as [v | ]; [ | intros _; repeat split; reflexivity].
  unfold blankCell. intros Hb. apply trim_blank in Hb.
  unfold parseDate, parseTime, parseDays.
  destruct (negb (Js.truthy v)); [repeat split; reflexivity | ].
  rewrite Hb. repeat split; reflexivity.
Qed.

Lemma blank_cell_unparseable_witness :
  parseDate pacific2025 (fun _ => None) (Some "   ") = None
  /\ parseTime (Some "   ") = None /\ parseDays (Some "   ") = ∅.
Proof. apply blank_cell_unparseable. reflexivity. Defined.

Lemma truthy_toUpperCase s : Js.truthy (Js.toUpperCase s) = Js.truthy s.
Proof. destruct s; reflexivity. Qed.

Lemma truthy_trim_false v : Js.truthy v = false -> Js.truthy (Js.trim v) = false.
Proof. destruct v; [reflexivity | discriminate]. Qed.

Lemma truthy_normalized v w :
  normalized v = normalized w -> Js.truthy (Js.trim v) = Js.truthy (Js.trim w).
Proof.
  unfold normalized. intros E.
  rewrite <- (truthy_toUpperCase (Js.trim v)), <- (truthy_toUpperCase (Js.trim w)), E.
  reflexivity.
Qed.

(** X3: the time parser and the weekday-pattern parser ignore letter
    case and surrounding white space: two cells with the same trimmed,
    upper-case text get the same time and the same weekday set. *)
Theorem parsers_ignore_case_and_margins (v w : string) :
  normalized v = normalized w ->
  parseTime (Some v) = parseTime (Some w)
  /\ parseDays (Some v) = parseDays (Some w).
Proof.
  intros E. pose proof (truthy_normalized v w E) as Ht.
  pose proof (truthy_trim_false v) as Hv. pose proof (truthy_trim_false w) as Hw.
  unfold normalized in E. unfold parseTime, parseDays. cbv zeta.
  destruct (Js.truthy v), (Js.truthy w);
    destruct (Js.truthy (Js.trim v)), (Js.truthy (Js.trim w));
    cbn [negb]; try discriminate; try (rewrite E); try (split; reflexivity);
    try (specialize (Hv eq_refl); discriminate);
    try (specialize (Hw eq_refl); discriminate).
Qed.

Lemma parsers_ignore_case_and_margins_witness :
  parseTime (Some "  8 pm ") = parseTime (Some "8 PM")
  /\ parseDays (Some "  8 pm ") = parseDays (Some "8 PM").
Proof. apply parsers_ignore_case_and_margins. vm_compute. reflexivity. Defined.

(** ** The weekday set *)

Lemma addWeekday_range (set : gset Z) (t : string) :
  (forall d, d ∈ set -> 0 <= d <= 6) ->
  forall d, d ∈ addWeekday set t -> 0 <= d <= 6.
Proof.
  intros Hset d. unfold addWeekday.
  repeat (destruct (String.eqb t _);
          [rewrite elem_of_union, elem_of_singleton; intros [-> | H];
             [lia | exact (Hset d H)] | ]).
  apply Hset.
Qed.

Lemma foldl_addWeekday_range (tokens : list string) :
  forall set : gset Z,
    (forall d, d ∈ set -> 0 <= d <= 6) ->
    forall d, d ∈ foldl addWeekday set tokens -> 0 <= d <= 6.
Proof.
  induction tokens as [ | t tokens IH]; intros set Hset; [exact Hset | ].
  simpl. apply IH. apply addWeekday_range, Hset.
Qed.

(** X4: whatever the cell holds, the weekday set the parser returns
    has only the identifiers 0 (Sunday) to 6 (Saturday). *)
Theorem parseDays_range (val : option string) (d : Z) :
  d ∈ parseDays val -> 0 <= d <= 6.
Proof.
  assert (Hempty : forall d : Z, d ∈ (∅ : gset Z) -> 0 <= d <= 6).
  { intros d' H. exfalso. exact (not_elem_of_empty _ H). }
  unfold parseDays. destruct val as [v | ]; [ | apply Hempty].
  destruct (negb (Js.truthy v)); [apply Hempty | ].
  destruct (negb (Js.truthy (Js.trim v))); [apply Hempty | ].
  cbv zeta. apply foldl_addWeekday_range, Hempty.
Qed.

Lemma parseDays_range_witness : 0 <= 4 <= 6.
Proof.
  apply (parseDays_range (Some "T R") 4). vm_compute. reflexivity.
Defined.
(** ** Rebuilding a date from its fields *)

(** X5: outside the years 0 to 99, building a date again from the year,
    the month and the day of the month of a date gives the midnight of the
    same local day, and building it with a time of day gives that midnight
    plus the time, a time of 24 hours or more running over into the next
    days; the month read from a date is from 0 to 11 and the day from 1 to
    31.  This holds in every time zone. *)
Theorem rebuild_date (tz : Zone) (date : Date) (t : TimeOfDay) :
  (0 <= getMonth tz date <= 11 /\ 1 <= getDate tz date <= 31)
  /\ (~ 0 <= getFullYear tz date <= 99 ->
      newDate tz (getFullYear tz date) (getMonth tz date) (getDate tz date) 0 0 0
      = atLocal tz (localDay tz date * 86400)
      /\ newDate tz (getFullYear tz date) (getMonth tz date) (getDate tz date)
           (h t) (min t) (sec t)
         = atLocal tz (localDay tz date * 86400 + secondsOf t)).
Proof.
  split; [apply fields_range | ].
  intros Hy. split.
  - rewrite newDate_fields by exact Hy. f_equal. lia.
  - apply newDate_fields, Hy.
Qed.

Lemma rebuild_date_witness :
  newDate pacific2025 (getFullYear pacific2025 (mkDate 1736164800))
    (getMonth pacific2025 (mkDate 1736164800))
    (getDate pacific2025 (mkDate 1736164800)) 0 0 0
  = atLocal pacific2025 (localDay pacific2025 (mkDate 1736164800) * 86400)
  /\ newDate pacific2025 (getFullYear pacific2025 (mkDate 1736164800))
       (getMonth pacific2025 (mkDate 1736164800))
       (getDate pacific2025 (mkDate 1736164800)) (h (mkTime 10 50 0))
       (min (mkTime 10 50 0)) (sec (mkTime 10 50 0))
     = atLocal pacific2025
         (localDay pacific2025 (mkDate 1736164800) * 86400 + secondsOf (mkTime 10 50 0)).
Proof.
  apply (rebuild_date pacific2025 (mkDate 1736164800) (mkTime 10 50 0)).
  vm_compute. intros [_ H]. apply H. reflexivity.
Defined.

(** ** Combining a date and a time of day *)

Lemma fields_of_seconds (n : Z) (t : TimeOfDay) :
  inTimeOfDayRange t ->
  Day (n * 86400 + secondsOf t) = n
  /\ HourFromTime (n * 86400 + secondsOf t) = h t
  /\ MinFromTime (n * 86400 + secondsOf t) = min t
  /\ SecFromTime (n * 86400 + secondsOf t) = sec t.
Proof.
  unfold inTimeOfDayRange, secondsOf. intros (Hh & Hm & Hs).
  assert (Hsmall : 0 <= h t * 3600 + min t * 60 + sec t < 86400) by lia.
  unfold HourFromTime, MinFromTime, SecFromTime.
  rewrite Day_midnight, TimeWithinDay_midnight by exact Hsmall.
  repeat split.
  - symmetry. apply (Z.div_unique _ 3600 _ (min t * 60 + sec t)); lia.
  - replace ((h t * 3600 + min t * 60 + sec t) / 60) with (h t * 60 + min t).
    + symmetry. apply (Z.mod_unique _ 60 (h t) (min t)); lia.
    + apply (Z.div_unique _ 60 _ (sec t)); lia.
  - symmetry. apply (Z.mod_unique _ 60 (h t * 60 + min t) (sec t)); lia.
Qed.

(** X6: for a date outside the years 0 to 99 and a time of day that the
    zone does not skip on the date's local day, the instant built from
    the date and the time reads, in local time, as the midnight of that
    day plus the seconds of the time; for a time within the TimeOfDay
    ranges it is on the same local day and reads back as that hour, minute
    and second. *)
Theorem combineDateTime_instant (tz : Zone) (date : Date) (t : TimeOfDay) :
  ~ 0 <= getFullYear tz date <= 99 ->
  keepsLocal tz (localDay tz date * 86400 + secondsOf t) ->
  localValue tz (combineDateTime tz date t) = localDay tz date * 86400 + secondsOf t
  /\ (inTimeOfDayRange t ->
      localDay tz (combineDateTime tz date t) = localDay tz date
      /\ getHours tz (combineDateTime tz date t) = h t
      /\ getMinutes tz (combineDateTime tz date t) = min t
      /\ getSeconds tz (combineDateTime tz date t) = sec t).
Proof.
  intros Hy Hkeep.
  assert (E : localValue tz (combineDateTime tz date t)
              = localDay tz date * 86400 + secondsOf t).
  { rewrite combineDateTime_atLocal by exact Hy. apply localValue_atLocal, Hkeep. }
  split; [exact E | ]. intros Hr.
  unfold localDay at 1. unfold getHours, getMinutes, getSeconds. rewrite E.
  apply fields_of_seconds, Hr.
Qed.

Lemma combineDateTime_instant_witness :
  localDay pacific2025 (combineDateTime pacific2025 (mkDate 1741507200) (mkTime 10 50 0))
  = localDay pacific2025 (mkDate 1741507200)
  /\ getHours pacific2025 (combineDateTime pacific2025 (mkDate 1741507200) (mkTime 10 50 0))
     = h (mkTime 10 50 0)
  /\ getMinutes pacific2025 (combineDateTime pacific2025 (mkDate 1741507200) (mkTime 10 50 0))
     = min (mkTime 10 50 0)
  /\ getSeconds pacific2025 (combineDateTime pacific2025 (mkDate 1741507200) (mkTime 10 50 0))
     = sec (mkTime 10 50 0).
Proof.
  apply (combineDateTime_instant pacific2025 (mkDate 1741507200) (mkTime 10 50 0)).
  - vm_compute. intros [_ H]. apply H. reflexivity.
  - vm_compute. reflexivity.
  - unfold inTimeOfDayRange. simpl. lia.
Defined.

(** Both conditions are needed.  In Pacific time 02:30 does not exist
    on 2025-03-09 and the instant built for it reads 03:30; and a date of
    the year 50 is combined into the year 1950. *)
Example combineDateTime_skipped_time :
  icsDateTimeLocal pacific2025
    (combineDateTime pacific2025 (newDate pacific2025 2025 2 9 0 0 0) (mkTime 2 30 0))
  = "20250309T033000".
Proof. vm_compute. reflexivity. Qed.

Example combineDateTime_year_50 :
  icsDateTimeLocal utc (mkDate (-60589123200)) = "500103T000000"
  /\ icsDateTimeLocal utc (combineDateTime utc (mkDate (-60589123200)) (mkTime 10 0 0))
     = "19500103T100000".
Proof. split; vm_compute; reflexivity. Qed.

(** ** The 8-digit date pattern *)

Lemma digit_not_sep c : Js.isDigit c = true -> isDateSep c = false.
Proof.
  destruct c as [[ | ] [ | ] [ | ] [ | ] [ | ] [ | ] [ | ] [ | ]];
    (reflexivity || discriminate).
Qed.

Lemma digit_not_space c : Js.isDigit c = true -> Js.isWhiteSpace c = false.
Proof.
  destruct c as [[ | ] [ | ] [ | ] [ | ] [ | ] [ | ] [ | ] [ | ]];
    (reflexivity || discriminate).
Qed.

(** The matcher run on a date text whose digits are not known: the
    tests on the digits are kept folded and decided by the hypotheses. *)
Lemma dateText_exec (y1 y2 y3 y4 m1 m2 d1 d2 : ascii) (s1 s2 : string) :
  Js.isDigit y1 = true -> Js.isDigit y2 = true ->
  Js.isDigit y3 = true -> Js.isDigit y4 = true ->
  Js.isDigit m1 = true -> Js.isDigit m2 = true ->
  Js.isDigit d1 = true -> Js.isDigit d2 = true ->
  In s1 [""; "-"; "/"] -> In s2 [""; "-"; "/"] ->
  Js.trim (dateText y1 y2 y3 y4 m1 m2 d1 d2 s1 s2)
  = dateText y1 y2 y3 y4 m1 m2 d1 d2 s1 s2
  /\ exec datePattern (dateText y1 y2 y3 y4 m1 m2 d1 d2 s1 s2)
     = Some (<[3%nat := String d1 (String d2 "")]>
              (<[2%nat := String m1 (String m2 "")]>
                (<[1%nat := String y1 (String y2 (String y3 (String y4 "")))]> ∅))).
Proof.
  intros Hy1 Hy2 Hy3 Hy4 Hm1 Hm2 Hd1 Hd2 Hs1 Hs2.
  pose proof (digit_not_sep _ Hm1) as Hsm1.
  pose proof (digit_not_sep _ Hd1) as Hsd1.
  pose proof (digit_not_space _ Hy1) as Hwy1.
  pose proof (digit_not_space _ Hd2) as Hwd2.
  assert (Hsep1 : isDateSep "-" = true) by reflexivity.
  assert (Hsep2 : isDateSep "/" = true) by reflexivity.
  simpl in Hs1, Hs2. unfold dateText.
  destruct Hs1 as [<- | [<- | [<- | []]]]; destruct Hs2 as [<- | [<- | [<- | []]]];
    (split;
     [ lazy -[Js.isWhiteSpace]; rewrite ?Hwy1, ?Hwd2; lazy -[Js.isWhiteSpace];
       reflexivity
     | lazy -[Js.isDigit isDateSep insert];
       rewrite ?Hy1, ?Hy2, ?Hy3, ?Hy4, ?Hm1, ?Hm2, ?Hd1, ?Hd2, ?Hsm1, ?Hsd1,
         ?Hsep1, ?Hsep2;
       lazy -[Js.isDigit isDateSep insert]; reflexivity ]).
Qed.

Lemma isDigits_2 s :
  isDigits 2 s = true ->
  exists a b, s = String a (String b "")
              /\ Js.isDigit a = true /\ Js.isDigit b = true.
Proof.
  unfold isDigits. intros H. apply andb_true_iff in H as [Hl He].
  destruct s as [ | a [ | b [ | c s]]]; try discriminate.
  simpl in He. rewrite !andb_true_iff in He. destruct He as (Ha & Hb & _). eauto.
Qed.

Lemma isDigits_4 s :
  isDigits 4 s = true ->
  exists a b c d, s = String a (String b (String c (String d "")))
                  /\ Js.isDigit a = true /\ Js.isDigit b = true
                  /\ Js.isDigit c = true /\ Js.isDigit d = true.
Proof.
  unfold isDigits. intros H. apply andb_true_iff in H as [Hl He].
  destruct s as [ | a [ | b [ | c [ | d [ | e s]]]]]; try discriminate.
  simpl in He. rewrite !andb_true_iff in He.
  destruct He as (Ha & Hb & Hc & Hd & _). exists a, b, c, d. auto.
Qed.

(** X7: when the host's date parser rejects it, a text of four year
    digits, two month digits and two day digits, with "-", "/" or nothing
    between them, parses to the date built from these three numbers (the
    month counted from 0), at midnight; the numbers are not checked, so
    that a month 00 or 13 or a day 00 or 32 runs over into the neighbouring
    month, and a year 0000 to 0099 means 1900 to 1999. *)
Theorem parseDate_eight_digits (tz : Zone) (hostParse : string -> option Date)
    (Y M D s1 s2 : string) :
  isDigits 4 Y = true -> isDigits 2 M = true -> isDigits 2 D = true ->
  In s1 [""; "-"; "/"] -> In s2 [""; "-"; "/"] ->
  hostParse (Y +:+ s1 +:+ M +:+ s2 +:+ D) = None ->
  parseDate tz hostParse (Some (Y +:+ s1 +:+ M +:+ s2 +:+ D))
  = Some (newDate tz (Js.Number Y) (Js.Number M - 1) (Js.Number D) 0 0 0).
Proof.
  intros HY HM HD Hs1 Hs2.
  apply isDigits_4 in HY as (y1 & y2 & y3 & y4 & -> & Hy1 & Hy2 & Hy3 & Hy4).
  apply isDigits_2 in HM as (m1 & m2 & -> & Hm1 & Hm2).
  apply isDigits_2 in HD as (d1 & d2 & -> & Hd1 & Hd2).
  change (String y1 (String y2 (String y3 (String y4 ""))) +:+ s1
          +:+ String m1 (String m2 "") +:+ s2 +:+ String d1 (String d2 ""))
    with (dateText y1 y2 y3 y4 m1 m2 d1 d2 s1 s2).
  destruct (dateText_exec y1 y2 y3 y4 m1 m2 d1 d2 s1 s2) as [Htrim Hexec];
    try assumption.
  intros Hhost. unfold parseDate.
  change (Js.truthy (dateText y1 y2 y3 y4 m1 m2 d1 d2 s1 s2)) with true.
  rewrite Htrim.
  change (Js.truthy (dateText y1 y2 y3 y4 m1 m2 d1 d2 s1 s2)) with true.
  cbn [negb]. rewrite Hhost, Hexec. cbv zeta.
  rewrite lookup_insert_ne by lia. rewrite lookup_insert_ne by lia.
  rewrite lookup_insert_eq.
  rewrite (lookup_insert_ne _ 3%nat 2%nat) by lia. rewrite lookup_insert_eq.
  rewrite lookup_insert_eq. reflexivity.
Qed.

Lemma parseDate_eight_digits_witness :
  parseDate pacific2025 (hostParse sampleHost)
    (Some ("2025" +:+ "-" +:+ "01" +:+ "-" +:+ "06"))
  = Some (newDate pacific2025 (Js.Number "2025") (Js.Number "01" - 1)
            (Js.Number "06") 0 0 0).
Proof.
  apply parseDate_eight_digits; try reflexivity; simpl; tauto.
Defined.

(** The overflow of the fields: the month 00 of the year 0100 is
    December of the year 99. *)
Example parseDate_month_00 :
  (icsDateTimeLocal utc <$> parseDate utc (fun _ => None) (Some "0100-00-15"))
  = Some "991215T000000".
Proof. vm_compute. reflexivity. Qed.

(** ** Date-time rendering *)

Lemma showZ_four_digits :
  checkRange (fun z => isDigits 4 (showZ (z + 1000))) 9000 = true.
Proof. vm_compute. reflexivity. Qed.

Lemma pad_two_digits : checkRange (fun z => isDigits 2 (pad z)) 100 = true.
Proof. vm_compute. reflexivity. Qed.

Lemma showZ_year (y : Z) : 1000 <= y <= 9999 -> isDigits 4 (showZ y) = true.
Proof.
  intros H. pose proof (checkRange_spec _ _ showZ_four_digits (y - 1000)) as T.
  cbv beta in T. replace (y - 1000 + 1000) with y in T by lia. apply T. lia.
Qed.

Lemma pad_field (n : Z) : 0 <= n <= 99 -> isDigits 2 (pad n) = true.
Proof. intros H. apply (checkRange_spec _ _ pad_two_digits n). lia. Qed.

Lemma time_fields_range (t : Z) :
  0 <= HourFromTime t <= 99 /\ 0 <= MinFromTime t <= 99 /\ 0 <= SecFromTime t <= 99.
Proof.
  unfold HourFromTime, MinFromTime, SecFromTime, TimeWithinDay.
  pose proof (Z.mod_pos_bound t 86400 ltac:(lia)) as Hw.
  pose proof (Z.div_pos (t mod 86400) 3600).
  assert (t mod 86400 / 3600 < 24) by (apply Z.div_lt_upper_bound; lia).
  pose proof (Z.mod_pos_bound (t mod 86400 / 60) 60).
  pose proof (Z.mod_pos_bound (t mod 86400) 60). lia.
Qed.

(** The fields of a time value, written out. *)
Lemma render_shape (t : Z) (tail : string) :
  1000 <= YearFromTime t <= 9999 ->
  exists body,
    dateTimeShape body
    /\ showZ (YearFromTime t) +:+ pad (MonthFromTime t + 1) +:+ pad (DateFromTime t)
       +:+ "T" +:+ pad (HourFromTime t) +:+ pad (MinFromTime t)
       +:+ pad (SecFromTime t) +:+ tail
       = body +:+ tail.
Proof.
  intros Hyear.
  destruct (fields_range t) as [Hmo Hda].
  destruct (time_fields_range t) as (Hh & Hm & Hs).
  destruct (isDigits_4 _ (showZ_year _ Hyear)) as (y1 & y2 & y3 & y4 & -> & ? & ? & ? & ?).
  destruct (isDigits_2 _ (pad_field (MonthFromTime t + 1) ltac:(lia)))
    as (a1 & a2 & -> & ? & ?).
  destruct (isDigits_2 _ (pad_field (DateFromTime t) ltac:(lia))) as (b1 & b2 & -> & ? & ?).
  destruct (isDigits_2 _ (pad_field (HourFromTime t) Hh)) as (c1 & c2 & -> & ? & ?).
  destruct (isDigits_2 _ (pad_field (MinFromTime t) Hm)) as (e1 & e2 & -> & ? & ?).
  destruct (isDigits_2 _ (pad_field (SecFromTime t) Hs)) as (f1 & f2 & -> & ? & ?).
  exists (String y1 (String y2 (String y3 (String y4 (String a1 (String a2
            (String b1 (String b2 (String "T" (String c1 (String c2 (String e1
              (String e2 (String f1 (String f2 ""))))))))))))))).
  split; [ | reflexivity].
  unfold dateTimeShape. lazy -[Js.isDigit].
  repeat match goal with H : Js.isDigit _ = true |- _ => rewrite H; clear H end.
  repeat split; reflexivity.
Qed.

(** X8: for a date whose local year is from 1000 to 9999, the local
    date-time rendering is 15 characters long: eight digits, the letter T,
    six digits; for a date whose UTC year is from 1000 to 9999, the UTC
    rendering is such a text followed by Z.  The two renderings read
    different fields: they agree, up to the Z, in a zone whose offset is
    always 0. *)
Theorem icsDateTimeLocal_format (tz : Zone) (dt : Date) :
  (1000 <= getFullYear tz dt <= 9999 -> dateTimeShape (icsDateTimeLocal tz dt))
  /\ (1000 <= getUTCFullYear dt <= 9999 ->
      exists body, icsDateTimeUTC dt = body +:+ "Z" /\ dateTimeShape body)
  /\ (fixedOffset tz 0 -> icsDateTimeUTC dt = icsDateTimeLocal tz dt +:+ "Z").
Proof.
  split; [ | split].
  - intros Hy. destruct (render_shape (localValue tz dt) "" Hy) as (body & Hb & E).
    unfold icsDateTimeLocal, getFullYear, getMonth, getDate, getHours, getMinutes,
      getSeconds.
    rewrite !append_empty_r in E. rewrite E. exact Hb.
  - intros Hy. destruct (render_shape (timeValue dt) "Z" Hy) as (body & Hb & E).
    exists body. split; [exact E | exact Hb].
  - intros Hz. unfold icsDateTimeUTC, icsDateTimeLocal, getFullYear, getMonth, getDate,
      getHours, getMinutes, getSeconds, getUTCFullYear, getUTCMonth, getUTCDate,
      getUTCHours, getUTCMinutes, getUTCSeconds, localValue.
    rewrite (fixedOffset_LocalTime tz 0) by exact Hz. rewrite Z.add_0_r.
    rewrite !append_assoc. reflexivity.
Qed.

Lemma icsDateTimeLocal_format_witness :
  dateTimeShape (icsDateTimeLocal pacific2025 (mkDate 1736157600)).
Proof.
  apply (proj1 (icsDateTimeLocal_format pacific2025 (mkDate 1736157600))).
  vm_compute. split; discriminate.
Defined.

(** In Pacific time the two renderings of one instant differ. *)
Example icsDateTime_local_and_UTC :
  icsDateTimeLocal pacific2025 (mkDate 1736157600) = "20250106T020000"
  /\ icsDateTimeUTC (mkDate 1736157600) = "20250106T100000Z".
Proof. split; vm_compute; reflexivity. Qed.

(** ** The written forms of a time *)

Section WrittenTime.

Lemma isDigits_1 s :
  isDigits 1 s = true -> exists a, s = String a "" /\ Js.isDigit a = true.
Proof.
  unfold isDigits. intros H. apply andb_true_iff in H as [Hl He].
  destruct s as [ | a [ | b s]]; try discriminate.
  simpl in He. rewrite andb_true_iff in He. destruct He as (Ha & _). eauto.
Qed.

Lemma space_not_digit c : Js.isWhiteSpace c = true -> Js.isDigit c = false.
Proof.
  destruct c as [[ | ] [ | ] [ | ] [ | ] [ | ] [ | ] [ | ] [ | ]];
    (reflexivity || discriminate).
Qed.

Lemma space_not_colon c : Js.isWhiteSpace c = true -> Ascii.eqb ":" c = false.
Proof.
  destruct c as [[ | ] [ | ] [ | ] [ | ] [ | ] [ | ] [ | ] [ | ]];
    (reflexivity || discriminate).
Qed.

(** After the white space comes the meridiem or nothing: no digit, no
    colon, no white space. *)
Lemma meridiem_next (mer : option Meridiem) :
  nextIs Js.isDigit (meridiemText mer) = false
  /\ nextIs (Ascii.eqb ":") (meridiemText mer) = false
  /\ nextIs Js.isWhiteSpace (meridiemText mer) = false.
Proof. destruct mer as [[ | ] | ]; repeat split; reflexivity. Qed.

Lemma blank_next (sp : string) (mer : option Meridiem) :
  isBlank sp = true ->
  nextIs Js.isDigit (sp +:+ meridiemText mer) = false
  /\ nextIs (Ascii.eqb ":") (sp +:+ meridiemText mer) = false.
Proof.
  intros Hsp. destruct sp as [ | c sp].
  - assert (E : "" +:+ meridiemText mer = meridiemText mer)
      by (destruct (meridiemText mer); reflexivity).
    rewrite E. destruct (meridiem_next mer) as (H1 & H2 & _). auto.
  - unfold isBlank in Hsp. simpl in Hsp. apply andb_true_iff in Hsp as [Hc _].
    simpl. split; [apply space_not_digit, Hc | apply space_not_colon, Hc].
Qed.

(** [(\d{1,2})]: both digits of the hour are taken. *)
Lemma First_hour (n : nat) (H tail : string) pr cs :
  isDigits 1 H = true \/ isDigits 2 H = true ->
  nextIs Js.isDigit tail = false ->
  First (Group n (Cat digit (Opt digit)))
    (MState pr (H +:+ tail) cs)
    (MState (lastOf pr H) tail (<[n := H]> cs)).
Proof.
  intros HH Htail.
  assert (Hin : First (Cat digit (Opt digit))
                  (MState pr (H +:+ tail) cs) (MState (lastOf pr H) tail cs)).
  { destruct HH as [H1 | H2].
    - apply isDigits_1 in H1 as (a & -> & Ha). simpl.
      eapply First_Cat; [apply First_Class, Ha | ].
      apply First_Opt_skip, Fails_Class. exact Htail.
    - apply isDigits_2 in H2 as (a & b & -> & Ha & Hb). simpl.
      eapply First_Cat; [apply First_Class, Ha | ].
      apply First_Opt_take; [apply First_Class, Hb | ].
      apply (progress_append _ _ _ _ b "" tail). }
  pose proof (First_Group n _ _ _ Hin) as HG.
  unfold setCap in HG. cbn [prev rest caps] in HG.
  rewrite consumed_append in HG. exact HG.
Qed.

(** [(?::(\d{2}))?]: a written field is taken. *)
Lemma First_field (n : nat) (F : option string) (tail : string) pr cs :
  (forall m, F = Some m -> isDigits 2 m = true) ->
  (F = None -> nextIs (Ascii.eqb ":") tail = false) ->
  First (Opt (Cat (Lit ":") (Group n (Cat digit digit))))
    (MState pr (fieldText F +:+ tail) cs)
    (MState (lastOf pr (fieldText F)) tail
       (match F with Some m => <[n := m]> cs | None => cs end)).
Proof.
  intros HF Htail. destruct F as [m | ].
  - destruct (isDigits_2 m (HF m eq_refl)) as (a & b & -> & Ha & Hb).
    apply First_Opt_take.
    + eapply First_Cat.
      * apply (First_Lit ":" pr (String a (String b "") +:+ tail) cs).
      * assert (Hin : First (Cat digit digit)
                        (MState (Some ":"%char) (String a (String b "") +:+ tail) cs)
                        (MState (Some b) tail cs)).
        { simpl. eapply First_Cat; apply First_Class; assumption. }
        pose proof (First_Group n _ _ _ Hin) as HG.
        unfold setCap in HG. cbn [prev rest caps] in HG.
        rewrite consumed_append in HG. exact HG.
    + apply (progress_append _ _ _ _ ":" (String a (String b "")) tail).
  - assert (E : fieldText None +:+ tail = tail) by (destruct tail; reflexivity).
    rewrite E. apply First_Opt_skip. apply Fails_Cat, Fails_Lit. cbn [rest].
    apply Htail. reflexivity.
Qed.

(** [(AM|PM)?]: a written meridiem is taken. *)
Lemma First_meridiem (mer : option Meridiem) pr cs :
  First (Opt (Group 4 (Or (Lit "AM") (Lit "PM"))))
    (MState pr (meridiemText mer) cs)
    (MState (lastOf pr (meridiemText mer)) ""
       (match mer with Some _ => <[4%nat := meridiemText mer]> cs | None => cs end)).
Proof.
  destruct mer as [[ | ] | ].
  - apply First_Opt_take; [ | reflexivity].
    assert (Hin : First (Or (Lit "AM") (Lit "PM")) (MState pr ("AM" +:+ "") cs)
                    (MState (lastOf pr "AM") "" cs))
      by apply First_Or_l, First_Lit.
    pose proof (First_Group 4 _ _ _ Hin) as HG.
    unfold setCap in HG. cbn [prev rest caps] in HG.
    rewrite consumed_append in HG. exact HG.
  - apply First_Opt_take; [ | reflexivity].
    assert (Hin : First (Or (Lit "AM") (Lit "PM")) (MState pr ("PM" +:+ "") cs)
                    (MState (lastOf pr "PM") "" cs)).
    { apply First_Or_r; [apply Fails_Lit; reflexivity | apply First_Lit]. }
    pose proof (First_Group 4 _ _ _ Hin) as HG.
    unfold setCap in HG. cbn [prev rest caps] in HG.
    rewrite consumed_append in HG. exact HG.
  - apply First_Opt_skip, Fails_Group, Fails_Or; apply Fails_Lit; reflexivity.
Qed.

(** What the first time pattern captures of a written time. *)
Lemma exec_writtenTime (H : string) (M S : option string) (sp : string)
    (mer : option Meridiem) :
  wellWritten H M S sp ->
  exists m, exec timePatternA (writtenTime H M S sp mer) = Some m
            /\ m !! 1%nat = Some H /\ m !! 2%nat = M /\ m !! 3%nat = S
            /\ m !! 4%nat = match mer with
                            | Some _ => Some (meridiemText mer)
                            | None => None
                            end.
Proof.
  intros (HH & HM & HS & Hsp).
  destruct (blank_next sp mer Hsp) as [Hd Hc].
  assert (Hnone : M = None -> S = None).
  { intros ->. destruct S as [s | ]; [ | reflexivity].
    destruct (HS s eq_refl) as [_ Hne]. congruence. }
  assert (Htail3 : S = None ->
            nextIs (Ascii.eqb ":") (fieldText S +:+ (sp +:+ meridiemText mer)) = false
            /\ nextIs Js.isDigit (fieldText S +:+ (sp +:+ meridiemText mer)) = false).
  { intros ->.
    assert (E : fieldText None +:+ (sp +:+ meridiemText mer) = sp +:+ meridiemText mer)
      by (destruct (sp +:+ meridiemText mer); reflexivity).
    rewrite E. auto. }
  assert (Htail1 : nextIs Js.isDigit
            (fieldText M +:+ (fieldText S +:+ (sp +:+ meridiemText mer))) = false).
  { destruct M as [m | ]; [reflexivity | ].
    assert (E : forall x, fieldText None +:+ x = x) by (intros x; destruct x; reflexivity).
    rewrite E. apply Htail3, Hnone. reflexivity. }
  eexists. split.
  - apply First_exec. unfold timePatternA, writtenTime.
    eapply First_Cat; [apply First_Bol; reflexivity | ].
    eapply First_Cat; [apply First_hour; [exact HH | exact Htail1] | ].
    eapply First_Cat.
    { apply First_field; [exact HM | ]. intros E. apply Htail3, Hnone, E. }
    eapply First_Cat.
    { apply First_field; [intros s E; apply HS, E | ]. intros _. exact Hc. }
    eapply First_Cat.
    { apply First_Star_class; [exact Hsp | apply meridiem_next]. }
    eapply First_Cat; [apply First_meridiem | ].
    apply First_Eol. reflexivity.
  - cbn [caps]. destruct M as [m | ], S as [s | ], mer as [[ | ] | ];
      repeat split; simplify_map_eq; reflexivity.
Qed.

(** Conversely, what the first time pattern matches is a written
    time. *)
Lemma AtOrAfter_start p s p' s' :
  AtOrAfter p s p' s' -> p' = None -> p = None /\ s' = s.
Proof.
  induction 1 as [p s | p c s p' s' Hpos IH]; intros Hp; [auto | ].
  destruct (IH Hp) as [Hc _]. discriminate Hc.
Qed.

Lemma lit_rest (s : string) :
  forall st st', Matches (Lit s) st st' -> rest st = s +:+ rest st'.
Proof.
  induction s as [ | c s IH]; intros st st' H; simpl in H.
  - apply inv_Empty in H. subst. destruct (rest st); reflexivity.
  - apply inv_Cat in H as (st1 & H1 & H2).
    apply inv_Class in H1 as (c' & Hc & Hr & _). apply Ascii.eqb_eq in Hc. subst c'.
    rewrite Hr, (IH _ _ H2). reflexivity.
Qed.

Lemma digits2_rest st st' :
  Matches (Cat digit digit) st st' ->
  exists m, isDigits 2 m = true /\ rest st = m +:+ rest st'.
Proof.
  intros H. apply inv_Cat in H as (st1 & H1 & H2).
  apply inv_Class in H1 as (a & Ha & Hr1 & _).
  apply inv_Class in H2 as (b & Hb & Hr2 & _).
  exists (String a (String b "")). split.
  - unfold isDigits. simpl. rewrite Ha, Hb. reflexivity.
  - rewrite Hr1, Hr2. reflexivity.
Qed.

Lemma digits12_rest st st' :
  Matches (Cat digit (Opt digit)) st st' ->
  exists H, (isDigits 1 H = true \/ isDigits 2 H = true) /\ rest st = H +:+ rest st'.
Proof.
  intros H. apply inv_Cat in H as (st1 & H1 & H2).
  apply inv_Opt in H2 as [-> | H2].
  - apply inv_Class in H1 as (a & Ha & Hr1 & _).
    exists (String a ""). split; [left | rewrite Hr1; reflexivity].
    unfold isDigits. simpl. rewrite Ha. reflexivity.
  - assert (H : Matches (Cat digit digit) st st') by eauto with re.
    apply digits2_rest in H as (m & Hm & Hr). eauto.
Qed.

Lemma field_rest n st st' :
  Matches (Opt (Cat (Lit ":") (Group n (Cat digit digit)))) st st' ->
  exists F, (forall m, F = Some m -> isDigits 2 m = true)
            /\ rest st = fieldText F +:+ rest st'.
Proof.
  intros H. apply inv_Opt in H as [-> | H].
  - exists None. split; [discriminate | destruct (rest st); reflexivity].
  - apply inv_Cat in H as (st1 & H1 & H2). apply lit_rest in H1.
    apply inv_Group in H2 as (st2 & H2 & ->).
    apply digits2_rest in H2 as (m & Hm & Hr).
    exists (Some m). split; [intros ? [= <-]; exact Hm | ].
    rewrite H1, Hr. reflexivity.
Qed.

Lemma star_class_rest p st st' :
  Matches (Star (Class p)) st st' ->
  exists sp, everyChar p sp = true /\ rest st = sp +:+ rest st'.
Proof.
  intros H. remember (Star (Class p)) as r eqn:Hr.
  induction H; try discriminate.
  - exists "". split; [reflexivity | destruct (rest st); reflexivity].
  - inversion Hr; subst.
    destruct (IHMatches2 eq_refl) as (sp & Hsp & Hrest).
    apply inv_Class in H as (c & Hc & Hr1 & _).
    exists (String c sp). split; [simpl; rewrite Hc, Hsp; reflexivity | ].
    rewrite Hr1, Hrest. reflexivity.
Qed.

Lemma meridiem_rest st st' :
  Matches (Opt (Group 4 (Or (Lit "AM") (Lit "PM")))) st st' ->
  exists mer, rest st = meridiemText mer +:+ rest st'.
Proof.
  intros H. apply inv_Opt in H as [-> | H].
  - exists None. destruct (rest st); reflexivity.
  - apply inv_Group in H as (st1 & H & ->).
    apply inv_Or in H as [H | H]; apply lit_rest in H;
      [exists (Some AM) | exists (Some PM)]; exact H.
Qed.

Lemma timePatternA_written (s : string) st :
  Matches timePatternA (MState None s ∅) st ->
  exists H M S sp mer, wellWritten H M S sp /\ s = writtenTime H M S sp mer.
Proof.
  unfold timePatternA. intros H.
  apply inv_Cat in H as (s0 & H0 & H). apply inv_Bol in H0 as [-> _].
  apply inv_Cat in H as (s1 & H1 & H).
  apply inv_Group in H1 as (s1' & H1 & ->).
  apply digits12_rest in H1 as (HH & HHd & E1). cbn [rest] in E1.
  apply inv_Cat in H as (s2 & H2 & H). apply field_rest in H2 as (F2 & HF2 & E2).
  apply inv_Cat in H as (s3 & H3 & H). apply field_rest in H3 as (F3 & HF3 & E3).
  apply inv_Cat in H as (s4 & H4 & H).
  apply star_class_rest in H4 as (sp & Hsp & E4).
  apply inv_Cat in H as (s5 & H5 & H). apply meridiem_rest in H5 as (mer & E5).
  apply inv_Eol in H as [-> Hend].
  unfold setCap in E2. cbn [rest] in E2.
  rewrite Hend, append_empty_r in E5.
  rewrite E5 in E4. rewrite E4 in E3. rewrite E3 in E2. rewrite E2 in E1.
  destruct F2 as [m | ].
  - exists HH, (Some m), F3, sp, mer. split; [ | exact E1].
    repeat split; try assumption.
    + apply HF3. assumption.
    + discriminate.
  - exists HH, F3, None, sp, mer. split.
    + repeat split; try assumption; discriminate.
    + rewrite E1. reflexivity.
Qed.

(** A text that the first time pattern accepts is a written time. *)
Lemma exec_written (s : string) :
  exec timePatternA s <> None ->
  exists H M S sp mer, wellWritten H M S sp /\ s = writtenTime H M S sp mer.
Proof.
  intros H. apply exec_iff in H as (p' & s' & st & Hpos & HM).
  assert (Hp : p' = None).
  { unfold timePatternA in HM. apply inv_Cat in HM as (s0 & H0 & _).
    apply inv_Bol in H0 as [_ H0]. exact H0. }
  subst p'. destruct (AtOrAfter_start _ _ _ _ Hpos eq_refl) as [_ ->].
  eapply timePatternA_written, HM.
Qed.

End WrittenTime.

(** C5: the time parser applies the 12-hour correction exactly when a
    meridiem suffix is present.  For every written time (one or two hour
    digits; optionally a colon and two minute digits; optionally, after
    these, a colon and two second digits; any white space; AM, PM or
    nothing; in any letter case and with any white space around it) the
    parsed hour is the written hour with AM mapping 12 to 0 and PM adding
    12 to an hour below 12, or the written hour itself when no meridiem is
    written, and the minute and second are the written ones, 0 when not
    written; and every text that the parser accepts is such a written
    time.  In particular "8:00 AM" parses to (8,0,0), "8 PM" to
    (20,0,0), "20:30" to (20,30,0), "12:00 AM" to (0,0,0) and "12:00 PM"
    to (12,0,0). *)
Theorem parseTime_meridiem_correction :
  (forall (v H : string) (M S : option string) (sp : string) (mer : option Meridiem),
      wellWritten H M S sp ->
      normalized v = writtenTime H M S sp mer ->
      parseTime (Some v)
      = Some (mkTime (applyMeridiem mer (Js.Number H)) (fieldNumber M) (fieldNumber S)))
  /\ (forall v t,
        parseTime (Some v) = Some t ->
        exists H M S sp mer,
          wellWritten H M S sp /\ normalized v = writtenTime H M S sp mer)
  /\ parseTime (Some "8:00 AM") = Some (mkTime 8 0 0)
  /\ parseTime (Some "8 PM") = Some (mkTime 20 0 0)
  /\ parseTime (Some "20:30") = Some (mkTime 20 30 0)
  /\ parseTime (Some "12:00 AM") = Some (mkTime 0 0 0)
  /\ parseTime (Some "12:00 PM") = Some (mkTime 12 0 0).
Proof.
  split; [ | split; [ | repeat split; vm_compute; reflexivity]].
  2: { intros v t Hp. apply exec_written. fold (normalized v).
       unfold parseTime in Hp.
       destruct (negb (Js.truthy v)); [discriminate | ].
       destruct (negb (Js.truthy (Js.trim v))); [discriminate | ].
       fold (normalized v) in Hp. intros HA.
       rewrite HA, (timePatternB_none _ HA) in Hp. discriminate. }
  intros v H M S sp mer HW Hv.
  destruct (exec_writtenTime H M S sp mer HW) as (m & Hex & H1 & H2 & H3 & H4).
  assert (Hne : Js.truthy (writtenTime H M S sp mer) = true).
  { destruct HW as ([HH | HH] & _).
    - apply isDigits_1 in HH as (a & -> & _). reflexivity.
    - apply isDigits_2 in HH as (a & b & -> & _). reflexivity. }
  assert (Htrim : Js.truthy (Js.trim v) = true).
  { rewrite <- truthy_toUpperCase. fold (normalized v). rewrite Hv. exact Hne. }
  assert (Hvt : Js.truthy v = true).
  { destruct (Js.truthy v) eqn:E; [reflexivity | ].
    apply truthy_trim_false in E. congruence. }
  unfold parseTime. rewrite Hvt, Htrim. cbn [negb].
  fold (normalized v). rewrite Hv, Hex. cbv zeta. rewrite H1, H2, H3, H4.
  cbn [default]. f_equal.
  assert (HM : numberOr0 M = fieldNumber M).
  { destruct M as [x | ]; [ | reflexivity]. cbn [numberOr0 fieldNumber].
    destruct HW as (_ & HM & _).
    destruct (isDigits_2 x (HM x eq_refl)) as (a & b & -> & _). reflexivity. }
  assert (HS : numberOr0 S = fieldNumber S).
  { destruct S as [x | ]; [ | reflexivity]. cbn [numberOr0 fieldNumber].
    destruct HW as (_ & _ & HS & _). destruct (HS x eq_refl) as [HS' _].
    apply isDigits_2 in HS' as (a & b & -> & _); reflexivity. }
  rewrite HM, HS. f_equal.
  destruct mer as [[ | ] | ]; cbn [meridiemText applyMeridiem];
    repeat case_decide; try congruence; reflexivity.
Qed.

Lemma parseTime_meridiem_correction_witness :
  parseTime (Some "  8:05:07  pm ")
  = Some (mkTime (applyMeridiem (Some PM) (Js.Number "8"))
            (fieldNumber (Some "05")) (fieldNumber (Some "07"))).
Proof.
  apply (proj1 parseTime_meridiem_correction "  8:05:07  pm " "8"
           (Some "05") (Some "07") "  " (Some PM)).
  - unfold wellWritten. split; [left; reflexivity | ].
    split; [intros m [= <-]; reflexivity | ].
    split; [intros s [= <-]; split; [reflexivity | discriminate] | reflexivity].
  - vm_compute. reflexivity.
Defined.

(** ** Escaped text *)

Lemma includesChar_app c (a b : string) :
  Js.includesChar c (a +:+ b) = Js.includesChar c a || Js.includesChar c b.
Proof.
  induction a as [ | x a IH]; [reflexivity | ].
  simpl. rewrite IH, orb_assoc. reflexivity.
Qed.

Lemma escChar_noNewline c : Js.includesChar LF (escChar c) = false.
Proof.
  unfold escChar, escBackslash.
  destruct (Ascii.eqb_spec c "\") as [-> | Hb]; [reflexivity | ].
  simpl. unfold escNewline.
  destruct (Ascii.eqb_spec c LF) as [-> | Hn]; [reflexivity | ].
  simpl. unfold escSeparator.
  destruct (Ascii.eqb c "," || Ascii.eqb c ";"); simpl.
  - apply Ascii.eqb_neq in Hn. rewrite Hn. reflexivity.
  - apply Ascii.eqb_neq in Hn. rewrite Hn. reflexivity.
Qed.

Lemma escChar_plain c : isEscaped c = false -> escChar c = String c "".
Proof.
  unfold isEscaped. rewrite !orb_false_iff. intros (((Hb & Hn) & Hc) & Hs).
  unfold escChar, escBackslash. rewrite Hb. simpl.
  unfold escNewline. rewrite Hn. simpl.
  unfold escSeparator. rewrite Hc, Hs. reflexivity.
Qed.

(** X9: text escaping never leaves a newline in its result, whatever
    the text, so an escaped field stays on one line; and it leaves a text
    without backslash, newline, comma and semicolon as it is. *)
Theorem icsEscape_one_line (s : string) :
  noNewline (icsEscape s) = true
  /\ (everyChar (fun c => negb (isEscaped c)) s = true -> icsEscape s = s).
Proof.
  split.
  - unfold noNewline. apply negb_true_iff.
    induction s as [ | c s IH]; [reflexivity | ].
    rewrite icsEscape_cons, includesChar_app, escChar_noNewline, IH. reflexivity.
  - induction s as [ | c s IH]; [reflexivity | ].
    simpl. intros H. apply andb_true_iff in H as [Hc Hs].
    apply negb_true_iff in Hc.
    rewrite icsEscape_cons, (escChar_plain c Hc), (IH Hs). reflexivity.
Qed.

Lemma icsEscape_one_line_witness : icsEscape "CS 101 LEC 001" = "CS 101 LEC 001".
Proof. apply (icsEscape_one_line "CS 101 LEC 001"). vm_compute. reflexivity. Defined.

(** ** Folding a whole text *)

Lemma join_cons (sep p : string) (ps : list string) :
  ps <> [] -> Js.join sep (p :: ps) = p +:+ sep +:+ Js.join sep ps.
Proof. destruct ps; [congruence | reflexivity]. Qed.

Lemma split_nonempty sep s : Js.split sep s <> [].
Proof.
  induction s as [ | c s IH]; simpl; [discriminate | ].
  destruct (Ascii.eqb c sep); [discriminate | ].
  destruct (Js.split sep s); discriminate.
Qed.

(** Joining the lines of a text gives the text back. *)
Lemma join_split (s : string) : Js.join NL (Js.split LF s) = s.
Proof.
  induction s as [ | c s IH]; [reflexivity | ].
  cbn [Js.split]. destruct (Ascii.eqb_spec c LF) as [-> | Hne].
  - rewrite join_cons by apply split_nonempty. rewrite IH. reflexivity.
  - pose proof (split_nonempty LF s) as Hnil.
    destruct (Js.split LF s) as [ | p ps]; [congruence | ].
    destruct ps as [ | q ps].
    + simpl in IH |- *. rewrite IH. reflexivity.
    + rewrite join_cons by discriminate. rewrite join_cons in IH by discriminate.
      change (String c p +:+ NL +:+ Js.join NL (q :: ps))
        with (String c (p +:+ NL +:+ Js.join NL (q :: ps))).
      rewrite IH. reflexivity.
Qed.

(** The lines of a text hold no newline. *)
Lemma split_noNewline (s : string) :
  Forall (fun l => noNewline l = true) (Js.split LF s).
Proof.
  induction s as [ | c s IH]; [repeat constructor | ].
  cbn [Js.split]. destruct (Ascii.eqb_spec c LF) as [-> | Hne].
  - constructor; [reflexivity | exact IH].
  - destruct (Js.split LF s) as [ | p ps]; [repeat constructor | ].
    + unfold noNewline. simpl. apply Ascii.eqb_neq in Hne. rewrite Hne. reflexivity.
    + inversion IH as [ | ? ? Hp Hps]; subst. constructor; [ | exact Hps].
      unfold noNewline in *. simpl. apply Ascii.eqb_neq in Hne. rewrite Hne. exact Hp.
Qed.

(** Splitting what was joined from lines without newlines gives the
    lines back. *)
Lemma split_join (ls : list string) :
  ls <> [] -> Forall (fun l => noNewline l = true) ls ->
  Js.split LF (Js.join NL ls) = ls.
Proof.
  induction ls as [ | l ls IH]; [congruence | ].
  intros _ HF. inversion HF as [ | ? ? Hl Hls]; subst.
  destruct ls as [ | l2 ls].
  - simpl. clear IH HF Hls. unfold noNewline in Hl. apply negb_true_iff in Hl.
    induction l as [ | c l IHl]; [reflexivity | ].
    simpl in Hl. apply orb_false_iff in Hl as [Hc Hl].
    cbn [Js.split]. rewrite Hc. rewrite (IHl Hl). reflexivity.
  - rewrite join_cons by discriminate.
    rewrite split_line; [ | unfold noNewline in Hl; apply negb_true_iff in Hl; exact Hl].
    rewrite IH; [reflexivity | discriminate | exact Hls].
Qed.

Lemma includesChar_take c n s :
  Js.includesChar c s = false -> Js.includesChar c (Js.take n s) = false.
Proof.
  revert s. induction n as [ | n IH]; intros [ | x s] H; try reflexivity.
  simpl in H. apply orb_false_iff in H as [Hx Hs].
  change (Js.take (S n) (String x s)) with (String x (Js.take n s)).
  simpl. rewrite Hx. apply IH, Hs.
Qed.

Lemma includesChar_drop c n s :
  Js.includesChar c s = false -> Js.includesChar c (Js.drop n s) = false.
Proof.
  revert s. induction n as [ | n IH]; intros [ | x s] H; try reflexivity; try exact H.
  simpl in H. apply orb_false_iff in H as [Hx Hs].
  change (Js.drop (S n) (String x s)) with (Js.drop n s). apply IH, Hs.
Qed.

Lemma foldChunks_noNewline (ln : string) :
  noNewline ln = true ->
  forall fuel i out,
    foldChunks fuel i ln = Some out -> Forall (fun l => noNewline l = true) out.
Proof.
  intros Hln. unfold noNewline in Hln. apply negb_true_iff in Hln.
  induction fuel as [ | fuel IH]; intros i out H; simpl in H.
  - destruct (i <? String.length ln)%nat; [discriminate | ].
    injection H as <-. constructor.
  - destruct (i <? String.length ln)%nat; [ | injection H as <-; constructor].
    destruct (foldChunks fuel (i + 75) ln) as [out' | ] eqn:E; [ | discriminate].
    injection H as <-. constructor; [ | eapply IH, E].
    assert (Hchunk : Js.includesChar LF (Js.slice i (i + 75) ln) = false).
    { unfold Js.slice. apply includesChar_take, includesChar_drop, Hln. }
    unfold noNewline. destruct (i =? 0)%nat.
    + rewrite Hchunk. reflexivity.
    + cbn [Js.includesChar]. rewrite Hchunk. reflexivity.
Qed.

Lemma foldLine_noNewline (ln : string) :
  noNewline ln = true -> Forall (fun l => noNewline l = true) (foldLine ln).
Proof.
  intros Hln. unfold foldLine.
  destruct (String.length ln <=? 75)%nat; [repeat constructor; exact Hln | ].
  destruct (foldChunks (String.length ln) 0 ln) as [out | ] eqn:E;
    [ | constructor].
  simpl. eapply foldChunks_noNewline; eassumption.
Qed.

Lemma foldLine_nonempty (ln : string) : foldLine ln <> [].
Proof.
  destruct (Nat.leb_spec (String.length ln) 75) as [Hle | Hgt].
  - unfold foldLine. apply Nat.leb_le in Hle. rewrite Hle. discriminate.
  - destruct (foldLine_long ln Hgt) as (out & -> & _). discriminate.
Qed.

Lemma flat_map_foldLine_props (lines : list string) :
  lines <> [] -> Forall (fun l => noNewline l = true) lines ->
  flat_map foldLine lines <> []
  /\ Forall (fun l => noNewline l = true) (flat_map foldLine lines)
  /\ Forall (fun l => (String.length l <= 76)%nat) (flat_map foldLine lines).
Proof.
  intros Hne HF. split; [ | split].
  - destruct lines as [ | l ls]; [congruence | ]. simpl.
    pose proof (foldLine_nonempty l). destruct (foldLine l); [congruence | discriminate].
  - clear Hne. induction HF as [ | l ls Hl Hls IH]; [constructor | ].
    simpl. apply Forall_app. split; [apply foldLine_noNewline, Hl | exact IH].
  - clear. induction lines as [ | l ls IH]; [constructor | ].
    simpl. apply Forall_app. split; [apply foldLine_lengths | exact IH].
Qed.

Lemma flat_map_foldLine_short (lines : list string) :
  Forall (fun l => (String.length l <= 75)%nat) lines ->
  flat_map foldLine lines = lines.
Proof.
  induction 1 as [ | l ls Hl Hls IH]; [reflexivity | ].
  simpl. rewrite IH. unfold foldLine. apply Nat.leb_le in Hl. rewrite Hl.
  reflexivity.
Qed.

(** X10: the physical lines of a folded text are the folded pieces of
    its lines, in order; none is longer than 76; and a text whose lines are
    all at most 75 long is left as it is. *)
Theorem foldLines_lines (text : string) :
  physicalLines (foldLines text) = flat_map foldLine (physicalLines text)
  /\ Forall (fun l => (String.length l <= 76)%nat) (physicalLines (foldLines text))
  /\ (Forall (fun l => (String.length l <= 75)%nat) (physicalLines text) ->
      foldLines text = text).
Proof.
  unfold physicalLines, foldLines.
  destruct (flat_map_foldLine_props (Js.split LF text)) as (Hne & Hnl & Hlen);
    [apply split_nonempty | apply split_noNewline | ].
  rewrite split_join by assumption.
  split; [reflexivity | ]. split; [exact Hlen | ].
  intros Hshort. rewrite (flat_map_foldLine_short _ Hshort). apply join_split.
Qed.

Lemma foldLines_lines_witness :
  foldLines ("BEGIN:VEVENT" +:+ NL +:+ "END:VEVENT")
  = "BEGIN:VEVENT" +:+ NL +:+ "END:VEVENT".
Proof.
  apply (foldLines_lines ("BEGIN:VEVENT" +:+ NL +:+ "END:VEVENT")).
  vm_compute. repeat constructor.
Defined.

(** ** The file name *)

Lemma everyChar_app p (a b : string) :
  everyChar p (a +:+ b) = everyChar p a && everyChar p b.
Proof.
  induction a as [ | x a IH]; [reflexivity | ].
  simpl. rewrite IH, andb_assoc. reflexivity.
Qed.

(** What is left after a match is an end piece of what was there. *)
Lemma Matches_suffix r st st' :
  Matches r st st' -> exists pre, rest st = pre +:+ rest st'.
Proof.
  induction 1 as
    [ st | p c s' pr cs Hp | r1 r2 st st1 st2 H1 IH1 H2 IH2
    | r1 r2 st st1 H1 IH1 | r1 r2 st st1 H1 IH1
    | r st st1 H1 IH1 Hprog | r st | r st
    | r st st1 st2 H1 IH1 Hprog H2 IH2
    | n r st st1 H1 IH1 | st Hx | st Hp | st Hr ];
    try (exists ""; reflexivity); try assumption.
  - exists (String c ""). reflexivity.
  - destruct IH1 as [p1 E1]. destruct IH2 as [p2 E2].
    exists (p1 +:+ p2). rewrite E1, E2, append_assoc. reflexivity.
  - destruct IH1 as [p1 E1]. destruct IH2 as [p2 E2].
    exists (p1 +:+ p2). rewrite E1, E2, append_assoc. reflexivity.
Qed.

Lemma matchAt_every r p s st (P : ascii -> bool) :
  matchAt r p s = Some st -> everyChar P s = true -> everyChar P (rest st) = true.
Proof.
  intros HM HP. apply matchAt_sound, Matches_suffix in HM as [pre E].
  simpl in E. subst s. rewrite everyChar_app in HP.
  apply andb_true_iff in HP as [_ HP]. exact HP.
Qed.

(** A global replacement keeps a class of characters that holds the
    text and every replacement. *)
Lemma replaceGlobalFrom_every r f (P : ascii -> bool) :
  (forall m, everyChar P (f m) = true) ->
  forall fuel p s,
    everyChar P s = true -> everyChar P (replaceGlobalFrom fuel r f p s) = true.
Proof.
  intros Hf. induction fuel as [ | fuel IH]; intros p s Hs; [exact Hs | ].
  cbn [replaceGlobalFrom].
  assert (Hcopy : everyChar P
            match s with
            | "" => ""
            | String c s' => String c (replaceGlobalFrom fuel r f (Some c) s')
            end = true).
  { destruct s as [ | c s']; [reflexivity | ].
    simpl in Hs |- *. apply andb_true_iff in Hs as [Hc Hs'].
    rewrite Hc. apply IH, Hs'. }
  destruct (matchAt r p s) as [st | ] eqn:EM; [ | exact Hcopy].
  destruct (String.length s - remaining st)%nat; [exact Hcopy | ].
  rewrite everyChar_app, Hf. apply IH. eapply matchAt_every; eassumption.
Qed.

(** One or more characters of a class match wherever the text starts
    with a character of the class, and use it up. *)
Lemma matchAt_plus_class (q : ascii -> bool) p c s :
  q c = true ->
  exists st, matchAt (Plus (Class q)) p (String c s) = Some st
             /\ (remaining st <= String.length s)%nat.
Proof.
  intros Hq.
  assert (HM : Matches (Plus (Class q)) (MState p (String c s) ∅) (MState (Some c) s ∅)).
  { unfold Plus. eapply M_Cat; [apply M_Class, Hq | apply M_StarNil]. }
  apply matchAt_complete in HM.
  destruct (matchAt (Plus (Class q)) p (String c s)) as [st | ] eqn:E; [ | congruence].
  exists st. split; [reflexivity | ].
  apply matchAt_sound in E. unfold Plus in E.
  apply inv_Cat in E as (st1 & H1 & H2).
  apply class_remaining in H1. apply Matches_remaining in H2.
  unfold remaining in *. simpl in H1. lia.
Qed.

Lemma matchAt_plus_class_none (q : ascii -> bool) p c s :
  q c = false -> matchAt (Plus (Class q)) p (String c s) = None.
Proof. intros Hq. unfold matchAt, Plus. simpl. rewrite Hq. reflexivity. Qed.

(** The first pass of [sanitizeFileName] leaves only letters, digits,
    hyphens and underscores. *)
Lemma firstPass_every :
  forall fuel p s,
    (String.length s < fuel)%nat ->
    everyChar isFileNameChar
      (replaceGlobalFrom fuel (Plus (Class (fun c => negb (isFileNameChar c))))
         (fun _ => "-") p s) = true.
Proof.
  induction fuel as [ | fuel IH]; intros p s Hfuel; [lia | ].
  destruct s as [ | c s]; [reflexivity | ].
  simpl in Hfuel. cbn [replaceGlobalFrom].
  destruct (isFileNameChar c) eqn:Hc.
  - rewrite matchAt_plus_class_none by (rewrite Hc; reflexivity).
    simpl. rewrite Hc. apply IH. lia.
  - destruct (matchAt_plus_class (fun c => negb (isFileNameChar c)) p c s)
      as (st & -> & Hrem); [rewrite Hc; reflexivity | ].
    destruct (String.length (String c s) - remaining st)%nat eqn:En.
    + simpl in En. lia.
    + rewrite everyChar_app. simpl. apply IH. unfold remaining in Hrem. lia.
Qed.

Lemma lowerChar_safe c : isFileNameChar c = true -> isSafeFileChar (Js.lowerChar c) = true.
Proof.
  destruct c as [[ | ] [ | ] [ | ] [ | ] [ | ] [ | ] [ | ] [ | ]];
    (reflexivity || discriminate).
Qed.

Lemma toLowerCase_safe s :
  everyChar isFileNameChar s = true ->
  everyChar isSafeFileChar (Js.toLowerCase s) = true.
Proof.
  induction s as [ | c s IH]; [reflexivity | ].
  simpl. intros H. apply andb_true_iff in H as [Hc Hs].
  rewrite (lowerChar_safe c Hc). apply IH, Hs.
Qed.

(** X11: whatever the calendar name, the sanitized file name holds only
    lower-case letters, digits, hyphens and underscores. *)
Theorem sanitizeFileName_safe (s : string) :
  everyChar isSafeFileChar (sanitizeFileName s) = true.
Proof.
  unfold sanitizeFileName, replaceGlobal.
  apply toLowerCase_safe.
  apply replaceGlobalFrom_every; [reflexivity | ].
  apply replaceGlobalFrom_every; [reflexivity | ].
  apply firstPass_every. lia.
Qed.

(** ** Runs without events, and the events of a row *)

Lemma flat_map_nil {A B} (f : A -> list B) (l : list A) :
  flat_map f l = [] <-> Forall (fun x => f x = []) l.
Proof.
  induction l as [ | x l IH]; simpl.
  - split; [constructor | reflexivity].
  - split.
    + intros H. apply app_eq_nil in H as [Hx Hl]. constructor; [exact Hx | apply IH, Hl].
    + intros H. inversion H as [ | ? ? Hx Hl]; subst.
      rewrite Hx. apply IH, Hl.
Qed.

(** X12: with the required mappings set, the run ends with the error
    "No events generated" exactly when no row gives an event (this
    includes an empty list of rows), and then no document is produced. *)
Theorem handleGenerate_no_events (host : Host) (mapped : gmap string string)
    (rows : list (gmap string string)) (titleTemplate calendarName timezone : string) :
  firstMissing mapped req = None ->
  (handleGenerate host mapped rows titleTemplate calendarName timezone
   = Failed "No events generated. Check mappings and data."
   <-> Forall (fun row => rowEvents host mapped titleTemplate row = []) rows).
Proof.
  intros Hreq. unfold handleGenerate. rewrite Hreq, processRows_eq.
  rewrite <- flat_map_nil.
  destruct (flat_map _ rows) as [ | ev evs]; split; intros H;
    try reflexivity; discriminate.
Qed.

Lemma handleGenerate_no_events_witness :
  handleGenerate sampleHost sampleMapping [sampleRow "Xyz"] defaultTemplate
    "Workday Schedule" "America/Vancouver"
  = Failed "No events generated. Check mappings and data."
  <-> Forall (fun row => rowEvents sampleHost sampleMapping defaultTemplate row = [])
        [sampleRow "Xyz"].
Proof. apply handleGenerate_no_events. vm_compute. reflexivity. Defined.

(** X13: in a time zone that keeps its midnights regular, for a row
    whose parsed start and end dates are of the year 100 or later, every
    event comes from a local day of the row's date range whose weekday is
    in the row's weekday set: it starts at the instant the host gives to
    that day's midnight plus the parsed start time and ends at the instant
    it gives to that day's midnight plus the parsed end time; when the
    offset of the zone never changes, its length is the difference of the
    two times, which nothing keeps above zero; its summary is not empty. *)
Theorem rowEvents_shape (host : Host) (mapped : gmap string string)
    (titleTemplate : string) (row : gmap string string) (ev : Event) :
  regularMidnights (zone host) ->
  (forall sd,
      parseDate (zone host) (hostParse host) (cell row (mapped !! "startDateField"))
      = Some sd -> 100 <= getFullYear (zone host) sd) ->
  (forall ed,
      parseDate (zone host) (hostParse host) (cell row (mapped !! "endDateField"))
      = Some ed -> 100 <= getFullYear (zone host) ed) ->
  ev ∈ rowEvents host mapped titleTemplate row ->
  exists sd ed st et d,
    parseDate (zone host) (hostParse host) (cell row (mapped !! "startDateField"))
    = Some sd
    /\ parseDate (zone host) (hostParse host) (cell row (mapped !! "endDateField"))
       = Some ed
    /\ parseTime (cell row (mapped !! "startTimeField")) = Some st
    /\ parseTime (cell row (mapped !! "endTimeField")) = Some et
    /\ localDay (zone host) sd <= localDay (zone host) d <= localDay (zone host) ed
    /\ getDay (zone host) d ∈ parseDays (cell row (mapped !! "daysField"))
    /\ dtStart ev
       = atLocal (zone host) (localDay (zone host) d * 86400 + secondsOf st)
    /\ dtEnd ev
       = atLocal (zone host) (localDay (zone host) d * 86400 + secondsOf et)
    /\ (forall c, fixedOffset (zone host) c ->
          timeValue (dtEnd ev) - timeValue (dtStart ev) = secondsOf et - secondsOf st)
    /\ Js.truthy (summary ev) = true.
Proof.
  intros Hreg Hys Hye. unfold rowEvents, processRow.
  destruct (parseDate _ _ (cell row (mapped !! "startDateField"))) as [sd | ];
    [ | intros H; inversion H].
  destruct (parseDate _ _ (cell row (mapped !! "endDateField"))) as [ed | ];
    [ | intros H; inversion H].
  destruct (parseTime (cell row (mapped !! "startTimeField"))) as [st | ];
    [ | intros H; inversion H].
  destruct (parseTime (cell row (mapped !! "endTimeField"))) as [et | ];
    [ | intros H; inversion H].
  destruct (decide _) as [Hz | Hnz]; [intros H; inversion H | ].
  specialize (Hys sd eq_refl). specialize (Hye ed eq_refl).
  cbv zeta. intros Hev. apply list_elem_of_In, in_map_iff in Hev as (d & <- & Hd).
  apply list_elem_of_In in Hd.
  rewrite (proj2 (expandOccurrences_days (zone host) _ Hreg sd ed
                    ltac:(lia) ltac:(lia))) in Hd.
  apply list_elem_of_filter in Hd as [Hday Hd].
  apply elem_of_daysBetween in Hd as [Hmid Hrange]; [ | exact Hreg].
  assert (Hyd : ~ 0 <= getFullYear (zone host) d <= 99).
  { assert (H100 : 100 <= getFullYear (zone host) d); [ | lia].
    unfold getFullYear. apply year_from_100.
    apply year_from_100 in Hys. fold (localDay (zone host) sd) in Hys.
    fold (localDay (zone host) d). lia. }
  exists sd, ed, st, et, d. cbn [dtStart dtEnd summary].
  rewrite !combineDateTime_atLocal by exact Hyd.
  repeat split; try reflexivity; try lia; try exact Hday.
  - intros c Hc. unfold atLocal. cbn [timeValue].
    rewrite !(fixedOffset_UTC _ c) by exact Hc. lia.
  - apply buildSummary_nonempty.
Qed.

Lemma rowEvents_shape_witness :
  exists sd ed st et d,
    parseDate (zone sampleHost) (hostParse sampleHost)
      (cell (sampleRow "MWF") (sampleMapping !! "startDateField")) = Some sd
    /\ parseDate (zone sampleHost) (hostParse sampleHost)
         (cell (sampleRow "MWF") (sampleMapping !! "endDateField")) = Some ed
    /\ parseTime (cell (sampleRow "MWF") (sampleMapping !! "startTimeField")) = Some st
    /\ parseTime (cell (sampleRow "MWF") (sampleMapping !! "endTimeField")) = Some et
    /\ localDay (zone sampleHost) sd <= localDay (zone sampleHost) d
       <= localDay (zone sampleHost) ed
    /\ getDay (zone sampleHost) d
       ∈ parseDays (cell (sampleRow "MWF") (sampleMapping !! "daysField"))
    /\ dtStart (sampleEvent "CS 101 LEC 001")
       = atLocal (zone sampleHost)
           (localDay (zone sampleHost) d * 86400 + secondsOf st)
    /\ dtEnd (sampleEvent "CS 101 LEC 001")
       = atLocal (zone sampleHost)
           (localDay (zone sampleHost) d * 86400 + secondsOf et)
    /\ (forall c, fixedOffset (zone sampleHost) c ->
          timeValue (dtEnd (sampleEvent "CS 101 LEC 001"))
          - timeValue (dtStart (sampleEvent "CS 101 LEC 001"))
          = secondsOf et - secondsOf st)
    /\ Js.truthy (summary (sampleEvent "CS 101 LEC 001")) = true.
Proof.
  apply (rowEvents_shape sampleHost sampleMapping defaultTemplate (sampleRow "MWF")).
  - apply (fixedOffset_regular utc 0), utc_fixed.
  - intros sd Hsd. vm_compute in Hsd. injection Hsd as <-. vm_compute. discriminate.
  - intros ed Hed. vm_compute in Hed. injection Hed as <-. vm_compute. discriminate.
  - apply list_elem_of_In. vm_compute. left. reflexivity.
Defined.

(** X14: in a time zone that keeps its midnights regular, a row whose
    fields all parse and whose weekday set is not empty, with parsed dates
    outside the years 0 to 99, but whose end date is on an earlier local
    day than its start date, gives no event and is not recorded as a
    failure: it is dropped without a trace. *)
Theorem processRow_backwards_range (host : Host) (mapped : gmap string string)
    (titleTemplate : string) (row : gmap string string) (sd ed : Date) :
  regularMidnights (zone host) ->
  ~ rowFails host mapped row ->
  parseDate (zone host) (hostParse host) (cell row (mapped !! "startDateField"))
  = Some sd ->
  parseDate (zone host) (hostParse host) (cell row (mapped !! "endDateField"))
  = Some ed ->
  ~ 0 <= getFullYear (zone host) sd <= 99 ->
  ~ 0 <= getFullYear (zone host) ed <= 99 ->
  localDay (zone host) ed < localDay (zone host) sd ->
  processRow host mapped titleTemplate row = inr []
  /\ rowFailures host mapped titleTemplate 0 [row] = [].
Proof.
  intros Hreg Hok Hsd Hed Hys Hye Hlt.
  destruct (proj2 (processRow_fails host mapped titleTemplate row) Hok) as [evs Hrow].
  assert (Hevs : evs = []).
  { revert Hrow. unfold processRow. rewrite Hsd, Hed.
    destruct (parseTime (cell row (mapped !! "startTimeField"))); [ | discriminate].
    destruct (parseTime (cell row (mapped !! "endTimeField"))); [ | discriminate].
    destruct (decide _); [discriminate | ].
    cbv zeta.
    rewrite (proj2 (expandOccurrences_days (zone host) _ Hreg sd ed Hys Hye)).
    rewrite daysBetween_empty by lia. rewrite filter_nil. intros [= <-]. reflexivity. }
  subst evs. split; [exact Hrow | ]. simpl. rewrite Hrow. reflexivity.
Qed.

Lemma processRow_backwards_range_witness :
  processRow sampleHost sampleMapping defaultTemplate backwardsRow = inr []
  /\ rowFailures sampleHost sampleMapping defaultTemplate 0 [backwardsRow] = [].
Proof.
  apply (processRow_backwards_range sampleHost sampleMapping defaultTemplate backwardsRow
           (newDate utc 2025 0 17 0 0 0) (newDate utc 2025 0 6 0 0 0)).
  - apply (fixedOffset_regular utc 0), utc_fixed.
  - unfold rowFails. vm_compute. intros [H | [H | [H | [H | H]]]]; discriminate.
  - vm_compute. reflexivity.
  - vm_compute. reflexivity.
  - vm_compute. intros [_ H]. apply H. reflexivity.
  - vm_compute. intros [_ H]. apply H. reflexivity.
  - vm_compute. reflexivity.
Defined.

(** ** Reading delimited text *)

Section CsvScan.

Import Csv.

Lemma scan_quoted_body (f : string) :
  forall (rest : string) (R : list (list string)) (C : list string) (F : string),
    notQuoteStart rest = true ->
    scan false (doubleQuotes f +:+ String DQ rest) (mkState R C F true)
    = scan false rest (mkState R C (F +:+ f) false).
Proof.
  induction f as [ | c f IH]; intros rest R C F Hrest.
  - cbn [doubleQuotes replaceChars append scan inQuotes].
    rewrite Ascii.eqb_refl. rewrite append_empty_r.
    destruct rest as [ | c2 rest']; [reflexivity | ].
    simpl in Hrest. apply negb_true_iff in Hrest. rewrite Hrest. reflexivity.
  - unfold doubleQuotes. cbn [replaceChars]. fold (doubleQuotes f).
    destruct (Ascii.eqb_spec c DQ) as [-> | Hne].
    + cbn [append scan inQuotes]. rewrite !Ascii.eqb_refl.
      cbn [scan]. unfold addChar. cbn [rows cur field inQuotes].
      rewrite IH by exact Hrest. rewrite append_assoc. reflexivity.
    + cbn [append scan inQuotes]. apply Ascii.eqb_neq in Hne. rewrite Hne.
      unfold addChar. cbn [rows cur field inQuotes].
      rewrite IH by exact Hrest. rewrite append_assoc. reflexivity.
Qed.

Lemma scan_field (f rest : string) (R : list (list string)) (C : list string) :
  notQuoteStart rest = true ->
  scan false (encodeField f +:+ rest) (mkState R C "" false)
  = scan false rest (mkState R C f false).
Proof.
  intros Hrest. unfold encodeField. cbn [append]. rewrite append_assoc.
  cbn [append scan inQuotes]. rewrite Ascii.eqb_refl.
  unfold setQuotes. cbn [rows cur field].
  rewrite scan_quoted_body by exact Hrest. reflexivity.
Qed.

(** A row, up to the end of its last field: the fields before the last
    are pushed, the last one is in [field]. *)
Lemma scan_row (r : list string) :
  forall (f rest : string) (R : list (list string)) (C : list string),
    notQuoteStart rest = true ->
    scan false (encodeRow (f :: r) +:+ rest) (mkState R C "" false)
    = scan false rest (mkState R (C ++ removelast (f :: r)) (List.last (f :: r) "") false).
Proof.
  induction r as [ | f2 r IH]; intros f rest R C Hrest.
  - unfold encodeRow. cbn [map Js.join removelast List.last].
    rewrite scan_field by exact Hrest. rewrite app_nil_r. reflexivity.
  - change (encodeRow (f :: f2 :: r))
      with (Js.join "," (encodeField f :: map encodeField (f2 :: r))).
    rewrite join_cons by discriminate.
    change (Js.join "," (map encodeField (f2 :: r))) with (encodeRow (f2 :: r)).
    rewrite !append_assoc.
    rewrite scan_field by reflexivity.
    cbn [append scan inQuotes]. 
    change (Ascii.eqb "," DQ) with false. cbn iota. rewrite Ascii.eqb_refl.
    unfold pushField. cbn [rows cur field inQuotes].
    rewrite IH by exact Hrest.
    change (removelast (f :: f2 :: r)) with (f :: removelast (f2 :: r)).
    change (List.last (f :: f2 :: r) "") with (List.last (f2 :: r) "").
    rewrite <- app_assoc. reflexivity.
Qed.

Lemma removelast_last (f : string) (r : list string) :
  removelast (f :: r) ++ [List.last (f :: r) ""] = f :: r.
Proof. symmetry. apply app_removelast_last. discriminate. Qed.

(** A table: each row is pushed when its newline or the end of the
    text is reached. *)
Lemma finish_last (R : list (list string)) (f : string) (r : list string) :
  finish (mkState R (removelast (f :: r)) (List.last (f :: r) "") false)
  = R ++ [f :: r].
Proof.
  unfold finish, pushField. cbn [rows cur field inQuotes].
  rewrite removelast_last. reflexivity.
Qed.

Lemma scan_table (t : list (list string)) :
  forall (r : list string) (R : list (list string)),
    r <> [] -> Forall (fun r' => r' <> []) t ->
    finish (scan false (encodeTable (r :: t)) (mkState R [] "" false)) = R ++ r :: t.
Proof.
  induction t as [ | r2 t IH]; intros r R Hr Ht.
  - destruct r as [ | f r]; [congruence | ].
    change (encodeTable [f :: r]) with (encodeRow (f :: r)).
    rewrite <- (append_empty_r (encodeRow (f :: r))).
    rewrite scan_row by reflexivity. cbn [scan app]. apply finish_last.
  - destruct r as [ | f r]; [congruence | ].
    inversion Ht as [ | ? ? Hr2 Ht']; subst.
    change (encodeTable ((f :: r) :: r2 :: t))
      with (Js.join NL (encodeRow (f :: r) :: map encodeRow (r2 :: t))).
    rewrite join_cons by discriminate.
    change (Js.join NL (map encodeRow (r2 :: t))) with (encodeTable (r2 :: t)).
    rewrite scan_row by reflexivity.
    unfold NL. cbn [append scan inQuotes].
    change (Ascii.eqb LF DQ) with false. change (Ascii.eqb LF ",") with false.
    cbn iota. rewrite Ascii.eqb_refl.
    unfold pushRow, pushField. cbn [rows cur field inQuotes app].
    rewrite removelast_last.
    rewrite (IH r2 (R ++ [f :: r]) Hr2 Ht'). rewrite <- app_assoc. reflexivity.
Qed.

End CsvScan.

(** X15: a table written with every field in quotes (quotes inside a
    field doubled, commas between fields, newlines between rows) is read
    back as it was, whatever the fields hold; its first row becomes the
    headers, and each later row with some cell that is not blank becomes a
    record. *)
Theorem parseCSV_quoted_roundtrip (header : list string) (body : list (list string)) :
  header <> [] -> Forall (fun r => r <> []) body ->
  Csv.parseRows (Csv.encodeTable (header :: body)) = header :: body
  /\ Csv.hdrs (Csv.parseCSV (Csv.encodeTable (header :: body))) = header
  /\ Csv.data (Csv.parseCSV (Csv.encodeTable (header :: body)))
     = map (Csv.toRecord header) (filter (fun r => Csv.isDataRow r = true) body).
Proof.
  intros Hh Hb.
  assert (E : Csv.parseRows (Csv.encodeTable (header :: body)) = header :: body).
  { unfold Csv.parseRows, Csv.init. apply (scan_table body header [] Hh Hb). }
  split; [exact E | ]. unfold Csv.parseCSV. rewrite E. split; reflexivity.
Qed.

Lemma parseCSV_quoted_roundtrip_witness :
  Csv.parseRows (Csv.encodeTable [["Course"; "Days"]; ["CS 101, A"; "MWF"]])
  = [["Course"; "Days"]; ["CS 101, A"; "MWF"]]
  /\ Csv.hdrs (Csv.parseCSV (Csv.encodeTable [["Course"; "Days"]; ["CS 101, A"; "MWF"]]))
     = ["Course"; "Days"]
  /\ Csv.data (Csv.parseCSV (Csv.encodeTable [["Course"; "Days"]; ["CS 101, A"; "MWF"]]))
     = map (Csv.toRecord ["Course"; "Days"])
         (filter (fun r => Csv.isDataRow r = true) [["CS 101, A"; "MWF"]]).
Proof.
  apply parseCSV_quoted_roundtrip; [discriminate | repeat constructor; discriminate].
Defined.

Section CsvPlain.

Import Csv.

Lemma finish_open (R : list (list string)) (C : list string) (F : string) :
  finish (mkState R C F false) = R ++ [C ++ [F]].
Proof.
  unfold finish, pushField, pushRow. cbn [rows cur field inQuotes].
  destruct (C ++ [F]) as [ | x l] eqn:E; [ | reflexivity].
  destruct C; discriminate.
Qed.

Lemma removeCR_cons c s :
  removeCR (String c s) = if Ascii.eqb c CR then removeCR s else String c (removeCR s).
Proof. unfold removeCR. cbn [replaceChars]. destruct (Ascii.eqb c CR); reflexivity. Qed.

(** The scan of a text without quotes, from any state outside quotes:
    what is read goes on after the field and the row that are open. *)
Lemma scan_plain (text : string) :
  Js.includesChar DQ text = false ->
  forall (R : list (list string)) (C : list string) (F : string),
  exists c0 cs ls,
    map (Js.split ",") (Js.split LF (removeCR text)) = (c0 :: cs) :: ls
    /\ finish (scan false text (mkState R C F false))
       = R ++ (C ++ (F +:+ c0) :: cs) :: ls.
Proof.
  induction text as [ | c text IH]; intros Hq R C F.
  - exists "", [], []. split; [reflexivity | ].
    cbn [scan]. rewrite finish_open, append_empty_r. reflexivity.
  - cbn [Js.includesChar] in Hq. apply orb_false_iff in Hq as [Hc Hq].
    rewrite removeCR_cons. cbn [scan inQuotes]. rewrite Hc.
    destruct (Ascii.eqb_spec c ",") as [-> | Hcomma].
    { change (Ascii.eqb "," CR) with false. cbn iota.
      destruct (IH Hq R (C ++ [F]) "") as (c0 & cs & ls & Hmap & Hfin).
      unfold pushField. cbn [rows cur field inQuotes]. rewrite Hfin.
      cbn [Js.split]. change (Ascii.eqb "," LF) with false. cbn iota.
      destruct (Js.split LF (removeCR text)) as [ | p ps]; [discriminate | ].
      cbn [map] in Hmap |- *. injection Hmap as Hp Hps.
      cbn [Js.split]. rewrite Ascii.eqb_refl. rewrite Hp.
      exists "", (c0 :: cs), ls. split; [rewrite Hps; reflexivity | ].
      rewrite append_empty_r. rewrite <- app_assoc. reflexivity. }
    destruct (Ascii.eqb_spec c LF) as [-> | Hlf].
    { change (Ascii.eqb LF CR) with false. cbn iota.
      destruct (IH Hq (R ++ [C ++ [F]]) [] "") as (c0 & cs & ls & Hmap & Hfin).
      unfold pushRow, pushField. cbn [rows cur field inQuotes]. rewrite Hfin.
      cbn [Js.split]. rewrite Ascii.eqb_refl. cbn [map Js.split].
      exists "", [], ((c0 :: cs) :: ls). split; [rewrite Hmap; reflexivity | ].
      rewrite append_empty_r. rewrite <- app_assoc. reflexivity. }
    destruct (Ascii.eqb_spec c CR) as [-> | Hcr].
    { apply IH, Hq. }
    destruct (IH Hq R C (F +:+ String c "")) as (c0 & cs & ls & Hmap & Hfin).
    unfold addChar. cbn [rows cur field inQuotes]. rewrite Hfin.
    cbn [Js.split]. apply Ascii.eqb_neq in Hlf. rewrite Hlf.
    destruct (Js.split LF (removeCR text)) as [ | p ps]; [discriminate | ].
    cbn [map] in Hmap |- *. injection Hmap as Hp Hps.
    cbn [Js.split]. apply Ascii.eqb_neq in Hcomma. rewrite Hcomma. rewrite Hp.
    exists (String c c0), cs, ls. split; [rewrite Hps; reflexivity | ].
    rewrite append_assoc. reflexivity.
Qed.

End CsvPlain.

(** X16: a text without quotes is read as its lines, split at the
    commas, with every carriage return left out; so line ends of CR LF read
    as line ends of LF, and a newline at the end of the text gives a last
    row of one empty field. *)
Theorem parseCSV_plain (text : string) :
  Js.includesChar Csv.DQ text = false ->
  Csv.parseRows text = map (Js.split ",") (Js.split LF (removeCR text)).
Proof.
  intros Hq. unfold Csv.parseRows, Csv.init.
  destruct (scan_plain text Hq [] [] "") as (c0 & cs & ls & -> & ->).
  reflexivity.
Qed.

Lemma parseCSV_plain_witness :
  Csv.parseRows ("a,b" +:+ String Csv.CR NL +:+ "c,d" +:+ NL)
  = map (Js.split ",") (Js.split LF (removeCR ("a,b" +:+ String Csv.CR NL +:+ "c,d" +:+ NL))).
Proof. apply parseCSV_plain. vm_compute. reflexivity. Defined.

Example parseCSV_plain_example :
  Csv.parseRows ("a,b" +:+ String Csv.CR NL +:+ "c,d" +:+ NL)
  = [["a"; "b"]; ["c"; "d"]; [""]].
Proof. vm_compute. reflexivity. Qed.

(** ** Records *)

Lemma fromEntries_snoc (es : list (string * string)) (e : string * string) :
  Csv.fromEntries (es ++ [e]) = <[fst e := snd e]> (Csv.fromEntries es).
Proof. unfold Csv.fromEntries. rewrite foldl_app. reflexivity. Qed.

Lemma toRecord_snoc (hs r : list string) (h : string) :
  Csv.toRecord (hs ++ [h]) r
  = <[h := default "" (r !! length hs)]> (Csv.toRecord hs r).
Proof.
  unfold Csv.toRecord. rewrite imap_app. cbn [imap].
  rewrite fromEntries_snoc. cbn [fst snd].
  replace (length hs + 0)%nat with (length hs) by lia. reflexivity.
Qed.

(** X17: a record has a value for exactly the headers; the value of a
    header is the cell at the header's last position, and the empty text
    when the row is too short to have that cell. *)
Theorem toRecord_lookup (hs r : list string) :
  (forall k, is_Some (Csv.toRecord hs r !! k) <-> k ∈ hs)
  /\ (forall i h,
        hs !! i = Some h -> (forall j, (i < j)%nat -> hs !! j <> Some h) ->
        Csv.toRecord hs r !! h = Some (default "" (r !! i))).
Proof.
  induction hs as [ | h0 hs [IHdom IHval]] using rev_ind.
  - split.
    + intros k. unfold Csv.toRecord, Csv.fromEntries. cbn [imap foldl].
      rewrite lookup_empty. split; [intros [x Hx]; discriminate | intros H; inversion H].
    + intros i h Hi. destruct i; discriminate.
  - rewrite toRecord_snoc. split.
    + intros k. rewrite lookup_insert. rewrite elem_of_app, list_elem_of_singleton.
      destruct (decide (h0 = k)) as [-> | Hne].
      * split; [intros _; right; reflexivity | intros _; eexists; reflexivity].
      * rewrite IHdom. split; [intros H; left; exact H | intros [H | H]; [exact H | congruence]].
    + intros i h Hi Hlast.
      destruct (decide (i < length hs)%nat) as [Hlt | Hge].
      * rewrite lookup_app_l in Hi by exact Hlt.
        assert (Hne : h0 <> h).
        { intros ->. apply (Hlast (length hs) Hlt).
          rewrite lookup_app_r by lia. rewrite Nat.sub_diag. reflexivity. }
        rewrite lookup_insert_ne by exact Hne. apply IHval; [exact Hi | ].
        intros j Hj Hjh. apply (Hlast j Hj).
        rewrite lookup_app_l; [exact Hjh | ]. apply lookup_lt_Some in Hjh. exact Hjh.
      * assert (Hi' := Hi). apply lookup_lt_Some in Hi'. rewrite length_app in Hi'.
        simpl in Hi'. assert (i = length hs) by lia. subst i.
        rewrite lookup_app_r in Hi by lia. rewrite Nat.sub_diag in Hi.
        injection Hi as ->. rewrite lookup_insert_eq. reflexivity.
Qed.

Lemma toRecord_lookup_witness :
  Csv.toRecord ["Course"; "Days"] ["CS 101"] !! "Days" = Some (default "" (["CS 101"] !! 1%nat)).
Proof.
  apply (toRecord_lookup ["Course"; "Days"] ["CS 101"]); [reflexivity | ].
  intros j Hj Hjh. apply lookup_lt_Some in Hjh. simpl in Hjh. lia.
Defined.

(** ** Guessing the field mapping *)

Section GuessFacts.

Import Guess.

Lemma findIndex_Some (p : string -> bool) (l : list string) (i : nat) :
  findIndex p l = Some i -> exists x, l !! i = Some x /\ p x = true.
Proof.
  revert i. induction l as [ | x l IH]; intros i H; [discriminate | ].
  simpl in H. destruct (p x) eqn:Hp.
  - injection H as <-. exists x. auto.
  - destruct (findIndex p l) as [j | ]; [ | discriminate].
    injection H as <-. apply (IH j eq_refl).
Qed.

Lemma findIndex_None (p : string -> bool) (l : list string) :
  findIndex p l = None <-> forall x, In x l -> p x = false.
Proof.
  induction l as [ | x l IH]; simpl.
  - split; [intros _ y [] | reflexivity].
  - destruct (p x) eqn:Hp.
    + split; [discriminate | ]. intros H. specialize (H x (or_introl eq_refl)). congruence.
    + destruct (findIndex p l) as [j | ].
      * split; [discriminate | ]. intros H. exfalso.
        assert (Hn : Some j = None) by (apply IH; intros y Hy; apply H; right; exact Hy).
        discriminate.
      * split; [ | reflexivity]. intros _ y [<- | Hy]; [exact Hp | ].
        apply (proj1 IH eq_refl y Hy).
Qed.

Lemma includes_nonempty (c s : string) :
  Js.truthy c = true -> includes c s = true -> Js.truthy s = true.
Proof.
  intros Hc H. destruct s as [ | x s]; [ | reflexivity].
  destruct c; [discriminate | ]. simpl in H. discriminate.
Qed.

Lemma toLowerCase_truthy s : Js.truthy (Js.toLowerCase s) = Js.truthy s.
Proof. destruct s; reflexivity. Qed.

(** What [pick] returns: a header whose lower-case form holds one of
    the candidates, or the empty text when there is no such header. *)
Lemma pick_spec (headers cands : list string) :
  Forall (fun c => Js.truthy c = true) cands ->
  (someHeaderHas headers cands ->
     In (pick headers (map Js.toLowerCase headers) cands) headers
     /\ Js.truthy (pick headers (map Js.toLowerCase headers) cands) = true
     /\ exists c, In c cands
          /\ includes c (Js.toLowerCase (pick headers (map Js.toLowerCase headers) cands)) = true)
  /\ (~ someHeaderHas headers cands ->
      pick headers (map Js.toLowerCase headers) cands = "").
Proof.
  induction 1 as [ | c cands Hc Hcs IH].
  - split; [intros (c & x & [] & _) | reflexivity].
  - cbn [pick].
    destruct (findIndex (includes c) (map Js.toLowerCase headers)) as [i | ] eqn:E.
    + apply findIndex_Some in E as (lx & Hi & Hinc).
      rewrite list_lookup_fmap in Hi.
      destruct (headers !! i) as [x | ] eqn:Hx; [ | discriminate].
      injection Hi as <-. cbn [default].
      split; [ | intros Hno; exfalso; apply Hno; exists c, x; repeat split;
                 [left; reflexivity | | exact Hinc]].
      * intros _. split; [ | split].
        -- apply list_elem_of_In, list_elem_of_lookup. eauto.
        -- rewrite <- toLowerCase_truthy. eapply includes_nonempty; eassumption.
        -- exists c. split; [left; reflexivity | exact Hinc].
      * apply list_elem_of_In, list_elem_of_lookup. eauto.
    + rewrite findIndex_None in E. destruct IH as [IHyes IHno]. split.
      * intros (c' & x & [<- | Hc'] & Hx & Hinc).
        { rewrite E in Hinc; [discriminate | ]. apply in_map. exact Hx. }
        destruct IHyes as (Hin & Ht & c'' & Hc'' & Hinc'').
        { exists c', x. auto. }
        split; [exact Hin | ]. split; [exact Ht | ].
        exists c''. split; [right; exact Hc'' | exact Hinc''].
      * intros Hno. apply IHno. intros (c' & x & Hc' & Hx & Hinc).
        apply Hno. exists c', x. split; [right; exact Hc' | auto].
Qed.

Lemma pick_values (headers lowered cands : list string) :
  length lowered = length headers ->
  pick headers lowered cands = "" \/ In (pick headers lowered cands) headers.
Proof.
  intros Hlen. induction cands as [ | c cands IH]; [left; reflexivity | ].
  cbn [pick]. destruct (findIndex (includes c) lowered) as [i | ] eqn:E; [ | exact IH].
  apply findIndex_Some in E as (lx & Hi & _). apply lookup_lt_Some in Hi.
  rewrite Hlen in Hi. apply lookup_lt_is_Some in Hi as [x Hx]. rewrite Hx.
  right. apply list_elem_of_In, list_elem_of_lookup. eauto.
Qed.

Lemma findSome (headers cands : list string) :
  someHeaderHas headers cands \/ ~ someHeaderHas headers cands.
Proof.
  destruct (existsb (fun c => existsb (fun x => includes c (Js.toLowerCase x)) headers)
              cands) eqn:E.
  - left. apply existsb_exists in E as (c & Hc & E).
    apply existsb_exists in E as (x & Hx & E). exists c, x. auto.
  - right. intros (c & x & Hc & Hx & Hinc).
    assert (Ht : existsb (fun c => existsb (fun x => includes c (Js.toLowerCase x)) headers)
                   cands = true).
    { apply existsb_exists. exists c. split; [exact Hc | ].
      apply existsb_exists. exists x. auto. }
    congruence.
Qed.

Lemma candidates_nonempty :
  Forall (fun kc => Forall (fun c => Js.truthy c = true) (snd kc)) candidates.
Proof. repeat constructor. Qed.

Lemma guess_lookup (headers : list string) (k : string) (cands : list string) :
  In (k, cands) candidates ->
  guessInitialMapping headers !! k
  = Some (pick headers (map Js.toLowerCase headers) cands).
Proof.
  unfold candidates. simpl.
  intros [H | [H | [H | [H | [H | [H | [H | [H | [H | [H | []]]]]]]]]]];
    injection H as <- <-; reflexivity.
Qed.

Lemma guess_keys (headers : list string) (k : string) :
  is_Some (guessInitialMapping headers !! k) -> exists cands, In (k, cands) candidates.
Proof.
  intros [v Hv]. unfold guessInitialMapping in Hv.
  apply elem_of_list_to_map_2 in Hv.
  apply list_elem_of_fmap in Hv as ([k' cands] & [= -> ->] & Hin).
  exists cands. apply list_elem_of_In. exact Hin.
Qed.

End GuessFacts.

(** X18: every value that [guessInitialMapping] gives is one of the
    headers or the empty text; it gives a value to the ten roles of its
    candidate table and to no other key, so never to the description; and
    merging the guesses into a mapping replaces what was mapped for these
    ten roles and keeps the rest. *)
Theorem guessInitialMapping_values (headers : list string) (m : gmap string string) :
  (forall k v, Guess.guessInitialMapping headers !! k = Some v -> v = "" \/ In v headers)
  /\ (forall k, is_Some (Guess.guessInitialMapping headers !! k)
                <-> exists cands, In (k, cands) Guess.candidates)
  /\ Guess.guessInitialMapping headers !! "descField" = None
  /\ (forall k, Guess.applyGuess m (Guess.guessInitialMapping headers) !! k
                = match Guess.guessInitialMapping headers !! k with
                  | Some v => Some v
                  | None => m !! k
                  end).
Proof.
  split; [ | split; [ | split]].
  - intros k v Hv.
    destruct (guess_keys headers k (mk_is_Some _ _ Hv)) as [cands Hin].
    rewrite (guess_lookup headers k cands Hin) in Hv. injection Hv as <-.
    apply pick_values. apply length_map.
  - intros k. split; [apply guess_keys | ].
    intros [cands Hin]. rewrite (guess_lookup headers k cands Hin). eexists; reflexivity.
  - reflexivity.
  - intros k. unfold Guess.applyGuess. rewrite lookup_union.
    destruct (Guess.guessInitialMapping headers !! k); destruct (m !! k); reflexivity.
Qed.

Lemma guessInitialMapping_values_witness :
  "Start Date" = "" \/ In "Start Date" ["Course"; "Start Date"; "Days"].
Proof.
  apply (proj1 (guessInitialMapping_values ["Course"; "Start Date"; "Days"] ∅)
           "startDateField").
  vm_compute. reflexivity.
Defined.

(** X19: a role gets a guess that is not empty exactly when some header
    holds, case ignored, one of the role's candidates, and the guess is
    then such a header; so generating with the guessed mapping passes the
    check of the required mappings exactly when each of the five required
    roles has such a header, and otherwise ends with the missing-mapping
    error whatever the rows are. *)
Theorem guessInitialMapping_required (headers : list string) :
  (forall k cands,
      In (k, cands) Guess.candidates ->
      (isMapped (Guess.guessInitialMapping headers !! k) = true
       <-> Guess.someHeaderHas headers cands))
  /\ (forall k cands,
        In (k, cands) Guess.candidates -> In k req ->
        ~ Guess.someHeaderHas headers cands ->
        exists k',
          In k' req
          /\ forall host rows titleTemplate calendarName timezone,
               handleGenerate host (Guess.guessInitialMapping headers) rows
                 titleTemplate calendarName timezone
               = Failed ("Missing required mapping: " +:+ labelForKey k')).
Proof.
  assert (Hiff : forall k cands,
             In (k, cands) Guess.candidates ->
             (isMapped (Guess.guessInitialMapping headers !! k) = true
              <-> Guess.someHeaderHas headers cands)).
  { intros k cands Hin. rewrite (guess_lookup headers k cands Hin). cbn [isMapped].
    pose proof candidates_nonempty as HF. rewrite Forall_forall in HF.
    specialize (HF (k, cands) (proj2 (list_elem_of_In _ _) Hin)). cbn [snd] in HF.
    destruct (pick_spec headers cands HF) as [Hyes Hno]. split.
    - intros Ht.
      destruct (findSome headers cands) as [Hs | Hs]; [exact Hs | ].
      rewrite (Hno Hs) in Ht. discriminate.
    - intros Hs. apply Hyes, Hs. }
  split; [exact Hiff | ].
  intros k cands Hin Hreq Hno.
  assert (Hk : isMapped (Guess.guessInitialMapping headers !! k) = false).
  { destruct (isMapped (Guess.guessInitialMapping headers !! k)) eqn:E; [ | reflexivity].
    exfalso. apply Hno. apply (Hiff k cands Hin). exact E. }
  destruct (firstMissing_found _ k req Hreq Hk) as (k' & Hin' & _ & Hf).
  exists k'. split; [exact Hin' | ].
  intros host rows titleTemplate calendarName timezone.
  unfold handleGenerate. rewrite Hf. reflexivity.
Qed.

Lemma guessInitialMapping_required_witness :
  exists k',
    In k' req
    /\ forall host rows titleTemplate calendarName timezone,
         handleGenerate host (Guess.guessInitialMapping ["Course"; "Start Date"; "Days"])
           rows titleTemplate calendarName timezone
         = Failed ("Missing required mapping: " +:+ labelForKey k').
Proof.
  apply (proj2 (guessInitialMapping_required ["Course"; "Start Date"; "Days"])
           "endTimeField" ["end time"; "time end"; "to time"; "finish time"]).
  - simpl. tauto.
  - simpl. tauto.
  - intros (c & x & Hc & Hx & Hinc). simpl in Hc, Hx.
    destruct Hc as [<- | [<- | [<- | [<- | []]]]];
      destruct Hx as [<- | [<- | [<- | []]]]; vm_compute in Hinc; discriminate.
Defined.

(** ** The lines of the document *)

Lemma noNewline_app (a b : string) :
  noNewline (a +:+ b) = noNewline a && noNewline b.
Proof. unfold noNewline. rewrite includesChar_app, negb_orb. reflexivity. Qed.

Lemma icsEscape_noNewline (s : string) : noNewline (icsEscape s) = true.
Proof.
  unfold noNewline. apply negb_true_iff.
  induction s as [ | c s IH]; [reflexivity | ].
  rewrite icsEscape_cons, includesChar_app, escChar_noNewline, IH. reflexivity.
Qed.

Lemma string_of_uint_noNewline (d : Decimal.uint) :
  noNewline (NilEmpty.string_of_uint d) = true.
Proof. induction d; simpl; try reflexivity; exact IHd. Qed.

Lemma NilZero_noNewline (d : Decimal.uint) :
  noNewline (NilZero.string_of_uint d) = true.
Proof.
  destruct d; [reflexivity | ..];
    match goal with
    | |- noNewline (NilZero.string_of_uint ?x) = true =>
        exact (string_of_uint_noNewline x)
    end.
Qed.

Lemma showZ_noNewline (n : Z) : noNewline (showZ n) = true.
Proof.
  unfold showZ, NilZero.string_of_int.
  destruct (Z.to_int n) as [d | d]; [apply NilZero_noNewline | ].
  change (String "-" (NilZero.string_of_uint d))
    with ("-" +:+ NilZero.string_of_uint d).
  rewrite noNewline_app, NilZero_noNewline. reflexivity.
Qed.

Lemma pad_noNewline (n : Z) : noNewline (pad n) = true.
Proof.
  unfold pad. destruct (_ <? 2)%nat; [ | apply showZ_noNewline].
  rewrite noNewline_app, showZ_noNewline. reflexivity.
Qed.

Lemma icsDateTimeLocal_noNewline (tz : Zone) (dt : Date) :
  noNewline (icsDateTimeLocal tz dt) = true.
Proof.
  unfold icsDateTimeLocal.
  rewrite !noNewline_app, showZ_noNewline, !pad_noNewline. reflexivity.
Qed.

Lemma icsDateTimeUTC_noNewline (dt : Date) : noNewline (icsDateTimeUTC dt) = true.
Proof.
  unfold icsDateTimeUTC.
  rewrite !noNewline_app, showZ_noNewline, !pad_noNewline. reflexivity.
Qed.

Lemma eventLogicalLines_noNewline (host : Host) (i : nat) (ev : Event) :
  noNewline (random host i) = true ->
  Forall (fun l => noNewline l = true) (eventLogicalLines host i ev).
Proof.
  intros Hr. unfold eventLogicalLines.
  repeat (apply Forall_app; split);
    repeat match goal with
      | |- Forall _ (if ?b then _ else _) => destruct b
      | |- Forall _ (_ :: _) => constructor
      | |- Forall _ [] => constructor
      end;
    rewrite ?noNewline_app, ?Hr, ?icsDateTimeUTC_noNewline,
      ?icsDateTimeLocal_noNewline, ?icsEscape_noNewline; reflexivity.
Qed.

(** The text that [eventBlock] folds is its logical lines joined by
    newlines. *)
Lemma eventBlock_join (host : Host) (i : nat) (ev : Event) :
  eventBlock host i ev
  = foldLines (Js.join NL (eventLogicalLines host i ev)) +:+ NL.
Proof.
  unfold eventBlock, eventLogicalLines. f_equal. f_equal.
  destruct (Js.truthy (summary ev)), (Js.truthy (location ev)),
    (Js.truthy (description ev));
    cbn [app Js.join]; rewrite ?append_assoc; reflexivity.
Qed.

(** Lines without newlines, joined and followed by a newline, split
    into these lines and what follows. *)
Lemma split_join_app (ls : list string) (rest : string) :
  ls <> [] -> Forall (fun l => noNewline l = true) ls ->
  Js.split LF (Js.join NL ls +:+ NL +:+ rest) = ls ++ Js.split LF rest.
Proof.
  induction ls as [ | l ls IH]; [congruence | ].
  intros _ HF. inversion HF as [ | ? ? Hl Hls]; subst.
  unfold noNewline in Hl. apply negb_true_iff in Hl.
  destruct ls as [ | l2 ls].
  - cbn [Js.join app]. apply split_line, Hl.
  - rewrite join_cons by discriminate. rewrite !append_assoc.
    rewrite split_line by exact Hl.
    rewrite IH; [reflexivity | discriminate | exact Hls].
Qed.

Lemma eventBlocks_lines (host : Host) (events : list Event) :
  (forall i, noNewline (random host i) = true) ->
  forall (i : nat) (rest : string),
    Js.split LF (eventBlocks host i events +:+ rest)
    = eventsLines host i events ++ Js.split LF rest.
Proof.
  intros Hr. induction events as [ | ev evs IH]; intros i rest; [reflexivity | ].
  cbn [eventBlocks eventsLines]. rewrite eventBlock_join.
  pose proof (eventLogicalLines_noNewline host i ev (Hr i)) as HF.
  assert (Hne : eventLogicalLines host i ev <> []) by (unfold eventLogicalLines; discriminate).
  destruct (flat_map_foldLine_props _ Hne HF) as (Hne' & Hnl & _).
  unfold foldLines. rewrite split_join by assumption.
  rewrite !append_assoc. rewrite split_join_app by assumption.
  rewrite IH, <- app_assoc. reflexivity.
Qed.

Lemma header_join (calName tzHint : string) :
  icsHeader calName tzHint = Js.join NL (headerLines calName tzHint) +:+ NL.
Proof.
  unfold icsHeader, headerLines.
  destruct (Js.truthy calName), (Js.truthy tzHint);
    cbn [app Js.join]; rewrite ?append_assoc; reflexivity.
Qed.

Lemma headerLines_noNewline (calName tzHint : string) :
  Forall (fun l => noNewline l = true) (headerLines calName tzHint).
Proof.
  unfold headerLines.
  repeat (apply Forall_app; split);
    repeat match goal with
      | |- Forall _ (if ?b then _ else _) => destruct b
      | |- Forall _ (_ :: _) => constructor
      | |- Forall _ [] => constructor
      end;
    rewrite ?noNewline_app, ?icsEscape_noNewline; reflexivity.
Qed.

(** X20: when the random identifiers hold no newline, the physical
    lines of the document are the header lines, as they are, then for each
    event in order the folded pieces of its lines (BEGIN, UID, DTSTAMP,
    DTSTART, DTEND, then SUMMARY, LOCATION and DESCRIPTION when their
    text is not empty, then END), then END:VCALENDAR and an empty last
    line; no text of a field adds or removes a line. *)
Theorem buildICS_lines (host : Host) (events : list Event) (calName tzHint : string) :
  (forall i, noNewline (random host i) = true) ->
  physicalLines (buildICS host events calName tzHint)
  = headerLines calName tzHint ++ eventsLines host 0 events ++ ["END:VCALENDAR"; ""].
Proof.
  intros Hr. unfold physicalLines, buildICS.
  rewrite header_join, !append_assoc.
  rewrite split_join_app;
    [ | unfold headerLines; discriminate | apply headerLines_noNewline].
  rewrite eventBlocks_lines by exact Hr. reflexivity.
Qed.

Lemma buildICS_lines_witness :
  physicalLines (buildICS sampleHost [sampleEvent "a,b"] "x" "")
  = headerLines "x" "" ++ eventsLines sampleHost 0 [sampleEvent "a,b"]
    ++ ["END:VCALENDAR"; ""].
Proof.
  apply buildICS_lines. intros i. unfold sampleHost. cbn [random].
  rewrite noNewline_app. apply showZ_noNewline.
Defined.

(** ** Rows of the delimited text *)

Section CsvRows.

Import Csv.

Lemma finish_any (st : state) : finish st = rows st ++ [cur st ++ [field st]].
Proof.
  unfold finish, pushField, pushRow. cbn [rows cur field inQuotes].
  destruct (cur st ++ [field st]) as [ | x l] eqn:E; [ | reflexivity].
  destruct (cur st); discriminate.
Qed.

Lemma scan_rows_nonempty (text : string) :
  forall (skip : bool) (st : state),
    Forall (fun r => r <> []) (rows st) ->
    Forall (fun r => r <> []) (rows (scan skip text st)).
Proof.
  induction text as [ | ch text IH]; intros skip st Hst; [exact Hst | ].
  cbn [scan]. destruct skip; [apply IH, Hst | ].
  destruct (inQuotes st).
  - destruct (Ascii.eqb ch DQ).
    + destruct text as [ | ch2 text']; [apply IH, Hst | ].
      destruct (Ascii.eqb ch2 DQ); apply IH, Hst.
    + apply IH, Hst.
  - destruct (Ascii.eqb ch DQ); [apply IH, Hst | ].
    destruct (Ascii.eqb ch ","); [apply IH, Hst | ].
    destruct (Ascii.eqb ch LF).
    + apply IH. unfold pushRow, pushField. cbn [rows cur field].
      apply Forall_app. split; [exact Hst | ].
      constructor; [ | constructor]. destruct (cur st); discriminate.
    + destruct (Ascii.eqb ch CR); apply IH, Hst.
Qed.

End CsvRows.

(** X21: whatever the text, [parseCSV] reads at least one row and every
    row has at least one field; so there is always a header row (for the
    empty text, one empty header), and the row pushed after the loop is
    never left out. *)
Theorem parseRows_nonempty (text : string) :
  Csv.parseRows text <> []
  /\ Forall (fun r => r <> []) (Csv.parseRows text)
  /\ Csv.hdrs (Csv.parseCSV text) <> [].
Proof.
  assert (Hrows : Forall (fun r => r <> []) (Csv.parseRows text)).
  { unfold Csv.parseRows. rewrite finish_any. apply Forall_app. split.
    - apply scan_rows_nonempty. constructor.
    - constructor; [ | constructor]. destruct (Csv.cur _); discriminate. }
  assert (Hne : Csv.parseRows text <> []).
  { unfold Csv.parseRows. rewrite finish_any.
    destruct (Csv.rows _); discriminate. }
  split; [exact Hne | ]. split; [exact Hrows | ].
  unfold Csv.parseCSV. cbn [Csv.hdrs].
  destruct (Csv.parseRows text) as [ | r rs]; [congruence | ].
  inversion Hrows; assumption.
Qed.

(** ** Whole weeks *)

Section Weeks.

Variable tz : Zone.
Variable W : gset Z.
Hypothesis regular : regularMidnights tz.
Hypothesis W_range : forall d, d ∈ W -> 0 <= d <= 6.

Lemma length_filter_cons {A} (P : A -> Prop) `{forall x, Decision (P x)}
    (x : A) (l : list A) :
  length (filter P (x :: l)) = ((if decide (P x) then 1 else 0) + length (filter P l))%nat.
Proof. rewrite filter_cons. destruct (decide (P x)); reflexivity. Qed.

Lemma size_weekdays :
  size W = length (filter (fun w => w ∈ W) [0; 1; 2; 3; 4; 5; 6]).
Proof.
  assert (E : W = list_to_set (filter (fun w => w ∈ W) [0; 1; 2; 3; 4; 5; 6])).
  { apply set_eq. intros d. rewrite elem_of_list_to_set, list_elem_of_filter.
    split; [ | intros [H _]; exact H].
    intros Hd. split; [exact Hd | ]. pose proof (W_range d Hd) as Hr.
    rewrite !elem_of_cons. lia. }
  rewrite E at 1. rewrite size_list_to_set; [reflexivity | ].
  apply NoDup_filter. apply (bool_decide_unpack _). vm_compute. exact I.
Qed.

Lemma week_days (a : Z) :
  daysBetween tz a (a + 6)
  = [atLocal tz (a * 86400); atLocal tz ((a + 1) * 86400);
     atLocal tz ((a + 2) * 86400); atLocal tz ((a + 3) * 86400);
     atLocal tz ((a + 4) * 86400); atLocal tz ((a + 5) * 86400);
     atLocal tz ((a + 6) * 86400)].
Proof.
  unfold daysBetween. replace (a + 6 - a + 1) with 7 by lia.
  do 7 (rewrite seqZ_cons by lia; cbn [Z.pred Pos.pred_double Z.pos_sub Z.add]).
  rewrite seqZ_nil by lia. cbn [fmap list_fmap].
  repeat (f_equal; try lia).
Qed.

Lemma weekday_shift (a i r : Z) :
  (a + 4) mod 7 = r -> (a + i + 4) mod 7 = (r + i) mod 7.
Proof.
  intros <-. rewrite Zplus_mod_idemp_l. f_equal. lia.
Qed.

(** Seven days in a row have each weekday once. *)
Lemma week_count (a : Z) :
  length (filter (fun d => getDay tz d ∈ W) (daysBetween tz a (a + 6))) = size W.
Proof.
  rewrite size_weekdays, week_days.
  rewrite !length_filter_cons. rewrite !filter_nil. cbn [length].
  rewrite !getDay_midnight by apply regular.
  assert (Hr : 0 <= (a + 4) mod 7 < 7) by (apply Z.mod_pos_bound; lia).
  assert (Hc : (a + 4) mod 7 = 0 \/ (a + 4) mod 7 = 1 \/ (a + 4) mod 7 = 2
               \/ (a + 4) mod 7 = 3 \/ (a + 4) mod 7 = 4 \/ (a + 4) mod 7 = 5
               \/ (a + 4) mod 7 = 6) by lia.
  clear Hr.
  destruct Hc as [E | [E | [E | [E | [E | [E | E]]]]]];
    rewrite (weekday_shift a 1 _ E), (weekday_shift a 2 _ E),
      (weekday_shift a 3 _ E), (weekday_shift a 4 _ E),
      (weekday_shift a 5 _ E), (weekday_shift a 6 _ E), E;
    repeat match goal with
      | |- context [?x mod 7] =>
          let v := eval vm_compute in (x mod 7) in
          progress change (x mod 7) with v
      end;
    lia.
Qed.

Lemma weeks_count (n : nat) :
  forall a : Z,
    length (filter (fun d => getDay tz d ∈ W)
              (daysBetween tz a (a + 7 * Z.of_nat n - 1)))
    = (n * size W)%nat.
Proof.
  induction n as [ | n IH]; intros a.
  - unfold daysBetween. rewrite seqZ_nil by lia. reflexivity.
  - assert (E : daysBetween tz a (a + 7 * Z.of_nat (S n) - 1)
                = daysBetween tz a (a + 6)
                  ++ daysBetween tz (a + 7) (a + 7 + 7 * Z.of_nat n - 1)).
    { unfold daysBetween. rewrite <- fmap_app.
      replace (a + 7 * Z.of_nat (S n) - 1 - a + 1) with (7 + 7 * Z.of_nat n) by lia.
      rewrite seqZ_app by lia. do 3 f_equal; lia. }
    rewrite E, filter_app, length_app, week_count, IH. lia.
Qed.

End Weeks.

(** X22: in a time zone that keeps its midnights regular, for two dates
    outside the years 0 to 99 and a set of weekday identifiers 0 to 6,
    when the local days from the one of the start date through the one of
    the end date are a whole number [k] of weeks, [expandOccurrences]
    yields exactly [k] dates for each chosen weekday, whatever weekday the
    range starts on and whatever the times of day of the two dates. *)
Theorem expandOccurrences_whole_weeks (tz : Zone) (sd ed : Date) (W : gset Z) (k : Z) :
  regularMidnights tz ->
  ~ 0 <= getFullYear tz sd <= 99 -> ~ 0 <= getFullYear tz ed <= 99 ->
  (forall d, d ∈ W -> 0 <= d <= 6) ->
  0 <= k ->
  localDay tz ed = localDay tz sd + 7 * k - 1 ->
  length (expandOccurrences tz (Some sd) (Some ed) W) = (Z.to_nat k * size W)%nat.
Proof.
  intros Hreg Hys Hye HW Hk Hed.
  rewrite (proj2 (expandOccurrences_days tz W Hreg sd ed Hys Hye)), Hed.
  rewrite <- (Z2Nat.id k) at 1 by exact Hk.
  apply weeks_count; assumption.
Qed.

Lemma expandOccurrences_whole_weeks_witness :
  length (expandOccurrences pacific2025 (Some (mkDate 1741104000))
            (Some (mkDate 1742238000)) ({[1; 3]} : gset Z)) = 4%nat.
Proof.
  rewrite (expandOccurrences_whole_weeks pacific2025 (mkDate 1741104000)
             (mkDate 1742238000) {[1; 3]} 2).
  - vm_compute. reflexivity.
  - exact pacific2025_regular.
  - vm_compute. intros [_ H]. apply H. reflexivity.
  - vm_compute. intros [_ H]. apply H. reflexivity.
  - intros d Hd. apply elem_of_union in Hd as [Hd | Hd];
      apply elem_of_singleton in Hd; lia.
  - lia.
  - vm_compute. reflexivity.
Defined.
